(** * mkfs_ext2: a shallow embedding of [tools/mkfs_ext2.py]

    The script formats a fixed-size disk image with a minimal ext2 layout.
    It is one straight-line module: constants, a [BlockGroup] class, a few
    allocation passes that mutate the list [groups] in place, and a write
    phase that seeks and writes into [disk.img].

    The embedding keeps that shape.  Python integers are [Z], a [bytearray]
    is a [list Z] of values in [0, 256), exceptions are the [Err] branch of
    a small error monad, the list of groups is threaded explicitly, and the
    output file is a size together with the log of the writes made to it.
    The module constants are collected in a record [Params]; the values of
    the source are [default_params]. *)

From stdpp Require Import base list numbers strings.
From Stdlib Require Import ZArith Lia.

Local Open Scope Z_scope.

(** ** Exceptions *)

Inductive pyerr : Set :=
| ZeroDivisionError
| IndexError
| ValueError
| StructError
| OSError.

Inductive result (A : Type) : Type :=
| Ok (a : A)
| Err (e : pyerr).
Arguments Ok {A} a.
Arguments Err {A} e.

Definition bind {A B : Type} (m : result A) (k : A -> result B) : result B :=
  match m with
  | Ok a => k a
  | Err e => Err e
  end.

Notation "'let*' x ':=' m 'in' k" := (bind m (fun x => k))
  (at level 10, x pattern, m at level 200, k at level 200, only parsing).

(** ** Python primitives used by the script *)

(** [a // b] and [a % b]: Rocq's [Z.div] and [Z.modulo] round towards minus
    infinity like Python's; only the zero divisor differs. *)
Definition floordiv (a b : Z) : result Z :=
  if b =? 0 then Err ZeroDivisionError else Ok (a / b).

Definition pymod (a b : Z) : result Z :=
  if b =? 0 then Err ZeroDivisionError else Ok (a mod b).

(** [range(n)] and [range(a, b)] *)
Fixpoint count_up (k : Z) (n : nat) : list Z :=
  match n with
  | O => []
  | S n' => k :: count_up (k + 1) n'
  end.

Definition range (n : Z) : list Z := count_up 0 (Z.to_nat n).

Definition range2 (a b : Z) : list Z := count_up a (Z.to_nat (b - a)).

(** Sequence indexing: a negative index counts from the end, anything
    outside raises [IndexError].  An index [i >= 0] is inside when the list
    has an element at [i], which is [i < len(l)]. *)
Definition norm_index {A : Type} (l : list A) (i : Z) : result nat :=
  if 0 <=? i then
    match l !! Z.to_nat i with
    | Some _ => Ok (Z.to_nat i)
    | None => Err IndexError
    end
  else
    let j := Z.of_nat (length l) + i in
    if 0 <=? j then Ok (Z.to_nat j) else Err IndexError.

Definition getitem {A : Type} (l : list A) (i : Z) : result A :=
  let* n := norm_index l i in
  match l !! n with
  | Some x => Ok x
  | None => Err IndexError
  end.

Definition setitem {A : Type} (l : list A) (i : Z) (x : A) : result (list A) :=
  let* n := norm_index l i in
  Ok (<[n := x]> l).

(** [bytearray(n)] *)
Definition bytearray (n : Z) : result (list Z) :=
  if n <? 0 then Err ValueError else Ok (replicate (Z.to_nat n) 0).

(** [buf[i] |= mask] on a bytearray: the stored value must be a byte. *)
Definition ior_byte (buf : list Z) (i mask : Z) : result (list Z) :=
  let* b := getitem buf i in
  let v := Z.lor b mask in
  if (0 <=? v) && (v <? 256) then setitem buf i v else Err ValueError.

(** [sum(...)] *)
Definition sumZ (l : list Z) : Z := foldr Z.add 0 l.

(** ** Constants and derived geometry (source lines 5-15) *)

Record Params : Set := mkParams {
  DISK_SIZE : Z;
  BLOCK_SIZE : Z;
  INODE_SIZE : Z;
  BLOCKS_PER_GROUP : Z;
  INODES_PER_GROUP : Z
}.

Definition default_params : Params :=
  {| DISK_SIZE := 64 * 1024 * 1024;
     BLOCK_SIZE := 1024;
     INODE_SIZE := 128;
     BLOCKS_PER_GROUP := 8192;
     INODES_PER_GROUP := 2048 |}.

Record Geometry : Set := mkGeometry {
  BLOCK_COUNT : Z;
  GROUP_COUNT : Z;
  INODE_COUNT : Z
}.

(** [SECTORS_PER_BLOCK] (line 7) is never read and is left out. *)
Definition derive_geometry (p : Params) : result Geometry :=
  let* bc := floordiv (DISK_SIZE p) (BLOCK_SIZE p) in
  let* gc := floordiv (bc + BLOCKS_PER_GROUP p - 1) (BLOCKS_PER_GROUP p) in
  Ok {| BLOCK_COUNT := bc;
        GROUP_COUNT := gc;
        INODE_COUNT := INODES_PER_GROUP p * gc |}.

(** ** Block groups (class [BlockGroup], source lines 87-116) *)

Record BlockGroup : Type := mkBlockGroup {
  id : Z;
  block_bitmap_blk : Z;
  inode_bitmap_blk : Z;
  inode_table_blk : Z;
  free_blocks_count : Z;
  free_inodes_count : Z;
  used_dirs_count : Z;
  block_bitmap : list Z;
  inode_bitmap : list Z
}.

Definition BlockGroup_init (p : Params) (i : Z) : result BlockGroup :=
  let* bb := bytearray (BLOCK_SIZE p) in
  let* ib := bytearray (BLOCK_SIZE p) in
  Ok {| id := i;
        block_bitmap_blk := 0;
        inode_bitmap_blk := 0;
        inode_table_blk := 0;
        free_blocks_count := BLOCKS_PER_GROUP p;
        free_inodes_count := INODES_PER_GROUP p;
        used_dirs_count := 0;
        block_bitmap := bb;
        inode_bitmap := ib |}.

(** Field updates, written as the assignments of the source. *)
Definition set_block_bitmap (g : BlockGroup) (bm : list Z) : BlockGroup :=
  mkBlockGroup (id g) (block_bitmap_blk g) (inode_bitmap_blk g) (inode_table_blk g)
    (free_blocks_count g) (free_inodes_count g) (used_dirs_count g) bm (inode_bitmap g).

Definition set_inode_bitmap (g : BlockGroup) (bm : list Z) : BlockGroup :=
  mkBlockGroup (id g) (block_bitmap_blk g) (inode_bitmap_blk g) (inode_table_blk g)
    (free_blocks_count g) (free_inodes_count g) (used_dirs_count g) (block_bitmap g) bm.

Definition set_free_blocks_count (g : BlockGroup) (n : Z) : BlockGroup :=
  mkBlockGroup (id g) (block_bitmap_blk g) (inode_bitmap_blk g) (inode_table_blk g)
    n (free_inodes_count g) (used_dirs_count g) (block_bitmap g) (inode_bitmap g).

Definition set_free_inodes_count (g : BlockGroup) (n : Z) : BlockGroup :=
  mkBlockGroup (id g) (block_bitmap_blk g) (inode_bitmap_blk g) (inode_table_blk g)
    (free_blocks_count g) n (used_dirs_count g) (block_bitmap g) (inode_bitmap g).

Definition set_used_dirs_count (g : BlockGroup) (n : Z) : BlockGroup :=
  mkBlockGroup (id g) (block_bitmap_blk g) (inode_bitmap_blk g) (inode_table_blk g)
    (free_blocks_count g) (free_inodes_count g) n (block_bitmap g) (inode_bitmap g).

Definition set_block_bitmap_blk (g : BlockGroup) (b : Z) : BlockGroup :=
  mkBlockGroup (id g) b (inode_bitmap_blk g) (inode_table_blk g)
    (free_blocks_count g) (free_inodes_count g) (used_dirs_count g)
    (block_bitmap g) (inode_bitmap g).

Definition set_inode_bitmap_blk (g : BlockGroup) (b : Z) : BlockGroup :=
  mkBlockGroup (id g) (block_bitmap_blk g) b (inode_table_blk g)
    (free_blocks_count g) (free_inodes_count g) (used_dirs_count g)
    (block_bitmap g) (inode_bitmap g).

Definition set_inode_table_blk (g : BlockGroup) (b : Z) : BlockGroup :=
  mkBlockGroup (id g) (block_bitmap_blk g) (inode_bitmap_blk g) b
    (free_blocks_count g) (free_inodes_count g) (used_dirs_count g)
    (block_bitmap g) (inode_bitmap g).

(** Monadic iteration over a list, the [for] loops of the script. *)
Fixpoint mapM {A B : Type} (f : A -> result B) (l : list A) : result (list B) :=
  match l with
  | [] => Ok []
  | x :: l' =>
      let* y := f x in
      let* ys := mapM f l' in
      Ok (y :: ys)
  end.

Fixpoint foldM {A S : Type} (f : S -> A -> result S) (s : S) (l : list A) : result S :=
  match l with
  | [] => Ok s
  | x :: l' =>
      let* s' := f s x in
      foldM f s' l'
  end.

(** [groups = []; for i in range(GROUP_COUNT): groups.append(BlockGroup(i))] *)
Definition make_groups (p : Params) (geo : Geometry) : result (list BlockGroup) :=
  mapM (BlockGroup_init p) (range (GROUP_COUNT geo)).

(** ** Metadata allocation (source lines 127-169) *)

(** [g.block_bitmap[rel // 8] |= (1 << (rel % 8)); g.free_blocks_count -= 1] *)
Definition mark_block (g : BlockGroup) (rel : Z) : result BlockGroup :=
  let* bm := ior_byte (block_bitmap g) (rel / 8) (Z.shiftl 1 (rel mod 8)) in
  Ok (set_free_blocks_count (set_block_bitmap g bm) (free_blocks_count g - 1)).

(** The [if g.id == 0] branch: superblock and GDT are marked in group 0 and
    the allocation cursor is set.  Returns the group and [current_alloc]. *)
Definition reserve_sb_gdt (p : Params) (g : BlockGroup) : result (BlockGroup * Z) :=
  let start_block := id g * BLOCKS_PER_GROUP p + 1 in
  if id g =? 0 then
    let* bm1 := ior_byte (block_bitmap g) 0 (Z.shiftl 1 0) in
    let* bm2 := ior_byte bm1 0 (Z.shiftl 1 1) in
    Ok (set_free_blocks_count (set_block_bitmap g bm2) (free_blocks_count g - 2), 3)
  else Ok (g, start_block).

(** The body of [for k in range(inode_table_blocks)]. *)
Definition mark_table_block (p : Params) (current_alloc : Z) (g : BlockGroup) (k : Z)
  : result BlockGroup :=
  mark_block g ((current_alloc + k) - (id g * BLOCKS_PER_GROUP p + 1)).

(** One iteration of [for g in groups]. *)
Definition alloc_group_metadata (p : Params) (g : BlockGroup) : result BlockGroup :=
  let* (g, current_alloc) := reserve_sb_gdt p g in
  (* Allocate Block Bitmap *)
  let g := set_block_bitmap_blk g current_alloc in
  let* g := mark_block g (current_alloc - (id g * BLOCKS_PER_GROUP p + 1)) in
  let current_alloc := current_alloc + 1 in
  (* Allocate Inode Bitmap *)
  let g := set_inode_bitmap_blk g current_alloc in
  let* g := mark_block g (current_alloc - (id g * BLOCKS_PER_GROUP p + 1)) in
  let current_alloc := current_alloc + 1 in
  (* Allocate Inode Table *)
  let* inode_table_blocks := floordiv (INODES_PER_GROUP p * INODE_SIZE p) (BLOCK_SIZE p) in
  let g := set_inode_table_blk g current_alloc in
  foldM (mark_table_block p current_alloc) g (range inode_table_blocks).

Definition alloc_metadata (p : Params) (gs : list BlockGroup) : result (list BlockGroup) :=
  mapM (alloc_group_metadata p) gs.

(** ** Reserved inodes, root and lost+found (source lines 171-213) *)

(** In-place mutation of [groups[i]]: the element is replaced in the list. *)
Definition update_group (gs : list BlockGroup) (i : Z)
    (f : BlockGroup -> result BlockGroup) : result (list BlockGroup) :=
  let* g := getitem gs i in
  let* g' := f g in
  setitem gs i g'.

(** [g.inode_bitmap[off // 8] |= (1 << (off % 8)); g.free_inodes_count -= 1] *)
Definition mark_inode (off : Z) (g : BlockGroup) : result BlockGroup :=
  let* bm := ior_byte (inode_bitmap g) (off / 8) (Z.shiftl 1 (off mod 8)) in
  Ok (set_free_inodes_count (set_inode_bitmap g bm) (free_inodes_count g - 1)).

(** Lines 172-177 and 199-204: the inode of a directory is marked and the
    group's directory counter is incremented.  Returns the groups and the
    index of the owning group. *)
Definition alloc_dir_inode (p : Params) (gs : list BlockGroup) (inode_index : Z)
  : result (list BlockGroup * Z) :=
  let* group_idx := floordiv (inode_index - 1) (INODES_PER_GROUP p) in
  let* inode_offset := pymod (inode_index - 1) (INODES_PER_GROUP p) in
  let* gs := update_group gs group_idx (mark_inode inode_offset) in
  let* gs := update_group gs group_idx
               (fun g => Ok (set_used_dirs_count g (used_dirs_count g + 1))) in
  Ok (gs, group_idx).

(** The body of [for i in range(1, 11)]. *)
Definition reserve_inode (p : Params) (gs : list BlockGroup) (i : Z)
  : result (list BlockGroup) :=
  if i =? 2 then Ok gs (* continue *)
  else
    let* grp := floordiv (i - 1) (INODES_PER_GROUP p) in
    let* off := pymod (i - 1) (INODES_PER_GROUP p) in
    update_group gs grp (mark_inode off).

Definition reserve_inodes (p : Params) (gs : list BlockGroup) : result (list BlockGroup) :=
  foldM (reserve_inode p) gs (range2 1 11).

(** The first-fit scan [for i in range(BLOCKS_PER_GROUP): if not (...): ...; break].
    [blk] is the value the data-block variable holds before the loop; it is
    returned unchanged when the loop runs to its end. *)
Fixpoint first_fit (p : Params) (g : BlockGroup) (blk : Z) (scan : list Z)
  : result (BlockGroup * Z) :=
  match scan with
  | [] => Ok (g, blk)
  | i :: rest =>
      let* b := getitem (block_bitmap g) (i / 8) in
      if Z.land b (Z.shiftl 1 (i mod 8)) =? 0 then
        let* bm := ior_byte (block_bitmap g) (i / 8) (Z.shiftl 1 (i mod 8)) in
        Ok (set_free_blocks_count (set_block_bitmap g bm) (free_blocks_count g - 1),
            id g * BLOCKS_PER_GROUP p + 1 + i)
      else first_fit p g blk rest
  end.

(** [data_block = 0; g = groups[idx]; for i in range(BLOCKS_PER_GROUP): ...] *)
Definition alloc_data_block (p : Params) (gs : list BlockGroup) (idx : Z)
  : result (list BlockGroup * Z) :=
  let* g := getitem gs idx in
  let* (g', blk) := first_fit p g 0 (range (BLOCKS_PER_GROUP p)) in
  let* gs' := setitem gs idx g' in
  Ok (gs', blk).

(** The in-memory state at the end of the allocation passes. *)
Record Layout : Type := mkLayout {
  groups : list BlockGroup;
  root_group_idx : Z;
  root_data_block : Z;
  lf_group_idx : Z;
  lf_data_block : Z
}.

Definition root_inode_index : Z := 2.
Definition lf_inode_index : Z := 11.

(** The state just before the scan for the root directory's block. *)
Definition before_root_scan (p : Params) (geo : Geometry)
  : result (list BlockGroup * Z) :=
  let* gs := make_groups p geo in
  let* gs := alloc_metadata p gs in
  let* (gs, root_idx) := alloc_dir_inode p gs root_inode_index in
  let* gs := reserve_inodes p gs in
  Ok (gs, root_idx).

(** The state just before the scan for lost+found's block. *)
Definition before_lf_scan (p : Params) (geo : Geometry)
  : result (list BlockGroup * Z * Z * Z) :=
  let* (gs, root_idx) := before_root_scan p geo in
  let* (gs, root_blk) := alloc_data_block p gs 0 in
  let* (gs, lf_idx) := alloc_dir_inode p gs lf_inode_index in
  Ok (gs, root_idx, root_blk, lf_idx).

Definition allocate (p : Params) (geo : Geometry) : result Layout :=
  let* (gs, root_idx, root_blk, lf_idx) := before_lf_scan p geo in
  let* (gs, lf_blk) := alloc_data_block p gs lf_idx in
  Ok {| groups := gs;
        root_group_idx := root_idx;
        root_data_block := root_blk;
        lf_group_idx := lf_idx;
        lf_data_block := lf_blk |}.

(** ** [struct.pack_into] for the little-endian formats of the script *)

Inductive field : Set :=
| U8 (v : Z)                  (* B *)
| U16 (v : Z)                 (* H *)
| U32 (v : Z)                 (* I *)
| Str (n : nat) (s : list Z). (* <n>s *)

Definition le_bytes (n : nat) (v : Z) : list Z :=
  (fun k : nat => (v / 2 ^ (8 * Z.of_nat k)) mod 256) <$> seq 0 n.

Definition pack_uint (n : nat) (v : Z) : result (list Z) :=
  if (0 <=? v) && (v <? 2 ^ (8 * Z.of_nat n)) then Ok (le_bytes n v)
  else Err StructError.

Definition pack_field (f : field) : result (list Z) :=
  match f with
  | U8 v => pack_uint 1 v
  | U16 v => pack_uint 2 v
  | U32 v => pack_uint 4 v
  | Str n s => Ok (take n (s ++ replicate n 0))
  end.

Fixpoint pack (fs : list field) : result (list Z) :=
  match fs with
  | [] => Ok []
  | f :: fs' =>
      let* b := pack_field f in
      let* bs := pack fs' in
      Ok (b ++ bs)
  end.

(** Overwrite [buf] from offset [off] with [bs]. *)
Definition blit (buf : list Z) (off : nat) (bs : list Z) : list Z :=
  take off buf ++ bs ++ drop (off + length bs) buf.

(** Every offset the script passes is a non-negative literal or [i * 32]
    with [i] an index of [enumerate], hence a [nat]. *)
Definition pack_into (fs : list field) (buf : list Z) (off : nat) : result (list Z) :=
  let* bs := pack fs in
  if (off + length bs <=? length buf)%nat then Ok (blit buf off bs)
  else Err StructError.

(** Decoders, used to state what a packed buffer holds. *)
Definition le_decode (bs : list Z) : Z :=
  foldr (fun b acc => b + 256 * acc) 0 bs.

Definition get_bytes (buf : list Z) (off n : nat) : list Z :=
  take n (drop off buf).

Definition get_uint (buf : list Z) (off n : nat) : Z :=
  le_decode (get_bytes buf off n).

Definition get_u8 (buf : list Z) (off : nat) : Z := get_uint buf off 1.
Definition get_u16 (buf : list Z) (off : nat) : Z := get_uint buf off 2.
Definition get_u32 (buf : list Z) (off : nat) : Z := get_uint buf off 4.

(** A bytes literal such as [b'lost+found']. *)
Definition bytes_of_string (s : string) : list Z :=
  (fun c => Z.of_N (Ascii.N_of_ascii c)) <$> String.list_ascii_of_string s.

(** ** Superblock (source lines 47-73 and 215-221) *)

(** [t_m] and [t_w] are the two readings [int(time.time())] of lines 61-62. *)
Definition create_superblock (p : Params) (geo : Geometry) (t_m t_w : Z)
  : result (list Z) :=
  let* sb := bytearray 1024 in
  let* sb := pack_into
      [ U32 (INODE_COUNT geo);                              (* s_inodes_count *)
        U32 (BLOCK_COUNT geo);                              (* s_blocks_count *)
        U32 0;                                              (* s_r_blocks_count *)
        U32 (BLOCK_COUNT geo - 1 - GROUP_COUNT geo * 1 - 1); (* s_free_blocks_count *)
        U32 (INODE_COUNT geo - 11);                         (* s_free_inodes_count *)
        U32 1;                                              (* s_first_data_block *)
        U32 0;                                              (* s_log_block_size *)
        U32 0;                                              (* s_log_frag_size *)
        U32 (BLOCKS_PER_GROUP p);                           (* s_blocks_per_group *)
        U32 (BLOCKS_PER_GROUP p);                           (* s_frags_per_group *)
        U32 (INODES_PER_GROUP p);                           (* s_inodes_per_group *)
        U32 t_m;                                            (* s_mtime *)
        U32 t_w;                                            (* s_wtime *)
        U16 0;                                              (* s_mnt_count *)
        U16 20 ]                                            (* s_max_mnt_count *)
      sb 0 in
  let* sb := pack_into [U16 0xEF53] sb 56 in (* s_magic *)
  let* sb := pack_into [U16 1] sb 58 in      (* s_state *)
  let* sb := pack_into [U16 1] sb 60 in      (* s_errors *)
  pack_into [U32 0] sb 76.                   (* s_rev_level *)

Definition total_free_blocks (gs : list BlockGroup) : Z :=
  sumZ (free_blocks_count <$> gs).

Definition total_free_inodes (gs : list BlockGroup) : Z :=
  sumZ (free_inodes_count <$> gs).

(** [sb_data] as it is when the file is opened. *)
Definition make_sb_data (p : Params) (geo : Geometry) (lay : Layout) (t_m t_w : Z)
  : result (list Z) :=
  let* sb_data := create_superblock p geo t_m t_w in
  let* sb_data := pack_into [U32 (total_free_blocks (groups lay))] sb_data 12 in
  pack_into [U32 (total_free_inodes (groups lay))] sb_data 16.

(** ** The output file *)

(** One [f.seek(off); f.write(data)]: where, how many bytes, which bytes. *)
Record Write : Type := mkWrite {
  w_off : Z;
  w_len : Z;
  w_data : list Z
}.

(** A file is its size and the writes made so far, newest first; a byte
    never written reads as zero. *)
Record File : Type := mkFile {
  fsize : Z;
  flog : list Write
}.

(** [open(..., "wb")] followed by [f.truncate(n)]. *)
Definition ftruncate (n : Z) : result File :=
  if n <? 0 then Err OSError else Ok {| fsize := n; flog := [] |}.

(** [f.seek(off); f.write(data)] *)
Definition fwrite (f : File) (off : Z) (data : list Z) : result File :=
  if off <? 0 then Err OSError
  else match data with
       | [] => Ok f
       | _ => let len := Z.of_nat (length data) in
              Ok {| fsize := Z.max (fsize f) (off + len);
                    flog := mkWrite off len data :: flog f |}
       end.

Fixpoint read_log (log : list Write) (o : Z) : Z :=
  match log with
  | [] => 0
  | w :: log' =>
      if (w_off w <=? o) && (o <? w_off w + w_len w)
      then default 0 (w_data w !! Z.to_nat (o - w_off w))
      else read_log log' o
  end.

(** The byte of the finished file at offset [o]. *)
Definition file_byte (f : File) (o : Z) : option Z :=
  if (0 <=? o) && (o <? fsize f) then Some (read_log (flog f) o) else None.

Definition file_bytes (f : File) (o : Z) (n : nat) : list (option Z) :=
  (fun k : nat => file_byte f (o + Z.of_nat k)) <$> seq 0 n.

(** ** Write phase (source lines 224-334) *)

(** The group descriptor table: [for i, g in enumerate(groups)]. *)
Definition pack_descriptor (gdt : list Z) (ig : nat * BlockGroup) : result (list Z) :=
  let '(i, g) := ig in
  pack_into
    [ U32 (block_bitmap_blk g);
      U32 (inode_bitmap_blk g);
      U32 (inode_table_blk g);
      U16 (free_blocks_count g);
      U16 (free_inodes_count g);
      U16 (used_dirs_count g);
      U16 0 ]
    gdt (i * 32)%nat.

Definition make_gdt (p : Params) (gs : list BlockGroup) : result (list Z) :=
  let* gdt := bytearray (BLOCK_SIZE p) in
  foldM pack_descriptor gdt (imap pair gs).

Definition root_inode (p : Params) (lay : Layout) : result (list Z) :=
  let* ino := bytearray (INODE_SIZE p) in
  let* ino := pack_into [U16 0x41ED] ino 0 in
  let* ino := pack_into [U32 (BLOCK_SIZE p)] ino 4 in
  let* ino := pack_into [U32 2] ino 28 in
  let* ino := pack_into [U16 3] ino 26 in
  pack_into [U32 (root_data_block lay)] ino 40.

Definition lf_inode (p : Params) (lay : Layout) : result (list Z) :=
  let* ino := bytearray (INODE_SIZE p) in
  let* ino := pack_into [U16 0x41ED] ino 0 in
  let* ino := pack_into [U32 (BLOCK_SIZE p)] ino 4 in
  let* ino := pack_into [U32 2] ino 28 in
  let* ino := pack_into [U16 2] ino 26 in
  pack_into [U32 (lf_data_block lay)] ino 40.

(** The body of [for g in groups] at lines 248-289. *)
Definition write_group (p : Params) (lay : Layout) (f : File) (g : BlockGroup)
  : result File :=
  let* f := fwrite f (block_bitmap_blk g * BLOCK_SIZE p) (block_bitmap g) in
  let* f := fwrite f (inode_bitmap_blk g * BLOCK_SIZE p) (inode_bitmap g) in
  let* f :=
    if id g =? root_group_idx lay then
      let* inode_offset := pymod (root_inode_index - 1) (INODES_PER_GROUP p) in
      let* ino := root_inode p lay in
      fwrite f (inode_table_blk g * BLOCK_SIZE p + inode_offset * INODE_SIZE p) ino
    else Ok f in
  if id g =? lf_group_idx lay then
    let* inode_offset := pymod (lf_inode_index - 1) (INODES_PER_GROUP p) in
    let* ino := lf_inode p lay in
    fwrite f (inode_table_blk g * BLOCK_SIZE p + inode_offset * INODE_SIZE p) ino
  else Ok f.

Definition root_block (p : Params) : result (list Z) :=
  let* blk := bytearray (BLOCK_SIZE p) in
  let offset := 0%nat in
  let* blk := pack_into [U32 2; U16 12; U8 1; U8 2; Str 1 (bytes_of_string ".")]
                blk offset in
  let offset := (offset + 12)%nat in
  let* blk := pack_into [U32 2; U16 12; U8 2; U8 2; Str 2 (bytes_of_string "..")]
                blk offset in
  let offset := (offset + 12)%nat in
  let name_len := 10 in
  let rec_len := BLOCK_SIZE p - Z.of_nat offset in
  pack_into [U32 11; U16 rec_len; U8 name_len; U8 2;
             Str 10 (bytes_of_string "lost+found")] blk offset.

Definition lf_block (p : Params) : result (list Z) :=
  let* blk := bytearray (BLOCK_SIZE p) in
  let offset := 0%nat in
  let* blk := pack_into [U32 11; U16 12; U8 1; U8 2; Str 1 (bytes_of_string ".")]
                blk offset in
  let offset := (offset + 12)%nat in
  let rec_len := BLOCK_SIZE p - Z.of_nat offset in
  pack_into [U32 2; U16 rec_len; U8 2; U8 2; Str 2 (bytes_of_string "..")]
    blk offset.

(** Everything after the superblock has been written. *)
Definition write_rest (p : Params) (lay : Layout) (f : File) : result File :=
  let* gdt := make_gdt p (groups lay) in
  let* f := fwrite f (2 * BLOCK_SIZE p) gdt in
  let* f := foldM (write_group p lay) f (groups lay) in
  let* rb := root_block p in
  let* f := fwrite f (root_data_block lay * BLOCK_SIZE p) rb in
  let* lb := lf_block p in
  fwrite f (lf_data_block lay * BLOCK_SIZE p) lb.

Definition write_image (p : Params) (lay : Layout) (sb_data : list Z) : result File :=
  let* f := ftruncate (DISK_SIZE p) in
  let* f := fwrite f 1024 sb_data in
  write_rest p lay f.

(** ** The whole script *)

Definition mkfs (p : Params) (t_m t_w : Z) : result File :=
  let* geo := derive_geometry p in
  let* lay := allocate p geo in
  let* sb_data := make_sb_data p geo lay t_m t_w in
  write_image p lay sb_data.

(** ** Reading bitmaps *)

(** The test of the scan, [buf[i // 8] & (1 << (i % 8))], as a boolean; a
    byte outside the buffer reads as unset. *)
Definition test_bit (bm : list Z) (i : Z) : bool :=
  negb (Z.land (default 0 (bm !! Z.to_nat (i / 8))) (Z.shiftl 1 (i mod 8)) =? 0).

(** Number of set bits of a byte and of a bitmap. *)
Definition popcount_byte (b : Z) : Z :=
  sumZ ((fun k : Z => Z.b2z (Z.testbit b k)) <$> seqZ 0 8).

Definition count_set (bm : list Z) : Z := sumZ (popcount_byte <$> bm).

Definition is_bytearray (bm : list Z) : Prop := Forall (fun b => 0 <= b < 256) bm.

(** Bitmap consistency of one group. *)
Definition blocks_consistent (p : Params) (g : BlockGroup) : Prop :=
  count_set (block_bitmap g) = BLOCKS_PER_GROUP p - free_blocks_count g.

Definition inodes_consistent (p : Params) (g : BlockGroup) : Prop :=
  count_set (inode_bitmap g) = INODES_PER_GROUP p - free_inodes_count g.

Definition group_consistent (p : Params) (g : BlockGroup) : Prop :=
  blocks_consistent p g /\ inodes_consistent p g.

(** * Vocabulary of the statements *)

(** ** Bitmaps and counters *)

(** A block group that differs from [g] only by one more block marked at
    bit [i] of its block bitmap. *)
Definition block_taken (g g' : BlockGroup) (i : Z) : Prop :=
  exists bm,
    ior_byte (block_bitmap g) (i / 8) (Z.shiftl 1 (i mod 8)) = Ok bm /\
    g' = set_free_blocks_count (set_block_bitmap g bm) (free_blocks_count g - 1).

(** Exactly the bits below [m] are set. *)
Definition marked_below (bm : list Z) (m : Z) : Prop :=
  forall j, 0 <= j -> test_bit bm j = (j <? m).

(** [g'] is [g] up to its block bitmap and free-block count. *)
Definition same_but_blocks (g g' : BlockGroup) : Prop :=
  id g' = id g /\
  block_bitmap_blk g' = block_bitmap_blk g /\
  inode_bitmap_blk g' = inode_bitmap_blk g /\
  inode_table_blk g' = inode_table_blk g /\
  inode_bitmap g' = inode_bitmap g /\
  free_inodes_count g' = free_inodes_count g /\
  used_dirs_count g' = used_dirs_count g.

(** Bits 0 and 1 of group 0, the allocation cursor of every group. *)
Definition reserved_blocks (i : Z) : Z := if i =? 0 then 2 else 0.

(** Every set bit of an inode bitmap is the bit of an inode of [M]. *)
Definition inode_marks_in (p : Params) (M : Z -> Prop) (k : nat) (g : BlockGroup) : Prop :=
  forall j, 0 <= j -> test_bit (inode_bitmap g) j = true ->
            M (Z.of_nat k * INODES_PER_GROUP p + j + 1).

(** The invariant of the allocation passes: every group is consistent and
    only inodes of [M] are marked. *)
Definition alloc_inv (p : Params) (M : Z -> Prop) (gs : list BlockGroup) : Prop :=
  forall k g, gs !! k = Some g -> group_consistent p g /\ inode_marks_in p M k g.

(** Set bits over all groups. *)
Definition used_blocks (gs : list BlockGroup) : Z :=
  sumZ ((fun g => count_set (block_bitmap g)) <$> gs).

Definition used_inodes (gs : list BlockGroup) : Z :=
  sumZ ((fun g => count_set (inode_bitmap g)) <$> gs).

(** ** Packed buffers and files *)

(** Bytes a field takes once packed. *)
Definition field_size (f : field) : nat :=
  match f with
  | U8 _ => 1
  | U16 _ => 2
  | U32 _ => 4
  | Str n _ => n
  end.

Definition fields_size (fs : list field) : nat := sum_list (field_size <$> fs).

(** Two buffers of the same length that agree outside the indices of [K]. *)
Definition agree_list (K : nat -> Prop) (l1 l2 : list Z) : Prop :=
  length l1 = length l2 /\ forall k, ~ K k -> l1 !! k = l2 !! k.

(** Two files of the same size that agree outside the offsets of [W]. *)
Definition agree_outside (W : Z -> Prop) (f1 f2 : File) : Prop :=
  fsize f1 = fsize f2 /\
  forall o, ~ W o -> read_log (flog f1) o = read_log (flog f2) o.

(** The clock reaches the image only through bytes 1068..1075. *)
Definition clock_bytes (o : Z) : Prop := 1068 <= o <= 1075.

(** ** Reading the image back *)

(** The value of a computation known to succeed. *)
Definition from_ok {A : Type} (d : A) (m : result A) : A :=
  match m with Ok a => a | Err _ => d end.

Fixpoint all_some (l : list (option Z)) : option (list Z) :=
  match l with
  | [] => Some []
  | Some x :: l' => match all_some l' with Some xs => Some (x :: xs) | None => None end
  | None :: _ => None
  end.

(** [n] bytes of the file from offset [o], if they are all inside it. *)
Definition file_read (f : File) (o : Z) (n : nat) : option (list Z) :=
  all_some (file_bytes f o n).

(** The little-endian unsigned integer in [n] bytes of the file. *)
Definition file_uint (f : File) (o : Z) (n : nat) : option Z :=
  le_decode <$> file_read f o n.

(** A directory entry as ext2 lays it out: inode (u32), rec_len (u16),
    name_len (u8), file_type (u8), name. *)
Record dirent : Set := mkDirent {
  d_inode : Z;
  d_rec_len : Z;
  d_name_len : Z;
  d_file_type : Z;
  d_name : list Z
}.

(** The file-type tag of a directory. *)
Definition EXT2_FT_DIR : Z := 2.

Definition read_dirent (blk : list Z) (off : nat) : dirent :=
  let name_len := get_u8 blk (off + 6) in
  {| d_inode := get_u32 blk off;
     d_rec_len := get_u16 blk (off + 4);
     d_name_len := name_len;
     d_file_type := get_u8 blk (off + 7);
     d_name := get_bytes blk (off + 8) (Z.to_nat name_len) |}.

(** The entries of a directory block, following [rec_len] from offset
    [off] to the end of the block. *)
Fixpoint read_dir (fuel : nat) (blk : list Z) (off : nat) : list (nat * dirent) :=
  match fuel with
  | O => []
  | S fuel' =>
      if (off <? length blk)%nat then
        let e := read_dirent blk off in
        (off, e) :: (if d_rec_len e <=? 0 then []
                     else read_dir fuel' blk (off + Z.to_nat (d_rec_len e)))
      else []
  end.

Definition rec_len_sum (es : list (nat * dirent)) : Z :=
  sumZ ((fun e => d_rec_len (snd e)) <$> es).

(** The fields of a directory inode record: everything else is zero. *)
Definition dir_inode_record (ino : list Z) (links blk : Z) : Prop :=
  length ino = 128%nat /\
  get_u16 ino 0 = 0x41ED /\
  get_bytes ino 2 2 = replicate 2 0 /\
  get_u32 ino 4 = 1024 /\
  get_bytes ino 8 18 = replicate 18 0 /\
  get_u16 ino 26 = links /\
  get_u32 ino 28 = 2 /\
  get_bytes ino 32 8 = replicate 8 0 /\
  get_u32 ino 40 = blk /\
  get_bytes ino 44 84 = replicate 84 0.

(** ** The run with the constants of the source *)

(** The geometry the constants of the source derive. *)
Definition default_geometry : Geometry :=
  {| BLOCK_COUNT := 65536; GROUP_COUNT := 8; INODE_COUNT := 16384 |}.

(** What [BlockGroup(i)] creates with the constants of the source. *)
Definition default_group (i : Z) : BlockGroup :=
  {| id := i;
     block_bitmap_blk := 0;
     inode_bitmap_blk := 0;
     inode_table_blk := 0;
     free_blocks_count := 8192;
     free_inodes_count := 2048;
     used_dirs_count := 0;
     block_bitmap := replicate 1024 0;
     inode_bitmap := replicate 1024 0 |}.

(** Placeholders for lookups that are known to succeed. *)
Definition empty_group : BlockGroup := mkBlockGroup 0 0 0 0 0 0 0 [] [].

(** The groups when the scan for the root directory's block starts. *)
Definition groups_before_root_scan : list BlockGroup :=
  from_ok [] (let* st := before_root_scan default_params default_geometry in Ok (fst st)).

Definition group0_before_root_scan : BlockGroup :=
  default empty_group (groups_before_root_scan !! 0%nat).

(** The state at the end of the allocation passes. *)
Definition default_layout : Layout :=
  from_ok (mkLayout [] 0 0 0 0) (allocate default_params default_geometry).

(** The image of a run whose two clock readings are 0. *)
Definition default_image : File :=
  from_ok (mkFile 0 []) (mkfs default_params 0 0).

(** The image of a run with two later, distinct clock readings. *)
Definition later_image : File :=
  from_ok (mkFile 0 []) (mkfs default_params 1700000000 1700000001).

(** The two inode records and the two directory blocks the script builds
    in memory. *)
Definition default_root_inode : list Z :=
  from_ok [] (root_inode default_params default_layout).
Definition default_lf_inode : list Z :=
  from_ok [] (lf_inode default_params default_layout).
Definition default_root_block : list Z := from_ok [] (root_block default_params).
Definition default_lf_block : list Z := from_ok [] (lf_block default_params).

(** The entries of the two directory blocks. *)
Definition root_entries : list (nat * dirent) :=
  [ (0%nat, mkDirent 2 12 1 EXT2_FT_DIR (bytes_of_string "."));
    (12%nat, mkDirent 2 12 2 EXT2_FT_DIR (bytes_of_string ".."));
    (24%nat, mkDirent 11 (1024 - 24) 10 EXT2_FT_DIR (bytes_of_string "lost+found")) ].

Definition lf_entries : list (nat * dirent) :=
  [ (0%nat, mkDirent 11 12 1 EXT2_FT_DIR (bytes_of_string "."));
    (12%nat, mkDirent 2 (1024 - 12) 2 EXT2_FT_DIR (bytes_of_string "..")) ].

(** ** Constants that leave no free block in group 0 *)

(** Constants under which group 0 is full once its metadata is allocated:
    one group of 260 blocks, 4 of them for the superblock, the GDT and the
    two bitmaps, 256 for the inode table. *)
Definition exhausted_params : Params :=
  {| DISK_SIZE := 260 * 1024;
     BLOCK_SIZE := 1024;
     INODE_SIZE := 128;
     BLOCKS_PER_GROUP := 260;
     INODES_PER_GROUP := 2048 |}.

Definition exhausted_geometry : Geometry :=
  {| BLOCK_COUNT := 260; GROUP_COUNT := 1; INODE_COUNT := 2048 |}.

(** The groups of that run when the scan for the root directory's block
    starts, its group 0, and its image. *)
Definition exhausted_groups : list BlockGroup :=
  from_ok []
    (let* st := before_root_scan exhausted_params exhausted_geometry in Ok (fst st)).

Definition exhausted_group0 : BlockGroup :=
  default empty_group (exhausted_groups !! 0%nat).



(** ** Decoding packed records *)

(** What a packed field leaves in the buffer at offset [off]. *)
Definition field_at (f : field) (buf : list Z) (off : nat) : Prop :=
  match f with
  | U8 v => get_u8 buf off = v /\ 0 <= v < 2 ^ 8
  | U16 v => get_u16 buf off = v /\ 0 <= v < 2 ^ 16
  | U32 v => get_u32 buf off = v /\ 0 <= v < 2 ^ 32
  | Str n s => get_bytes buf off n = take n (s ++ replicate n 0)
  end.

(** Fields packed back to back from offset [off]. *)
Fixpoint fields_at (fs : list field) (buf : list Z) (off : nat) : Prop :=
  match fs with
  | [] => True
  | f :: fs' => field_at f buf off /\ fields_at fs' buf (off + field_size f)
  end.

(** ** The group descriptor table *)

(** A group descriptor as the struct comment of source lines 75-85 lays it
    out, up to the reserved words. *)
Record ext2_group_desc : Set := mkGroupDesc {
  bg_block_bitmap : Z;
  bg_inode_bitmap : Z;
  bg_inode_table : Z;
  bg_free_blocks_count : Z;
  bg_free_inodes_count : Z;
  bg_used_dirs_count : Z;
  bg_pad : Z
}.

(** Descriptor [i] of a table, 32 bytes each. *)
Definition read_group_desc (gdt : list Z) (i : nat) : ext2_group_desc :=
  let off := (i * 32)%nat in
  {| bg_block_bitmap := get_u32 gdt off;
     bg_inode_bitmap := get_u32 gdt (off + 4);
     bg_inode_table := get_u32 gdt (off + 8);
     bg_free_blocks_count := get_u16 gdt (off + 12);
     bg_free_inodes_count := get_u16 gdt (off + 14);
     bg_used_dirs_count := get_u16 gdt (off + 16);
     bg_pad := get_u16 gdt (off + 18) |}.

(** The descriptor a group is meant to have on disk. *)
Definition desc_of_group (g : BlockGroup) : ext2_group_desc :=
  {| bg_block_bitmap := block_bitmap_blk g;
     bg_inode_bitmap := inode_bitmap_blk g;
     bg_inode_table := inode_table_blk g;
     bg_free_blocks_count := free_blocks_count g;
     bg_free_inodes_count := free_inodes_count g;
     bg_used_dirs_count := used_dirs_count g;
     bg_pad := 0 |}.

(** The fields of [g] fit the widths of format [<IIIHHHH]. *)
Definition desc_in_range (g : BlockGroup) : Prop :=
  0 <= block_bitmap_blk g < 2 ^ 32 /\
  0 <= inode_bitmap_blk g < 2 ^ 32 /\
  0 <= inode_table_blk g < 2 ^ 32 /\
  0 <= free_blocks_count g < 2 ^ 16 /\
  0 <= free_inodes_count g < 2 ^ 16 /\
  0 <= used_dirs_count g < 2 ^ 16.

(** Byte [k] of the table lies in the 20 packed bytes of one of the first
    [n] descriptors. *)
Definition in_descriptor (n k : nat) : Prop :=
  exists i, (i < n)%nat /\ (i * 32 <= k < i * 32 + 20)%nat.

(** The table of the run with the constants of the source. *)
Definition default_gdt : list Z :=
  from_ok [] (make_gdt default_params (groups default_layout)).

(** ** The superblock record *)

(** The superblock as the struct comment of source lines 18-45 lays it
    out. *)
Record ext2_superblock : Set := mkSuperblock {
  s_inodes_count : Z;
  s_blocks_count : Z;
  s_r_blocks_count : Z;
  s_free_blocks_count : Z;
  s_free_inodes_count : Z;
  s_first_data_block : Z;
  s_log_block_size : Z;
  s_log_frag_size : Z;
  s_blocks_per_group : Z;
  s_frags_per_group : Z;
  s_inodes_per_group : Z;
  s_mtime : Z;
  s_wtime : Z;
  s_mnt_count : Z;
  s_max_mnt_count : Z;
  s_magic : Z;
  s_state : Z;
  s_errors : Z;
  s_minor_rev_level : Z;
  s_lastcheck : Z;
  s_checkinterval : Z;
  s_creator_os : Z;
  s_rev_level : Z;
  s_def_resuid : Z;
  s_def_resgid : Z
}.

Definition read_superblock (sb : list Z) : ext2_superblock :=
  {| s_inodes_count := get_u32 sb 0;
     s_blocks_count := get_u32 sb 4;
     s_r_blocks_count := get_u32 sb 8;
     s_free_blocks_count := get_u32 sb 12;
     s_free_inodes_count := get_u32 sb 16;
     s_first_data_block := get_u32 sb 20;
     s_log_block_size := get_u32 sb 24;
     s_log_frag_size := get_u32 sb 28;
     s_blocks_per_group := get_u32 sb 32;
     s_frags_per_group := get_u32 sb 36;
     s_inodes_per_group := get_u32 sb 40;
     s_mtime := get_u32 sb 44;
     s_wtime := get_u32 sb 48;
     s_mnt_count := get_u16 sb 52;
     s_max_mnt_count := get_u16 sb 54;
     s_magic := get_u16 sb 56;
     s_state := get_u16 sb 58;
     s_errors := get_u16 sb 60;
     s_minor_rev_level := get_u16 sb 62;
     s_lastcheck := get_u32 sb 64;
     s_checkinterval := get_u32 sb 68;
     s_creator_os := get_u32 sb 72;
     s_rev_level := get_u32 sb 76;
     s_def_resuid := get_u16 sb 80;
     s_def_resgid := get_u16 sb 82 |}.

(** The superblock of the run with the constants of the source, for two
    clock readings. *)
Definition default_sb_data (t_m t_w : Z) : list Z :=
  from_ok [] (make_sb_data default_params default_geometry default_layout t_m t_w).

(** ** Directory blocks for any block size *)

(** The value of a field fits its width. *)
Definition field_in_range (f : field) : Prop :=
  match f with
  | U8 v => 0 <= v < 2 ^ 8
  | U16 v => 0 <= v < 2 ^ 16
  | U32 v => 0 <= v < 2 ^ 32
  | Str _ _ => True
  end.

(** The entries the root directory's block is meant to hold. *)
Definition root_block_entries (p : Params) : list (nat * dirent) :=
  [ (0%nat, mkDirent 2 12 1 EXT2_FT_DIR (bytes_of_string "."));
    (12%nat, mkDirent 2 12 2 EXT2_FT_DIR (bytes_of_string ".."));
    (24%nat, mkDirent 11 (BLOCK_SIZE p - 24) 10 EXT2_FT_DIR
               (bytes_of_string "lost+found")) ].

(** The entries the block of lost+found is meant to hold. *)
Definition lf_block_entries (p : Params) : list (nat * dirent) :=
  [ (0%nat, mkDirent 11 12 1 EXT2_FT_DIR (bytes_of_string "."));
    (12%nat, mkDirent 2 (BLOCK_SIZE p - 12) 2 EXT2_FT_DIR (bytes_of_string "..")) ].

(** ** Inode records for any constants *)

(** The fields of a directory inode record of [INODE_SIZE] bytes: mode,
    size, link count, sector count and first block; zero everywhere else. *)
Definition dir_inode_fields (p : Params) (ino : list Z) (links blk : Z) : Prop :=
  length ino = Z.to_nat (INODE_SIZE p) /\
  get_u16 ino 0 = 0x41ED /\
  get_bytes ino 2 2 = replicate 2 0 /\
  get_u32 ino 4 = BLOCK_SIZE p /\
  get_bytes ino 8 18 = replicate 18 0 /\
  get_u16 ino 26 = links /\
  get_u32 ino 28 = 2 /\
  get_bytes ino 32 8 = replicate 8 0 /\
  get_u32 ino 40 = blk /\
  get_bytes ino 44 (length ino - 44) = replicate (length ino - 44) 0.

(** ** Placement of the allocations *)

(** Blocks of the inode table of a group. *)
Definition table_blocks (p : Params) : Z :=
  Z.max 0 (INODES_PER_GROUP p * INODE_SIZE p / BLOCK_SIZE p).

(** Bits the metadata pass sets in the block bitmap of group [k]: the
    reserved ones, the two bitmaps and the inode table. *)
Definition metadata_blocks (p : Params) (k : Z) : Z :=
  reserved_blocks k + 2 + table_blocks p.

(** The first metadata block of group [k]. *)
Definition first_metadata_block (p : Params) (k : Z) : Z :=
  k * BLOCKS_PER_GROUP p + 1 + reserved_blocks k.

(** Group [k] of the list carries its own index, has its two bitmaps and
    its inode table at consecutive blocks from the start of the group, and
    has the bits of all its metadata set. *)
Definition placed (p : Params) (k : nat) (g : BlockGroup) : Prop :=
  id g = Z.of_nat k /\
  block_bitmap_blk g = first_metadata_block p (Z.of_nat k) /\
  inode_bitmap_blk g = first_metadata_block p (Z.of_nat k) + 1 /\
  inode_table_blk g = first_metadata_block p (Z.of_nat k) + 2 /\
  forall j, 0 <= j < metadata_blocks p (Z.of_nat k) ->
            test_bit (block_bitmap g) j = true.

(** A property of every group of the list, by index. *)
Definition groups_inv (P : nat -> BlockGroup -> Prop) (gs : list BlockGroup) : Prop :=
  forall k g, gs !! k = Some g -> P k g.

(** [g'] has the identity, the metadata addresses and the block bitmap of
    [g]. *)
Definition same_blocks (g g' : BlockGroup) : Prop :=
  id g' = id g /\
  block_bitmap_blk g' = block_bitmap_blk g /\
  inode_bitmap_blk g' = inode_bitmap_blk g /\
  inode_table_blk g' = inode_table_blk g /\
  block_bitmap g' = block_bitmap g.

(** A property of a group that marking an inode and counting a directory
    keep. *)
Definition inode_stable (P : nat -> BlockGroup -> Prop) : Prop :=
  (forall k g g' off, mark_inode off g = Ok g' -> P k g -> P k g') /\
  (forall k g, P k g -> P k (set_used_dirs_count g (used_dirs_count g + 1))).

(** A property of a group that every pass after the metadata loop keeps:
    the above and taking a free block. *)
Definition pass_stable (P : nat -> BlockGroup -> Prop) : Prop :=
  inode_stable P /\
  (forall k g g' i, 0 <= i -> block_taken g g' i ->
                    test_bit (block_bitmap g) i = false -> P k g -> P k g').

(** Sum of the directory counters. *)
Definition total_used_dirs (gs : list BlockGroup) : Z :=
  sumZ (used_dirs_count <$> gs).

(** What [BlockGroup(i)] creates, for any constants. *)
Definition fresh_group (p : Params) (i : Z) : BlockGroup :=
  {| id := i;
     block_bitmap_blk := 0;
     inode_bitmap_blk := 0;
     inode_table_blk := 0;
     free_blocks_count := BLOCKS_PER_GROUP p;
     free_inodes_count := INODES_PER_GROUP p;
     used_dirs_count := 0;
     block_bitmap := replicate (Z.to_nat (BLOCK_SIZE p)) 0;
     inode_bitmap := replicate (Z.to_nat (BLOCK_SIZE p)) 0 |}.

(** Group [k] of the run with the constants of the source. *)
Definition default_group_at (k : nat) : BlockGroup :=
  default empty_group (groups default_layout !! k).

(** The image holds the two bitmaps of [g] at the blocks [g] names, and
    these lie behind the superblock. *)
Definition bitmaps_in_image (f : File) (g : BlockGroup) : Prop :=
  3 <= block_bitmap_blk g /\ 3 <= inode_bitmap_blk g /\
  file_read f (block_bitmap_blk g * 1024) 1024 = Some (block_bitmap g) /\
  file_read f (inode_bitmap_blk g * 1024) 1024 = Some (inode_bitmap g).

(** ** A disk smaller than its metadata *)

(** The constants of the source with a disk of three blocks. *)
Definition small_disk_params : Params :=
  {| DISK_SIZE := 3 * 1024;
     BLOCK_SIZE := 1024;
     INODE_SIZE := 128;
     BLOCKS_PER_GROUP := 8192;
     INODES_PER_GROUP := 2048 |}.

Definition small_disk_image : File :=
  from_ok (mkFile 0 []) (mkfs small_disk_params 0 0).

(** The two bitmap blocks of [g] lie inside a file of [size] bytes. *)
Definition bitmaps_inside (p : Params) (size : Z) (g : BlockGroup) : Prop :=
  0 <= block_bitmap_blk g * BLOCK_SIZE p /\
  (block_bitmap_blk g + 1) * BLOCK_SIZE p <= size /\
  0 <= inode_bitmap_blk g * BLOCK_SIZE p /\
  (inode_bitmap_blk g + 1) * BLOCK_SIZE p <= size.

(** Both bitmaps of [g] are bytearrays of one block. *)
Definition bitmaps_wf (p : Params) (g : BlockGroup) : Prop :=
  length (block_bitmap g) = Z.to_nat (BLOCK_SIZE p) /\
  length (inode_bitmap g) = Z.to_nat (BLOCK_SIZE p) /\
  is_bytearray (block_bitmap g) /\
  is_bytearray (inode_bitmap g).

(** ** Where the writes go *)

(** Offset and length of every write, latest first. *)
Definition extents (f : File) : list (Z * Z) :=
  (fun w => (w_off w, w_len w)) <$> flog f.

(** No two writes touch a common byte. *)
Definition extents_disjoint (es : list (Z * Z)) : Prop :=
  forall i j a b, i <> j -> es !! i = Some a -> es !! j = Some b ->
    fst a + snd a <= fst b \/ fst b + snd b <= fst a.

Fixpoint extents_disjointb (es : list (Z * Z)) : bool :=
  match es with
  | [] => true
  | a :: es' =>
      forallb (fun b => (fst a + snd a <=? fst b) || (fst b + snd b <=? fst a)) es'
      && extents_disjointb es'
  end.

(** Every write lies inside the first [size] bytes. *)
Definition extents_inside (size : Z) (es : list (Z * Z)) : Prop :=
  Forall (fun a => 0 <= fst a /\ 0 < snd a /\ fst a + snd a <= size) es.

(** ** The block bitmaps and the data blocks in closed form *)

(** Group 0 has a free bit left for the root directory. *)
Definition root_found (p : Params) : bool :=
  metadata_blocks p 0 <? BLOCKS_PER_GROUP p.

(** The group of lost+found's inode, [(11 - 1) // INODES_PER_GROUP]. *)
Definition lf_group (p : Params) : Z := (lf_inode_index - 1) / INODES_PER_GROUP p.

(** Bits set in the block bitmap of group [k] when the scan for the root
    directory is over. *)
Definition level_after_root (p : Params) (k : Z) : Z :=
  metadata_blocks p k + (if (k =? 0) && root_found p then 1 else 0).

(** The group of lost+found has a free bit left. *)
Definition lf_found (p : Params) : bool :=
  level_after_root p (lf_group p) <? BLOCKS_PER_GROUP p.

(** Bits set in the block bitmap of group [k] at the end. *)
Definition final_level (p : Params) (k : Z) : Z :=
  level_after_root p k + (if (k =? lf_group p) && lf_found p then 1 else 0).

(** The data blocks the scans must record. *)
Definition expected_root_block (p : Params) : Z :=
  if root_found p then 1 + metadata_blocks p 0 else 0.

Definition expected_lf_block (p : Params) : Z :=
  if lf_found p
  then lf_group p * BLOCKS_PER_GROUP p + 1 + level_after_root p (lf_group p)
  else 0.

(** ** The inode bitmaps in closed form *)

(** In group [k], exactly the bits of the inodes of [M] are set. *)
Definition inode_marked_exactly (p : Params) (M : Z -> Prop) (k : nat)
    (g : BlockGroup) : Prop :=
  forall j, 0 <= j ->
    (test_bit (inode_bitmap g) j = true <->
     j < INODES_PER_GROUP p /\ M (Z.of_nat k * INODES_PER_GROUP p + j + 1)).

(** ** The metadata loop within a run *)

(** Blocks of the inode table, as a ceiling. *)
Definition table_blocks_ceil (p : Params) : Z :=
  (INODES_PER_GROUP p * INODE_SIZE p + BLOCK_SIZE p - 1) / BLOCK_SIZE p.

(** What the iteration of the metadata loop for group [i] does: [g] is the
    group that [BlockGroup(i)] created and [g'] the group after the
    iteration.  Before any metadata is allocated the group has its reserved
    bits set (bits 0 and 1 in group 0, none elsewhere) and the cursor stands
    at [start]; afterwards the block bitmap, the inode bitmap and the inode
    table lie at consecutive blocks from [start], exactly the bits of the
    reserved and of these blocks are set, and the free count has dropped by
    one per block. *)
Definition metadata_of_group (p : Params) (i : Z) (g g' : BlockGroup) : Prop :=
  let r := if i =? 0 then 2 else 0 in
  let start := i * BLOCKS_PER_GROUP p + 1 + r in
  let table := table_blocks_ceil p in
  BlockGroup_init p i = Ok g /\
  alloc_group_metadata p g = Ok g' /\
  (exists g0, reserve_sb_gdt p g = Ok (g0, start) /\
              marked_below (block_bitmap g0) r /\
              free_blocks_count g0 = BLOCKS_PER_GROUP p - r) /\
  start = (if i =? 0 then 3 else i * BLOCKS_PER_GROUP p + 1) /\
  id g' = i /\
  block_bitmap_blk g' = start /\
  inode_bitmap_blk g' = start + 1 /\
  inode_table_blk g' = start + 2 /\
  marked_below (block_bitmap g') (r + 1 + 1 + table) /\
  (forall blk, start <= blk < start + 1 + 1 + table ->
               test_bit (block_bitmap g') (blk - (i * BLOCKS_PER_GROUP p + 1)) = true) /\
  free_blocks_count g' = BLOCKS_PER_GROUP p - r - 1 - 1 - table.

(** [g] has the identity and the metadata addresses of [g1], and every bit
    that is set in the block bitmap of [g1]. *)
Definition metadata_kept (g1 g : BlockGroup) : Prop :=
  id g = id g1 /\
  block_bitmap_blk g = block_bitmap_blk g1 /\
  inode_bitmap_blk g = inode_bitmap_blk g1 /\
  inode_table_blk g = inode_table_blk g1 /\
  forall j, 0 <= j -> test_bit (block_bitmap g1) j = true ->
            test_bit (block_bitmap g) j = true.

(** ** The scans within a run *)

(** What the scan of group [n] of the list [gs] does; [gs'] is the list
    after it and [blk] the address it records.  Either every one of the
    first [BLOCKS_PER_GROUP] bits of the group's block bitmap is set, the
    list is left as it was and 0 is recorded; or bit [i] is the lowest unset
    bit, it is set and no other bit changes, the free-block count drops by
    one, nothing else in the group changes, and the address recorded is
    [n * BLOCKS_PER_GROUP + 1 + i]. *)
Definition first_fit_step (p : Params) (gs gs' : list BlockGroup) (n : nat) (blk : Z)
  : Prop :=
  exists g,
    gs !! n = Some g /\ id g = Z.of_nat n /\
    ((gs' = gs /\ blk = 0 /\
      forall i, 0 <= i < BLOCKS_PER_GROUP p -> test_bit (block_bitmap g) i = true) \/
     (exists i g',
        0 <= i < BLOCKS_PER_GROUP p /\
        (forall j, 0 <= j < i -> test_bit (block_bitmap g) j = true) /\
        test_bit (block_bitmap g) i = false /\
        gs' = <[n := g']> gs /\
        test_bit (block_bitmap g') i = true /\
        (forall j, 0 <= j -> j <> i ->
                   test_bit (block_bitmap g') j = test_bit (block_bitmap g) j) /\
        free_blocks_count g' = free_blocks_count g - 1 /\
        same_but_blocks g g' /\
        blk = Z.of_nat n * BLOCKS_PER_GROUP p + 1 + i)).

(** ** Constants with one inode per group *)

(** Eleven groups of one inode each, the inode filling one block: the root
    inode (inode 2) is the inode of group 1. *)
Definition one_inode_params : Params :=
  {| DISK_SIZE := 11 * 8192 * 1024;
     BLOCK_SIZE := 1024;
     INODE_SIZE := 1024;
     BLOCKS_PER_GROUP := 8192;
     INODES_PER_GROUP := 1 |}.

Definition one_inode_geometry : Geometry :=
  {| BLOCK_COUNT := 11 * 8192; GROUP_COUNT := 11; INODE_COUNT := 11 |}.

Definition one_inode_layout : Layout :=
  from_ok (mkLayout [] 0 0 0 0) (allocate one_inode_params one_inode_geometry).

(** ** A disk of half a group *)

(** The constants of the source with a disk of 4 MiB: 4096 blocks, in one
    group of 8192. *)
Definition half_group_params : Params :=
  {| DISK_SIZE := 4 * 1024 * 1024;
     BLOCK_SIZE := 1024;
     INODE_SIZE := 128;
     BLOCKS_PER_GROUP := 8192;
     INODES_PER_GROUP := 2048 |}.

Definition half_group_geometry : Geometry :=
  {| BLOCK_COUNT := 4096; GROUP_COUNT := 1; INODE_COUNT := 2048 |}.

Definition half_group_layout : Layout :=
  from_ok (mkLayout [] 0 0 0 0) (allocate half_group_params half_group_geometry).

(** ** A full bitmap *)

(** The layout of the run with [exhausted_params]. *)
Definition exhausted_layout : Layout :=
  from_ok (mkLayout [] 0 0 0 0) (allocate exhausted_params exhausted_geometry).


(** ** A bitmap with fewer bits than a group has blocks *)

(** Constants under which the metadata of group 0 fills its one-block
    bitmap, which has 8192 bits for the 8200 blocks of a group: 4 blocks
    for the superblock, the GDT and the two bitmaps, 8188 for the inode
    table. *)
Definition overfull_params : Params :=
  {| DISK_SIZE := 8200 * 1024;
     BLOCK_SIZE := 1024;
     INODE_SIZE := 128;
     BLOCKS_PER_GROUP := 8200;
     INODES_PER_GROUP := 65504 |}.

Definition overfull_geometry : Geometry :=
  {| BLOCK_COUNT := 8200; GROUP_COUNT := 1; INODE_COUNT := 65504 |}.

Definition overfull_groups : list BlockGroup :=
  from_ok []
    (let* st := before_root_scan overfull_params overfull_geometry in Ok (fst st)).

Definition overfull_group0 : BlockGroup :=
  default empty_group (overfull_groups !! 0%nat).

(** * Properties *)

(** ** The error monad *)

Lemma bind_ok {A B : Type} (m : result A) (k : A -> result B) (b : B) :
  bind m k = Ok b -> exists a, m = Ok a /\ k a = Ok b.
Proof. destruct m as [a|e]; simpl; [eauto | discriminate]. Qed.

(** [inv_bind H] splits [H : bind m k = Ok b] into [m = Ok a] and
    [k a = Ok b]. *)
Tactic Notation "inv_bind" hyp(H) :=
  let a := fresh "a" in
  let Ha := fresh "Ha" in
  apply bind_ok in H; destruct H as (a & Ha & H).

Tactic Notation "inv_bind" hyp(H) "as" simple_intropattern(a) ident(Ha) :=
  apply bind_ok in H; destruct H as (a & Ha & H).

(** ** Ranges *)

Lemma count_up_seqZ (k : Z) (n : nat) : count_up k n = seqZ k (Z.of_nat n).
Proof.
  revert k. induction n as [|n IH]; intros k; [reflexivity|].
  rewrite seqZ_cons, Nat2Z.inj_succ, Z.pred_succ by lia. simpl.
  rewrite IH. reflexivity.
Qed.

Lemma range_seqZ (n : Z) : range n = seqZ 0 n.
Proof.
  unfold range. rewrite count_up_seqZ. unfold seqZ. rewrite Nat2Z.id. reflexivity.
Qed.

Lemma range2_seqZ (a b : Z) : range2 a b = seqZ a (b - a).
Proof.
  unfold range2. rewrite count_up_seqZ. unfold seqZ. rewrite Nat2Z.id. reflexivity.
Qed.

(** ** Indexing *)

Lemma norm_index_nonneg {A : Type} (l : list A) (i : Z) (n : nat) :
  0 <= i -> norm_index l i = Ok n -> n = Z.to_nat i /\ i < Z.of_nat (length l).
Proof.
  intros Hi. unfold norm_index.
  destruct (Z.leb_spec 0 i); [|lia].
  destruct (l !! Z.to_nat i) eqn:E; [|discriminate].
  intros [= <-]. split; [reflexivity|]. apply lookup_lt_Some in E. lia.
Qed.

Lemma norm_index_in_range {A : Type} (l : list A) (i : Z) :
  0 <= i < Z.of_nat (length l) -> norm_index l i = Ok (Z.to_nat i).
Proof.
  intros Hi. unfold norm_index.
  destruct (Z.leb_spec 0 i); [|lia].
  destruct (lookup_lt_is_Some_2 l (Z.to_nat i)) as [x ->]; [lia|reflexivity].
Qed.

Lemma getitem_nonneg {A : Type} (l : list A) (i : Z) (x : A) :
  0 <= i -> getitem l i = Ok x -> l !! Z.to_nat i = Some x.
Proof.
  intros Hi H. unfold getitem in H. inv_bind H.
  apply norm_index_nonneg in Ha as [-> _]; [|assumption].
  destruct (l !! Z.to_nat i); congruence.
Qed.

Lemma getitem_lookup {A : Type} (l : list A) (i : Z) (x : A) :
  0 <= i -> l !! Z.to_nat i = Some x -> getitem l i = Ok x.
Proof.
  intros Hi H. unfold getitem.
  apply lookup_lt_Some in H as Hlt.
  rewrite norm_index_in_range by lia. simpl. rewrite H. reflexivity.
Qed.

Lemma setitem_nonneg {A : Type} (l l' : list A) (i : Z) (x : A) :
  0 <= i -> setitem l i x = Ok l' ->
  l' = <[Z.to_nat i := x]> l /\ (Z.to_nat i < length l)%nat.
Proof.
  intros Hi H. unfold setitem in H. inv_bind H.
  apply norm_index_nonneg in Ha as [-> ?]; [|assumption].
  injection H as <-. split; [reflexivity|lia].
Qed.

Lemma setitem_in_range {A : Type} (l : list A) (i : Z) (x : A) :
  0 <= i -> (Z.to_nat i < length l)%nat ->
  setitem l i x = Ok (<[Z.to_nat i := x]> l).
Proof.
  intros Hi H. unfold setitem. rewrite norm_index_in_range by lia. reflexivity.
Qed.

(** ** Bits of a byte *)

Lemma shiftl_1_pow2 (k : Z) : Z.shiftl 1 k = 2 ^ k.
Proof. apply Z.shiftl_1_l. Qed.

Lemma land_bit_zero (b k : Z) :
  0 <= k -> (Z.land b (Z.shiftl 1 k) =? 0) = negb (Z.testbit b k).
Proof.
  intros Hk. rewrite shiftl_1_pow2.
  destruct (Z.testbit b k) eqn:E; simpl.
  - apply Z.eqb_neq. intros H0.
    assert (Z.testbit (Z.land b (2 ^ k)) k = true) as H1.
    { rewrite Z.land_spec, E, Z.pow2_bits_true by assumption. reflexivity. }
    rewrite H0, Z.bits_0 in H1. discriminate.
  - apply Z.eqb_eq. apply Z.bits_inj'. intros m Hm.
    rewrite Z.land_spec, Z.bits_0, Z.pow2_bits_eqb by assumption.
    destruct (Z.eqb_spec k m) as [->|]; [rewrite E|]; apply andb_false_r || reflexivity.
Qed.

Lemma testbit_lor_bit (b k m : Z) :
  0 <= k -> 0 <= m ->
  Z.testbit (Z.lor b (Z.shiftl 1 k)) m = Z.testbit b m || (k =? m).
Proof.
  intros Hk Hm. rewrite shiftl_1_pow2, Z.lor_spec, Z.pow2_bits_eqb by assumption.
  reflexivity.
Qed.

Lemma popcount_byte_unfold (b : Z) :
  popcount_byte b =
  Z.b2z (Z.testbit b 0) + (Z.b2z (Z.testbit b 1) + (Z.b2z (Z.testbit b 2) +
  (Z.b2z (Z.testbit b 3) + (Z.b2z (Z.testbit b 4) + (Z.b2z (Z.testbit b 5) +
  (Z.b2z (Z.testbit b 6) + (Z.b2z (Z.testbit b 7) + 0))))))).
Proof. reflexivity. Qed.

Lemma popcount_byte_lor (b k : Z) :
  0 <= k < 8 -> Z.testbit b k = false ->
  popcount_byte (Z.lor b (Z.shiftl 1 k)) = popcount_byte b + 1.
Proof.
  intros Hk Hb. rewrite !popcount_byte_unfold.
  rewrite !testbit_lor_bit by lia.
  assert (k = 0 \/ k = 1 \/ k = 2 \/ k = 3 \/ k = 4 \/ k = 5 \/ k = 6 \/ k = 7)
    as Hcases by lia.
  destruct Hcases as [->|[->|[->|[->|[->|[->|[->| ->]]]]]]];
    rewrite Hb; simpl; rewrite ?orb_false_r; lia.
Qed.

Lemma lor_bit_is_byte (b k : Z) :
  0 <= b < 256 -> 0 <= k < 8 -> 0 <= Z.lor b (Z.shiftl 1 k) < 256.
Proof.
  intros Hb Hk.
  assert (0 <= Z.lor b (Z.shiftl 1 k)) as Hnn.
  { apply Z.lor_nonneg. rewrite shiftl_1_pow2. split; [lia|]. apply Z.pow_nonneg. lia. }
  change 256 with (2 ^ 8).
  apply Z.bounded_iff_bits_nonneg'; [lia|assumption|].
  intros l Hl. rewrite testbit_lor_bit by lia.
  assert (Z.testbit b l = false) as ->.
  { apply (Z.bounded_iff_bits_nonneg' 8 b); [lia|lia|exact Hb|lia]. }
  simpl. apply Z.eqb_neq. lia.
Qed.

(** ** Bits of a bitmap *)

Lemma test_bit_testbit (bm : list Z) (i : Z) :
  0 <= i ->
  test_bit bm i = Z.testbit (default 0 (bm !! Z.to_nat (i / 8))) (i mod 8).
Proof.
  intros Hi. unfold test_bit.
  rewrite land_bit_zero by (apply Z.mod_pos_bound; lia).
  apply negb_involutive.
Qed.

Lemma test_bit_replicate_0 (n : nat) (i : Z) : test_bit (replicate n 0) i = false.
Proof.
  unfold test_bit.
  destruct (replicate n 0 !! Z.to_nat (i / 8)) as [b|] eqn:E; simpl.
  - apply lookup_replicate in E as [-> _]. reflexivity.
  - reflexivity.
Qed.

Lemma sumZ_fmap_insert {A : Type} (f : A -> Z) (l : list A) (n : nat) (a v : A) :
  l !! n = Some a ->
  sumZ (f <$> <[n := v]> l) = sumZ (f <$> l) - f a + f v.
Proof.
  revert n. induction l as [|x l IH]; intros [|n] H; try discriminate.
  - injection H as ->. unfold sumZ. simpl. lia.
  - specialize (IH n H). unfold sumZ, fmap in *. simpl in *. lia.
Qed.

Lemma count_set_replicate_0 (n : nat) : count_set (replicate n 0) = 0.
Proof.
  induction n as [|n IH]; [reflexivity|].
  unfold count_set, sumZ, fmap in *. simpl in *. rewrite IH. reflexivity.
Qed.

(** What [buf[i // 8] |= (1 << (i % 8))] does when it does not raise. *)
Lemma ior_bit_inv (bm bm' : list Z) (i : Z) :
  0 <= i ->
  ior_byte bm (i / 8) (Z.shiftl 1 (i mod 8)) = Ok bm' ->
  exists b, bm !! Z.to_nat (i / 8) = Some b /\
            bm' = <[Z.to_nat (i / 8) := Z.lor b (Z.shiftl 1 (i mod 8))]> bm.
Proof.
  intros Hi H. unfold ior_byte in H. inv_bind H.
  assert (0 <= i / 8) as Hq by (apply Z.div_pos; lia).
  apply getitem_nonneg in Ha; [|assumption].
  exists a. split; [assumption|].
  destruct (_ && _) in H; [|discriminate].
  apply setitem_nonneg in H as [-> _]; [reflexivity|assumption].
Qed.

Lemma ior_bit_length (bm bm' : list Z) (i : Z) :
  0 <= i ->
  ior_byte bm (i / 8) (Z.shiftl 1 (i mod 8)) = Ok bm' -> length bm' = length bm.
Proof.
  intros Hi H. apply ior_bit_inv in H as (b & _ & ->); [|assumption].
  apply length_insert.
Qed.

Lemma ior_bit_test (bm bm' : list Z) (i j : Z) :
  0 <= i -> 0 <= j ->
  ior_byte bm (i / 8) (Z.shiftl 1 (i mod 8)) = Ok bm' ->
  test_bit bm' j = test_bit bm j || (i =? j).
Proof.
  intros Hi Hj H. apply ior_bit_inv in H as (b & Hb & ->); [|assumption].
  rewrite !test_bit_testbit by assumption.
  assert (0 <= i / 8 /\ 0 <= j / 8) as [? ?] by (split; apply Z.div_pos; lia).
  assert (0 <= i mod 8 < 8 /\ 0 <= j mod 8 < 8) as [? ?]
    by (split; apply Z.mod_pos_bound; lia).
  destruct (decide (i / 8 = j / 8)) as [Heq|Hne].
  - rewrite <- Heq. rewrite list_lookup_insert_eq by (eapply lookup_lt_Some; eassumption).
    rewrite Hb. simpl. rewrite testbit_lor_bit by lia. f_equal.
    destruct (Z.eqb_spec (i mod 8) (j mod 8)) as [Hm|Hm];
      destruct (Z.eqb_spec i j) as [Hij|Hij]; try reflexivity.
    + exfalso. apply Hij.
      rewrite (Z.div_mod i 8), (Z.div_mod j 8) by lia. lia.
    + exfalso. apply Hm. congruence.
  - rewrite list_lookup_insert_ne by lia.
    destruct (Z.eqb_spec i j) as [->|_]; [congruence|]. rewrite orb_false_r. reflexivity.
Qed.

Lemma ior_bit_count (bm bm' : list Z) (i : Z) :
  0 <= i ->
  ior_byte bm (i / 8) (Z.shiftl 1 (i mod 8)) = Ok bm' ->
  test_bit bm i = false ->
  count_set bm' = count_set bm + 1.
Proof.
  intros Hi H Hfree. apply ior_bit_inv in H as (b & Hb & ->); [|assumption].
  unfold count_set. rewrite (sumZ_fmap_insert _ _ _ b) by assumption.
  rewrite test_bit_testbit, Hb in Hfree by assumption. simpl in Hfree.
  rewrite popcount_byte_lor; [lia| |assumption].
  apply Z.mod_pos_bound. lia.
Qed.

Lemma ior_bit_succeeds (bm : list Z) (i : Z) :
  is_bytearray bm -> 0 <= i -> i / 8 < Z.of_nat (length bm) ->
  exists bm', ior_byte bm (i / 8) (Z.shiftl 1 (i mod 8)) = Ok bm' /\ is_bytearray bm'.
Proof.
  intros Hbm Hi Hlen.
  assert (0 <= i / 8) as Hq by (apply Z.div_pos; lia).
  destruct (lookup_lt_is_Some_2 bm (Z.to_nat (i / 8))) as [b Hb]; [lia|].
  assert (0 <= b < 256) as Hbyte.
  { eapply (proj1 (Forall_lookup _ bm)) in Hbm; eassumption. }
  pose proof (lor_bit_is_byte b (i mod 8) Hbyte (Z.mod_pos_bound i 8 ltac:(lia))) as Hv.
  exists (<[Z.to_nat (i / 8) := Z.lor b (Z.shiftl 1 (i mod 8))]> bm). split.
  - unfold ior_byte. rewrite (getitem_lookup _ _ b) by assumption. simpl.
    destruct (Z.leb_spec 0 (Z.lor b (Z.shiftl 1 (i mod 8)))); [|lia].
    destruct (Z.ltb_spec (Z.lor b (Z.shiftl 1 (i mod 8))) 256); [|lia]. simpl.
    apply setitem_in_range; [assumption|lia].
  - apply Forall_insert; assumption.
Qed.

(** ** Marking blocks and inodes *)

Lemma getitem_test_bit (bm : list Z) (i b : Z) :
  0 <= i -> getitem bm (i / 8) = Ok b ->
  test_bit bm i = negb (Z.land b (Z.shiftl 1 (i mod 8)) =? 0).
Proof.
  intros Hi H. apply getitem_nonneg in H; [|apply Z.div_pos; lia].
  unfold test_bit. rewrite H. reflexivity.
Qed.

Lemma mark_block_inv (g g' : BlockGroup) (rel : Z) :
  mark_block g rel = Ok g' ->
  exists bm, ior_byte (block_bitmap g) (rel / 8) (Z.shiftl 1 (rel mod 8)) = Ok bm /\
             g' = set_free_blocks_count (set_block_bitmap g bm) (free_blocks_count g - 1).
Proof.
  intros H. unfold mark_block in H. inv_bind H. injection H as <-. eauto.
Qed.

Lemma mark_inode_inv (g g' : BlockGroup) (off : Z) :
  mark_inode off g = Ok g' ->
  exists bm, ior_byte (inode_bitmap g) (off / 8) (Z.shiftl 1 (off mod 8)) = Ok bm /\
             g' = set_free_inodes_count (set_inode_bitmap g bm) (free_inodes_count g - 1).
Proof.
  intros H. unfold mark_inode in H. inv_bind H. injection H as <-. eauto.
Qed.

Lemma mark_inode_consistent (p : Params) (g g' : BlockGroup) (off : Z) :
  0 <= off -> mark_inode off g = Ok g' ->
  test_bit (inode_bitmap g) off = false ->
  inodes_consistent p g -> inodes_consistent p g'.
Proof.
  intros Hoff H Hfree Hc. apply mark_inode_inv in H as (bm & Hbm & ->).
  unfold inodes_consistent in *. simpl.
  rewrite (ior_bit_count _ _ _ Hoff Hbm Hfree). lia.
Qed.

(** ** The first-fit scan *)

Lemma test_bit_true_lookup (bm : list Z) (i : Z) :
  test_bit bm i = true -> is_Some (bm !! Z.to_nat (i / 8)).
Proof.
  unfold test_bit. destruct (bm !! Z.to_nat (i / 8)) as [b|]; [eauto|].
  simpl. discriminate.
Qed.

(** The scan skips set bits. *)
Lemma first_fit_skip (p : Params) (g : BlockGroup) (blk k len : Z) (rest : list Z) :
  0 <= k -> 0 <= len ->
  (forall j, k <= j < k + len -> test_bit (block_bitmap g) j = true) ->
  first_fit p g blk (seqZ k len ++ rest) = first_fit p g blk rest.
Proof.
  intros Hk Hlen. rewrite <- (Z2Nat.id len Hlen). clear Hlen.
  generalize (Z.to_nat len) as n. clear len. intros n. revert k Hk.
  induction n as [|n IH]; intros k Hk Hset.
  - reflexivity.
  - rewrite seqZ_cons by lia. rewrite Nat2Z.inj_succ, Z.pred_succ in *. simpl.
    pose proof (Hset k ltac:(lia)) as Hk_set.
    destruct (test_bit_true_lookup _ _ Hk_set) as [b Hb].
    assert (getitem (block_bitmap g) (k / 8) = Ok b) as Hget.
    { apply getitem_lookup; [apply Z.div_pos; lia|assumption]. }
    rewrite Hget. simpl.
    rewrite (getitem_test_bit _ _ b Hk Hget) in Hk_set.
    apply negb_true_iff in Hk_set. rewrite Hk_set.
    apply IH; [lia|intros j Hj; apply Hset; lia].
Qed.

(** The scan stops at an unset bit and takes it. *)
Lemma first_fit_take (p : Params) (g : BlockGroup) (blk i : Z) (rest : list Z) :
  is_bytearray (block_bitmap g) ->
  0 <= i -> i / 8 < Z.of_nat (length (block_bitmap g)) ->
  test_bit (block_bitmap g) i = false ->
  exists g', first_fit p g blk (i :: rest) = Ok (g', id g * BLOCKS_PER_GROUP p + 1 + i) /\
             block_taken g g' i.
Proof.
  intros Hbm Hi Hlen Hfree.
  destruct (ior_bit_succeeds _ _ Hbm Hi Hlen) as (bm & Hior & _).
  pose proof Hior as Hinv. apply ior_bit_inv in Hinv as (b & Hb & _); [|assumption].
  assert (getitem (block_bitmap g) (i / 8) = Ok b) as Hget.
  { apply getitem_lookup; [apply Z.div_pos; lia|assumption]. }
  rewrite (getitem_test_bit _ _ b Hi Hget) in Hfree. apply negb_false_iff in Hfree.
  eexists. split.
  - simpl. rewrite Hget. simpl. rewrite Hfree, Hior. simpl. reflexivity.
  - exists bm. split; [assumption|reflexivity].
Qed.

Lemma block_taken_spec (p : Params) (g g' : BlockGroup) (i : Z) :
  0 <= i -> block_taken g g' i -> test_bit (block_bitmap g) i = false ->
  free_blocks_count g' = free_blocks_count g - 1 /\
  test_bit (block_bitmap g') i = true /\
  (forall j, 0 <= j -> j <> i ->
             test_bit (block_bitmap g') j = test_bit (block_bitmap g) j) /\
  count_set (block_bitmap g') = count_set (block_bitmap g) + 1 /\
  id g' = id g /\ inode_bitmap g' = inode_bitmap g /\
  free_inodes_count g' = free_inodes_count g /\
  used_dirs_count g' = used_dirs_count g /\
  block_bitmap_blk g' = block_bitmap_blk g /\
  inode_bitmap_blk g' = inode_bitmap_blk g /\
  inode_table_blk g' = inode_table_blk g.
Proof.
  intros Hi (bm & Hior & ->) Hfree. simpl.
  split; [reflexivity|]. split; [|split; [|split]].
  - rewrite (ior_bit_test _ _ i i Hi Hi Hior), Z.eqb_refl. apply orb_true_r.
  - intros j Hj Hne. rewrite (ior_bit_test _ _ i j Hi Hj Hior).
    destruct (Z.eqb_spec i j); [congruence|apply orb_false_r].
  - apply (ior_bit_count _ _ _ Hi Hior Hfree).
  - repeat split.
Qed.

(** Whatever the scan returns, it either left the group alone or took one
    bit that it had read as unset. *)
Lemma first_fit_inv (p : Params) (g g' : BlockGroup) (blk b : Z) (scan : list Z) :
  Forall (fun i => 0 <= i) scan ->
  first_fit p g blk scan = Ok (g', b) ->
  (g' = g /\ b = blk) \/
  (exists i, i ∈ scan /\ test_bit (block_bitmap g) i = false /\ block_taken g g' i /\
             b = id g * BLOCKS_PER_GROUP p + 1 + i).
Proof.
  induction 1 as [|i scan Hi Hscan IH]; simpl; intros H.
  - injection H as <- <-. left. split; reflexivity.
  - inv_bind H.
    pose proof (getitem_test_bit _ _ _ Hi Ha) as Htest.
    destruct (Z.land a (Z.shiftl 1 (i mod 8)) =? 0) eqn:E.
    + inv_bind H. injection H as <- <-. right. exists i.
      split; [apply list_elem_of_here|]. split; [rewrite Htest; reflexivity|].
      split; [|reflexivity]. exists a0. split; [assumption|reflexivity].
    + destruct (IH H) as [?|(j & Hj & ?)]; [left; assumption|].
      right. exists j. split; [apply list_elem_of_further; assumption|assumption].
Qed.


Lemma getitem_setitem_ok {A : Type} (l : list A) (i : Z) (x y : A) :
  getitem l i = Ok x -> exists l', setitem l i y = Ok l'.
Proof.
  unfold getitem, setitem. intros H. inv_bind H. rewrite Ha. simpl. eauto.
Qed.

Lemma range_split (n i : Z) :
  0 <= i < n -> range n = seqZ 0 i ++ i :: seqZ (Z.succ i) (n - i - 1).
Proof.
  intros Hi. rewrite range_seqZ.
  replace n with (i + (n - i)) at 1 by lia.
  rewrite seqZ_app by lia. f_equal. simpl.
  rewrite seqZ_cons by lia. f_equal; lia.
Qed.

(** The scan of one group (the loops at lines 191-196 and 208-213).  When
    bit [i] is the lowest unset bit of the group's block bitmap and lies
    below [BLOCKS_PER_GROUP], the scan stops there: that bit is set and no
    other bit changes, the group's free-block count drops by one, and the
    block address recorded is [id * BLOCKS_PER_GROUP + 1 + i]. *)
Lemma alloc_data_block_lowest (p : Params) (gs : list BlockGroup) (idx : Z)
    (g : BlockGroup) (i : Z) :
  getitem gs idx = Ok g ->
  is_bytearray (block_bitmap g) ->
  0 <= i < BLOCKS_PER_GROUP p ->
  i / 8 < Z.of_nat (length (block_bitmap g)) ->
  (forall j, 0 <= j < i -> test_bit (block_bitmap g) j = true) ->
  test_bit (block_bitmap g) i = false ->
  exists g' gs',
    alloc_data_block p gs idx = Ok (gs', id g * BLOCKS_PER_GROUP p + 1 + i) /\
    setitem gs idx g' = Ok gs' /\
    test_bit (block_bitmap g') i = true /\
    (forall j, 0 <= j -> j <> i ->
               test_bit (block_bitmap g') j = test_bit (block_bitmap g) j) /\
    free_blocks_count g' = free_blocks_count g - 1 /\
    id g' = id g /\ inode_bitmap g' = inode_bitmap g /\
    free_inodes_count g' = free_inodes_count g.
Proof.
  intros Hget Hbm Hi Hlen Hbelow Hfree.
  destruct (first_fit_take p g 0 i (seqZ (Z.succ i) (BLOCKS_PER_GROUP p - i - 1))
              Hbm (proj1 Hi) Hlen Hfree) as (g' & Hscan & Htaken).
  destruct (getitem_setitem_ok gs idx g g' Hget) as [gs' Hset].
  destruct (block_taken_spec p g g' i (proj1 Hi) Htaken Hfree)
    as (Hfr & Hbit & Hother & _ & Hid & Hib & Hfi & _).
  exists g', gs'. repeat split; try assumption.
  unfold alloc_data_block. rewrite Hget. simpl.
  rewrite (range_split _ i Hi), first_fit_skip by (lia || (intros; apply Hbelow; lia)).
  rewrite Hscan. simpl. rewrite Hset. reflexivity.
Qed.


(** Both data blocks of the final layout come from this scan: the root
    directory's from [groups[0]], lost+found's from the group of inode 11. *)
Lemma allocate_data_blocks (p : Params) (geo : Geometry) (lay : Layout) :
  allocate p geo = Ok lay ->
  exists gs ridx gs2 gs3,
    before_root_scan p geo = Ok (gs, ridx) /\
    alloc_data_block p gs 0 = Ok (gs2, root_data_block lay) /\
    alloc_dir_inode p gs2 lf_inode_index = Ok (gs3, lf_group_idx lay) /\
    alloc_data_block p gs3 (lf_group_idx lay) = Ok (groups lay, lf_data_block lay).
Proof.
  unfold allocate, before_lf_scan. intros H.
  inv_bind H as st Hst. destruct st as [[[gs3 ridx] rblk] lidx].
  inv_bind H as st2 Hst2. destruct st2 as [gs4 lblk]. injection H as <-. simpl.
  inv_bind Hst as st0 Hst0. destruct st0 as [gs ridx0].
  inv_bind Hst as st1 Hst1. destruct st1 as [gs2 rblk0].
  inv_bind Hst as st3 Hst3. destruct st3 as [gs3' lidx0].
  injection Hst as -> -> -> ->.
  exists gs, ridx, gs2, gs3. repeat split; assumption.
Qed.

(** The root inode lives in group 0 as soon as a group holds two inodes. *)
Lemma root_group_is_group_0 (p : Params) (gs gs' : list BlockGroup) (idx : Z) :
  2 <= INODES_PER_GROUP p ->
  alloc_dir_inode p gs root_inode_index = Ok (gs', idx) -> idx = 0.
Proof.
  intros Hipg H. unfold alloc_dir_inode, floordiv, root_inode_index in H.
  destruct (Z.eqb_spec (INODES_PER_GROUP p) 0); [lia|]. simpl in H.
  do 3 inv_bind H. injection H as _ <-. apply Z.div_small. lia.
Qed.

(** ** Loops *)

Lemma mapM_inv {A B : Type} (f : A -> result B) (l : list A) (l' : list B) :
  mapM f l = Ok l' -> Forall2 (fun x y => f x = Ok y) l l'.
Proof.
  revert l'. induction l as [|x l IH]; simpl; intros l' H.
  - injection H as <-. constructor.
  - inv_bind H. inv_bind H. injection H as <-. constructor; auto.
Qed.

Lemma mapM_length {A B : Type} (f : A -> result B) (l : list A) (l' : list B) :
  mapM f l = Ok l' -> length l' = length l.
Proof. intros H. apply mapM_inv in H. symmetry. eapply Forall2_length, H. Qed.

(** An invariant of the loop body is an invariant of the loop. *)
Lemma foldM_invariant {A S : Type} (f : S -> A -> result S) (I : S -> Prop)
    (l : list A) (s s' : S) :
  (forall s x s', x ∈ l -> I s -> f s x = Ok s' -> I s') ->
  I s -> foldM f s l = Ok s' -> I s'.
Proof.
  revert s. induction l as [|x l IH]; simpl; intros s Hstep Hs H.
  - injection H as <-. assumption.
  - inv_bind H. apply (IH a); [|eapply Hstep; eauto using list_elem_of_here|assumption].
    intros s0 y s1 Hy. apply Hstep. apply list_elem_of_further. assumption.
Qed.

(** ** Groups in the list *)

Lemma getitem_inv {A : Type} (l : list A) (i : Z) (x : A) :
  getitem l i = Ok x ->
  exists n, norm_index l i = Ok n /\ l !! n = Some x.
Proof.
  unfold getitem. intros H. inv_bind H. exists a. split; [assumption|].
  destruct (l !! a); [congruence|discriminate].
Qed.

Lemma update_group_inv (gs gs' : list BlockGroup) (i : Z)
    (f : BlockGroup -> result BlockGroup) :
  update_group gs i f = Ok gs' ->
  exists n g g', gs !! n = Some g /\ f g = Ok g' /\ gs' = <[n := g']> gs /\
                 (0 <= i -> n = Z.to_nat i).
Proof.
  unfold update_group. intros H. inv_bind H. inv_bind H.
  apply getitem_inv in Ha as (n & Hn & Hg).
  unfold setitem in H. rewrite Hn in H. simpl in H. injection H as <-.
  exists n, a, a0. repeat split; try assumption.
  intros Hi. apply norm_index_nonneg in Hn as [-> _]; [reflexivity|assumption].
Qed.

Lemma alloc_data_block_inv (p : Params) (gs gs' : list BlockGroup) (idx blk : Z) :
  alloc_data_block p gs idx = Ok (gs', blk) ->
  exists n g g', gs !! n = Some g /\ gs' = <[n := g']> gs /\
    ((g' = g /\ blk = 0) \/
     (exists i, 0 <= i < BLOCKS_PER_GROUP p /\
                test_bit (block_bitmap g) i = false /\ block_taken g g' i /\
                blk = id g * BLOCKS_PER_GROUP p + 1 + i)).
Proof.
  unfold alloc_data_block. intros H. inv_bind H. inv_bind H.
  destruct a0 as [g' b]. inv_bind H. injection H as <- <-.
  apply getitem_inv in Ha as (n & Hn & Hg).
  unfold setitem in Ha1. rewrite Hn in Ha1. simpl in Ha1. injection Ha1 as <-.
  exists n, a, g'. split; [assumption|]. split; [reflexivity|].
  apply first_fit_inv in Ha0.
  - destruct Ha0 as [?|(i & Hi & ?)]; [left; assumption|].
    right. exists i. split; [|assumption].
    rewrite range_seqZ in Hi. apply elem_of_seqZ in Hi. lia.
  - apply Forall_forall. intros i Hi. rewrite range_seqZ in Hi.
    apply elem_of_seqZ in Hi. lia.
Qed.

(** ** Metadata allocation *)

Lemma marked_below_replicate_0 (n : nat) : marked_below (replicate n 0) 0.
Proof.
  intros j Hj. rewrite test_bit_replicate_0. symmetry. apply Z.ltb_ge. assumption.
Qed.

Lemma ior_bit_marked_below (bm bm' : list Z) (m : Z) :
  0 <= m -> marked_below bm m ->
  ior_byte bm (m / 8) (Z.shiftl 1 (m mod 8)) = Ok bm' ->
  marked_below bm' (m + 1) /\ count_set bm' = count_set bm + 1.
Proof.
  intros Hm Hbelow H. split.
  - intros j Hj. rewrite (ior_bit_test _ _ m j Hm Hj H), (Hbelow j Hj).
    destruct (Z.ltb_spec j m), (Z.eqb_spec m j), (Z.ltb_spec j (m + 1));
      simpl; reflexivity || lia.
  - apply (ior_bit_count _ _ m Hm H). rewrite (Hbelow m Hm). apply Z.ltb_irrefl.
Qed.

Lemma mark_block_next (g g' : BlockGroup) (m : Z) :
  0 <= m -> marked_below (block_bitmap g) m -> mark_block g m = Ok g' ->
  marked_below (block_bitmap g') (m + 1) /\
  count_set (block_bitmap g') = count_set (block_bitmap g) + 1 /\
  free_blocks_count g' = free_blocks_count g - 1 /\
  same_but_blocks g g'.
Proof.
  intros Hm Hbelow H. apply mark_block_inv in H as (bm & Hbm & ->).
  destruct (ior_bit_marked_below _ _ _ Hm Hbelow Hbm) as [? ?].
  simpl. repeat split; assumption.
Qed.

Lemma mark_block_ok (g : BlockGroup) (m : Z) :
  is_bytearray (block_bitmap g) -> 0 <= m ->
  m < 8 * Z.of_nat (length (block_bitmap g)) ->
  exists g', mark_block g m = Ok g' /\ is_bytearray (block_bitmap g') /\
             length (block_bitmap g') = length (block_bitmap g).
Proof.
  intros Hbm Hm Hlen.
  assert (m / 8 < Z.of_nat (length (block_bitmap g))) as Hq
    by (apply Z.div_lt_upper_bound; lia).
  destruct (ior_bit_succeeds _ _ Hbm Hm Hq) as (bm & Hior & Hbm').
  unfold mark_block. rewrite Hior. simpl. eexists. split; [reflexivity|].
  simpl. split; [assumption|]. eapply ior_bit_length; eassumption.
Qed.

(** The loop over the inode table blocks, started at iteration [k]. *)
Lemma mark_table_loop_inv (p : Params) (cur : Z) (n : nat) :
  forall (k : Z) (g g' : BlockGroup),
  let rel0 := cur - (id g * BLOCKS_PER_GROUP p + 1) in
  0 <= rel0 + k ->
  marked_below (block_bitmap g) (rel0 + k) ->
  foldM (mark_table_block p cur) g (seqZ k (Z.of_nat n)) = Ok g' ->
  marked_below (block_bitmap g') (rel0 + k + Z.of_nat n) /\
  count_set (block_bitmap g') = count_set (block_bitmap g) + Z.of_nat n /\
  free_blocks_count g' = free_blocks_count g - Z.of_nat n /\
  same_but_blocks g g'.
Proof.
  induction n as [|n IH]; intros k g g' rel0 Hrel Hbelow H.
  - simpl in H. injection H as <-. rewrite !Z.add_0_r, Z.sub_0_r.
    unfold same_but_blocks. repeat split; assumption.
  - rewrite seqZ_cons, Nat2Z.inj_succ, Z.pred_succ in H by lia. simpl in H.
    inv_bind H. unfold mark_table_block in Ha.
    replace (cur + k - (id g * BLOCKS_PER_GROUP p + 1)) with (rel0 + k) in Ha
      by (unfold rel0; lia).
    destruct (mark_block_next _ _ _ Hrel Hbelow Ha) as (Hb & Hc & Hf & Hs).
    pose proof Hs as (Hid & _).
    specialize (IH (Z.succ k) a g'). simpl in IH. rewrite Hid in IH.
    fold rel0 in IH.
    destruct IH as (Hb' & Hc' & Hf' & Hs'); [lia| |assumption|].
    { replace (rel0 + Z.succ k) with (rel0 + k + 1) by lia. assumption. }
    split; [|split; [|split]].
    + replace (rel0 + k + Z.of_nat (S n)) with (rel0 + Z.succ k + Z.of_nat n)
        by lia. assumption.
    + lia.
    + lia.
    + unfold same_but_blocks in *. intuition congruence.
Qed.

Lemma mark_table_loop_ok (p : Params) (cur : Z) (n : nat) :
  forall (k : Z) (g : BlockGroup),
  let rel0 := cur - (id g * BLOCKS_PER_GROUP p + 1) in
  is_bytearray (block_bitmap g) ->
  0 <= rel0 + k ->
  rel0 + k + Z.of_nat n <= 8 * Z.of_nat (length (block_bitmap g)) ->
  exists g', foldM (mark_table_block p cur) g (seqZ k (Z.of_nat n)) = Ok g'.
Proof.
  induction n as [|n IH]; intros k g rel0 Hbm Hrel Hlen.
  - simpl. eauto.
  - rewrite seqZ_cons, Nat2Z.inj_succ, Z.pred_succ by lia. simpl.
    unfold mark_table_block at 1.
    replace (cur + k - (id g * BLOCKS_PER_GROUP p + 1)) with (rel0 + k)
      by (unfold rel0; lia).
    destruct (mark_block_ok g (rel0 + k) Hbm Hrel ltac:(lia)) as (g1 & Hg1 & Hbm1 & Hl1).
    rewrite Hg1. simpl.
    pose proof Hg1 as Hinv. apply mark_block_inv in Hinv as (bm & _ & Heq).
    assert (id g1 = id g) as Hid by (rewrite Heq; reflexivity).
    specialize (IH (Z.succ k) g1). simpl in IH. rewrite Hid, Hl1 in IH.
    apply IH; [assumption|fold rel0; lia|fold rel0; lia].
Qed.

Lemma range_of_nat (n : Z) : range n = seqZ 0 (Z.of_nat (Z.to_nat n)).
Proof. rewrite range_seqZ. unfold seqZ. rewrite Nat2Z.id. reflexivity. Qed.

Lemma reserve_sb_gdt_inv (p : Params) (g g0 : BlockGroup) (cur : Z) :
  marked_below (block_bitmap g) 0 ->
  reserve_sb_gdt p g = Ok (g0, cur) ->
  cur = id g * BLOCKS_PER_GROUP p + 1 + reserved_blocks (id g) /\
  marked_below (block_bitmap g0) (reserved_blocks (id g)) /\
  count_set (block_bitmap g0) = count_set (block_bitmap g) + reserved_blocks (id g) /\
  free_blocks_count g0 = free_blocks_count g - reserved_blocks (id g) /\
  same_but_blocks g g0.
Proof.
  intros Hbelow H. unfold reserve_sb_gdt, reserved_blocks in *.
  destruct (Z.eqb_spec (id g) 0) as [Hid|Hid].
  - inv_bind H. inv_bind H. injection H as <- <-.
    destruct (ior_bit_marked_below (block_bitmap g) a 0 ltac:(lia) Hbelow Ha)
      as [Hb1 Hc1].
    destruct (ior_bit_marked_below a a0 1 ltac:(lia) Hb1 Ha0) as [Hb2 Hc2].
    simpl. rewrite Hid. unfold same_but_blocks. simpl.
    repeat split; try assumption; lia.
  - injection H as <- <-. unfold same_but_blocks.
    repeat split; try assumption; lia.
Qed.

Lemma reserve_sb_gdt_ok (p : Params) (g : BlockGroup) :
  is_bytearray (block_bitmap g) -> (0 < length (block_bitmap g))%nat ->
  exists g0, reserve_sb_gdt p g
               = Ok (g0, id g * BLOCKS_PER_GROUP p + 1 + reserved_blocks (id g)) /\
             is_bytearray (block_bitmap g0) /\
             length (block_bitmap g0) = length (block_bitmap g) /\
             id g0 = id g.
Proof.
  intros Hbm Hlen. unfold reserve_sb_gdt, reserved_blocks.
  destruct (Z.eqb_spec (id g) 0) as [Hid|Hid];
    [|rewrite Z.add_0_r; eexists; repeat split; assumption].
  destruct (ior_bit_succeeds (block_bitmap g) 0 Hbm) as (bm1 & H1 & Hbm1);
    [lia|change (0 / 8) with 0; lia|].
  pose proof (ior_bit_length _ _ 0 ltac:(lia) H1) as Hl1.
  destruct (ior_bit_succeeds bm1 1 Hbm1) as (bm2 & H2 & Hbm2);
    [lia|change (1 / 8) with 0; lia|].
  pose proof (ior_bit_length _ _ 1 ltac:(lia) H2) as Hl2.
  change (ior_byte (block_bitmap g) 0 (Z.shiftl 1 0) = Ok bm1) in H1.
  change (ior_byte bm1 0 (Z.shiftl 1 1) = Ok bm2) in H2.
  rewrite H1. simpl. rewrite H2. simpl. rewrite Hid.
  eexists. split; [reflexivity|]. simpl. repeat split; [assumption|congruence|congruence].
Qed.

(** What one iteration of the metadata loop leaves in a group whose block
    bitmap was empty. *)
Lemma alloc_group_metadata_inv (p : Params) (g g' : BlockGroup) :
  marked_below (block_bitmap g) 0 ->
  alloc_group_metadata p g = Ok g' ->
  exists n, floordiv (INODES_PER_GROUP p * INODE_SIZE p) (BLOCK_SIZE p) = Ok n /\
    let first := id g * BLOCKS_PER_GROUP p + 1 + reserved_blocks (id g) in
    let total := reserved_blocks (id g) + 1 + 1 + Z.max 0 n in
    block_bitmap_blk g' = first /\
    inode_bitmap_blk g' = first + 1 /\
    inode_table_blk g' = first + 2 /\
    marked_below (block_bitmap g') total /\
    count_set (block_bitmap g') = count_set (block_bitmap g) + total /\
    free_blocks_count g' = free_blocks_count g - total /\
    id g' = id g /\ inode_bitmap g' = inode_bitmap g /\
    free_inodes_count g' = free_inodes_count g /\
    used_dirs_count g' = used_dirs_count g.
Proof.
  intros Hbelow H. unfold alloc_group_metadata in H.
  inv_bind H. destruct a as [g0 cur].
  destruct (reserve_sb_gdt_inv _ _ _ _ Hbelow Ha) as (Hcur & Hb0 & Hc0 & Hf0 & Hs0).
  pose proof Hs0 as (Hid0 & _).
  set (r := reserved_blocks (id g)) in *.
  assert (0 <= r) as Hr by (unfold r, reserved_blocks; destruct (id g =? 0); lia).
  inv_bind H. simpl in Ha0. rewrite Hid0 in Ha0.
  replace (cur - (id g * BLOCKS_PER_GROUP p + 1)) with r in Ha0 by lia.
  destruct (mark_block_next (set_block_bitmap_blk g0 cur) a r Hr Hb0 Ha0)
    as (Hb1 & Hc1 & Hf1 & Hs1).
  simpl in Hc1, Hf1. pose proof Hs1 as (Hid1 & Hbb1 & _). simpl in Hid1, Hbb1.
  inv_bind H. simpl in Ha1. rewrite Hid1, Hid0 in Ha1.
  replace (cur + 1 - (id g * BLOCKS_PER_GROUP p + 1)) with (r + 1) in Ha1 by lia.
  destruct (mark_block_next (set_inode_bitmap_blk a (cur + 1)) a0 (r + 1)
              ltac:(lia) Hb1 Ha1) as (Hb2 & Hc2 & Hf2 & Hs2).
  simpl in Hc2, Hf2. pose proof Hs2 as (Hid2 & Hbb2 & Hib2 & _).
  simpl in Hid2, Hbb2, Hib2.
  inv_bind H. exists a1. split; [assumption|].
  rewrite range_of_nat in H.
  apply mark_table_loop_inv in H; simpl in H |- *;
    rewrite ?Hid2, ?Hid1, ?Hid0 in H.
  - destruct H as (Hb3 & Hc3 & Hf3 & Hs3).
    replace (cur + 1 + 1 - (id g * BLOCKS_PER_GROUP p + 1) + 0 + Z.of_nat (Z.to_nat a1))
      with (r + 1 + 1 + Z.max 0 a1) in Hb3 by lia.
    destruct Hs0 as (_ & _ & _ & _ & Hi0 & Hfi0 & Hu0).
    destruct Hs1 as (_ & _ & _ & _ & Hi1 & Hfi1 & Hu1).
    destruct Hs2 as (_ & _ & _ & _ & Hi2 & Hfi2 & Hu2).
    destruct Hs3 as (Hid3 & Hbb3 & Hib3 & Hit3 & Hi3 & Hfi3 & Hu3).
    simpl in *.
    repeat split; try congruence; try lia; assumption.
  - rewrite Hid2, Hid1, Hid0. lia.
  - rewrite Hid2, Hid1, Hid0.
    replace (cur + 1 + 1 - (id g * BLOCKS_PER_GROUP p + 1) + 0) with (r + 1 + 1) by lia.
    assumption.
Qed.

Lemma alloc_group_metadata_ok (p : Params) (g : BlockGroup) :
  is_bytearray (block_bitmap g) ->
  BLOCK_SIZE p <> 0 ->
  reserved_blocks (id g) + 1 + 1
    + Z.max 0 (INODES_PER_GROUP p * INODE_SIZE p / BLOCK_SIZE p)
    <= 8 * Z.of_nat (length (block_bitmap g)) ->
  exists g', alloc_group_metadata p g = Ok g'.
Proof.
  intros Hbm Hbs Hfit.
  set (r := reserved_blocks (id g)) in *.
  assert (0 <= r) as Hr by (unfold r, reserved_blocks; destruct (id g =? 0); lia).
  destruct (reserve_sb_gdt_ok p g Hbm ltac:(lia)) as (g0 & Hres & Hbm0 & Hl0 & Hid0).
  fold r in Hres. unfold alloc_group_metadata. rewrite Hres. simpl.
  rewrite Hid0.
  replace (id g * BLOCKS_PER_GROUP p + 1 + r - (id g * BLOCKS_PER_GROUP p + 1))
    with r by lia.
  destruct (mark_block_ok (set_block_bitmap_blk g0 (id g * BLOCKS_PER_GROUP p + 1 + r)) r)
    as (g1 & H1 & Hbm1 & Hl1); [assumption|lia|simpl; lia|].
  rewrite H1. simpl.
  pose proof H1 as Hinv1. apply mark_block_inv in Hinv1 as (? & _ & Heq1).
  assert (id g1 = id g) as Hid1 by (rewrite Heq1; simpl; assumption).
  rewrite Hid1.
  replace (id g * BLOCKS_PER_GROUP p + 1 + r + 1 - (id g * BLOCKS_PER_GROUP p + 1))
    with (r + 1) by lia.
  simpl in Hl1.
  destruct (mark_block_ok
              (set_inode_bitmap_blk g1 (id g * BLOCKS_PER_GROUP p + 1 + r + 1)) (r + 1))
    as (g2 & H2 & Hbm2 & Hl2); [assumption|lia|simpl; lia|].
  rewrite H2. simpl.
  pose proof H2 as Hinv2. apply mark_block_inv in Hinv2 as (? & _ & Heq2).
  assert (id g2 = id g) as Hid2 by (rewrite Heq2; simpl; assumption).
  simpl in Hl2.
  unfold floordiv. destruct (Z.eqb_spec (BLOCK_SIZE p) 0) as [?|_]; [contradiction|].
  simpl. rewrite range_of_nat.
  apply mark_table_loop_ok; simpl; rewrite ?Hid2; [assumption|lia|lia].
Qed.

Lemma BlockGroup_init_inv (p : Params) (i : Z) (g : BlockGroup) :
  BlockGroup_init p i = Ok g ->
  0 <= BLOCK_SIZE p /\
  g = {| id := i;
         block_bitmap_blk := 0;
         inode_bitmap_blk := 0;
         inode_table_blk := 0;
         free_blocks_count := BLOCKS_PER_GROUP p;
         free_inodes_count := INODES_PER_GROUP p;
         used_dirs_count := 0;
         block_bitmap := replicate (Z.to_nat (BLOCK_SIZE p)) 0;
         inode_bitmap := replicate (Z.to_nat (BLOCK_SIZE p)) 0 |}.
Proof.
  unfold BlockGroup_init, bytearray.
  destruct (Z.ltb_spec (BLOCK_SIZE p) 0); simpl; [discriminate|].
  intros [= <-]. split; [assumption|reflexivity].
Qed.

Lemma is_bytearray_replicate_0 (n : nat) : is_bytearray (replicate n 0).
Proof. apply Forall_replicate. lia. Qed.

Lemma ceil_div_exact (x d : Z) : 0 < d -> (d | x) -> (x + d - 1) / d = x / d.
Proof.
  intros Hd [q ->].
  replace (q * d + d - 1) with (q * d + (d - 1)) by lia.
  rewrite Z.div_add_l, Z.div_small, Z.div_mul by lia. lia.
Qed.

(** One iteration of the metadata loop (lines 127-169), run on the group
    that [BlockGroup(i)] creates, when the inode table is a whole number of
    blocks and fits in the bitmap block.  First [reserve_sb_gdt] marks bits
    0 and 1 and takes 2 off the free count in group 0 and nothing elsewhere,
    and sets the allocation cursor to block 3 in group 0 and to
    [i * BLOCKS_PER_GROUP + 1] elsewhere.  Then the block bitmap gets the
    block at the cursor, the inode bitmap the next one, the inode table the
    following [ceil (INODES_PER_GROUP * INODE_SIZE / BLOCK_SIZE)] blocks;
    exactly the bits of these blocks, relative to the group's first block,
    are set, and the free count has dropped by one per block. *)
Lemma group_metadata_step (p : Params) (i : Z) (g : BlockGroup) :
  BlockGroup_init p i = Ok g ->
  0 < BLOCK_SIZE p ->
  0 <= INODES_PER_GROUP p * INODE_SIZE p ->
  (BLOCK_SIZE p | INODES_PER_GROUP p * INODE_SIZE p) ->
  let table := (INODES_PER_GROUP p * INODE_SIZE p + BLOCK_SIZE p - 1) / BLOCK_SIZE p in
  let start := i * BLOCKS_PER_GROUP p + 1 + (if i =? 0 then 2 else 0) in
  (if i =? 0 then 2 else 0) + 1 + 1 + table <= 8 * BLOCK_SIZE p ->
  exists g0 g',
    reserve_sb_gdt p g = Ok (g0, start) /\
    start = (if i =? 0 then 3 else i * BLOCKS_PER_GROUP p + 1) /\
    marked_below (block_bitmap g0) (if i =? 0 then 2 else 0) /\
    free_blocks_count g0 = BLOCKS_PER_GROUP p - (if i =? 0 then 2 else 0) /\
    alloc_group_metadata p g = Ok g' /\
    block_bitmap_blk g' = start /\
    inode_bitmap_blk g' = start + 1 /\
    inode_table_blk g' = start + 2 /\
    marked_below (block_bitmap g') ((if i =? 0 then 2 else 0) + 1 + 1 + table) /\
    (forall blk, start <= blk < start + 1 + 1 + table ->
                 test_bit (block_bitmap g') (blk - (i * BLOCKS_PER_GROUP p + 1)) = true) /\
    free_blocks_count g' =
      BLOCKS_PER_GROUP p - (if i =? 0 then 2 else 0) - 1 - 1 - table.
Proof.
  intros Hinit Hbs Hnn Hdiv table start Hfit.
  apply BlockGroup_init_inv in Hinit as [_ Hg].
  assert (table = INODES_PER_GROUP p * INODE_SIZE p / BLOCK_SIZE p) as Htable
    by (apply ceil_div_exact; assumption).
  assert (0 <= table) as Htable_nn by (rewrite Htable; apply Z.div_pos; lia).
  assert (id g = i) as Hid by (rewrite Hg; reflexivity).
  assert (block_bitmap g = replicate (Z.to_nat (BLOCK_SIZE p)) 0) as Hbm
    by (rewrite Hg; reflexivity).
  assert (free_blocks_count g = BLOCKS_PER_GROUP p) as Hfree
    by (rewrite Hg; reflexivity).
  assert (marked_below (block_bitmap g) 0) as Hempty
    by (rewrite Hbm; apply marked_below_replicate_0).
  assert (is_bytearray (block_bitmap g)) as Hbytes
    by (rewrite Hbm; apply is_bytearray_replicate_0).
  assert (Z.of_nat (length (block_bitmap g)) = BLOCK_SIZE p) as Hlen
    by (rewrite Hbm, length_replicate; lia).
  fold (reserved_blocks i) in *.
  assert (start = i * BLOCKS_PER_GROUP p + 1 + reserved_blocks i) as Hstart
    by reflexivity.
  clearbody table start. clear Hg.
  destruct (reserve_sb_gdt_ok p g Hbytes ltac:(lia)) as (g0 & Hres & _).
  destruct (reserve_sb_gdt_inv p g g0 _ Hempty Hres) as (_ & Hb0 & _ & Hf0 & _).
  destruct (alloc_group_metadata_ok p g Hbytes ltac:(lia)) as [g' Hg'].
  { rewrite Hid, Hlen, <- Htable. lia. }
  destruct (alloc_group_metadata_inv p g g' Hempty Hg')
    as (n & Hn & Hbb & Hib & Hit & Hb & _ & Hf & _).
  unfold floordiv in Hn. destruct (Z.eqb_spec (BLOCK_SIZE p) 0); [lia|].
  injection Hn as <-. rewrite <- Htable, Hid, Z.max_r in * by assumption.
  assert (0 <= reserved_blocks i) as Hr
    by (unfold reserved_blocks; destruct (i =? 0); lia).
  exists g0, g'. rewrite Hstart.
  split; [assumption|]. split.
  { unfold reserved_blocks. destruct (Z.eqb_spec i 0); lia. }
  do 7 (split; [assumption || lia|]).
  split; [|lia].
  intros blk Hblk. rewrite Hb by lia. apply Z.ltb_lt. lia.
Qed.

(** ** The allocation invariant *)

Lemma alloc_inv_mono (p : Params) (M M' : Z -> Prop) (gs : list BlockGroup) :
  (forall x, M x -> M' x) -> alloc_inv p M gs -> alloc_inv p M' gs.
Proof.
  intros Hsub Hinv k g Hk. destruct (Hinv k g Hk) as [Hc Hm].
  split; [assumption|]. intros j Hj Hbit. apply Hsub, Hm; assumption.
Qed.

Lemma alloc_inv_insert (p : Params) (M : Z -> Prop) (gs : list BlockGroup)
    (n : nat) (g' : BlockGroup) :
  alloc_inv p M gs ->
  group_consistent p g' -> inode_marks_in p M n g' ->
  alloc_inv p M (<[n := g']> gs).
Proof.
  intros Hinv Hc Hm k g Hk.
  destruct (decide (n = k)) as [->|Hne].
  - apply list_lookup_insert_Some in Hk as [(_ & <- & _)|(? & _)]; [|contradiction].
    split; assumption.
  - rewrite list_lookup_insert_ne in Hk by assumption. apply Hinv. assumption.
Qed.

(** After the metadata pass no inode is marked. *)
Lemma alloc_inv_metadata (p : Params) (geo : Geometry) (gs0 gs : list BlockGroup) :
  make_groups p geo = Ok gs0 -> alloc_metadata p gs0 = Ok gs ->
  alloc_inv p (fun _ => False) gs.
Proof.
  intros H0 H1 k g' Hk.
  apply mapM_inv in H0. apply mapM_inv in H1.
  destruct (Forall2_lookup_r _ _ _ _ _ H1 Hk) as (g & Hg & Halloc).
  destruct (Forall2_lookup_r _ _ _ _ _ H0 Hg) as (i & _ & Hinit).
  apply BlockGroup_init_inv in Hinit as [_ ->].
  apply alloc_group_metadata_inv in Halloc as (n & _ & Hall);
    [|apply marked_below_replicate_0].
  simpl in Hall.
  destruct Hall as (_ & _ & _ & _ & Hc & Hf & _ & Hib & Hfi & _).
  rewrite count_set_replicate_0 in Hc.
  split; [split|].
  - unfold blocks_consistent. lia.
  - unfold inodes_consistent. rewrite Hib, Hfi, count_set_replicate_0. lia.
  - intros j _ Hbit. rewrite Hib, test_bit_replicate_0 in Hbit. discriminate.
Qed.

(** Marking an inode that is not marked yet. *)
Lemma alloc_inv_mark_inode (p : Params) (M : Z -> Prop) (gs gs' : list BlockGroup)
    (i : Z) :
  0 < INODES_PER_GROUP p -> 1 <= i -> ~ M i ->
  alloc_inv p M gs ->
  update_group gs ((i - 1) / INODES_PER_GROUP p)
    (mark_inode ((i - 1) mod INODES_PER_GROUP p)) = Ok gs' ->
  alloc_inv p (fun x => M x \/ x = i) gs'.
Proof.
  intros Hipg Hi HnM Hinv H.
  set (grp := (i - 1) / INODES_PER_GROUP p) in *.
  set (off := (i - 1) mod INODES_PER_GROUP p) in *.
  assert (0 <= grp) as Hgrp by (apply Z.div_pos; lia).
  assert (0 <= off) as Hoff by (apply Z.mod_pos_bound; lia).
  assert (grp * INODES_PER_GROUP p + off + 1 = i) as Hsplit.
  { pose proof (Z.div_mod (i - 1) (INODES_PER_GROUP p) ltac:(lia)). unfold grp, off. lia. }
  apply update_group_inv in H as (n & g & g' & Hg & Hmark & -> & Hn).
  specialize (Hn Hgrp).
  destruct (Hinv n g Hg) as [[Hcb Hci] Hm].
  assert (test_bit (inode_bitmap g) off = false) as Hfree.
  { destruct (test_bit (inode_bitmap g) off) eqn:E; [|reflexivity].
    exfalso. apply HnM. rewrite <- Hsplit.
    replace grp with (Z.of_nat n) by lia. apply Hm; assumption. }
  pose proof (mark_inode_consistent p g g' off Hoff Hmark Hfree Hci) as Hci'.
  apply mark_inode_inv in Hmark as (bm & Hbm & Heq).
  apply alloc_inv_insert.
  - apply (alloc_inv_mono p M); [tauto|assumption].
  - split; [|assumption]. rewrite Heq. exact Hcb.
  - intros j Hj Hbit. rewrite Heq in Hbit. simpl in Hbit.
    rewrite (ior_bit_test _ _ off j Hoff Hj Hbm) in Hbit.
    apply orb_true_iff in Hbit as [Hold|Hnew].
    + left. apply Hm; assumption.
    + right. apply Z.eqb_eq in Hnew. lia.
Qed.

Lemma alloc_inv_used_dirs (p : Params) (M : Z -> Prop) (gs gs' : list BlockGroup)
    (grp : Z) :
  alloc_inv p M gs ->
  update_group gs grp (fun g => Ok (set_used_dirs_count g (used_dirs_count g + 1)))
    = Ok gs' ->
  alloc_inv p M gs'.
Proof.
  intros Hinv H.
  apply update_group_inv in H as (n & g & g' & Hg & [= <-] & -> & _).
  destruct (Hinv n g Hg) as [Hc Hm].
  apply alloc_inv_insert; assumption.
Qed.

Lemma alloc_inv_data_block (p : Params) (M : Z -> Prop) (gs gs' : list BlockGroup)
    (idx blk : Z) :
  alloc_inv p M gs -> alloc_data_block p gs idx = Ok (gs', blk) -> alloc_inv p M gs'.
Proof.
  intros Hinv H.
  apply alloc_data_block_inv in H as (n & g & g' & Hg & -> & Hcases).
  destruct (Hinv n g Hg) as [[Hcb Hci] Hm].
  destruct Hcases as [[-> _]|(i & Hi & Hfree & Htaken & _)].
  - rewrite list_insert_id by assumption. assumption.
  - destruct (block_taken_spec p g g' i (proj1 Hi) Htaken Hfree)
      as (Hfr & _ & _ & Hcount & _ & Hib & Hfi & _).
    apply alloc_inv_insert; [assumption| |].
    + split.
      * unfold blocks_consistent in *. lia.
      * unfold inodes_consistent in *. rewrite Hib, Hfi. assumption.
    + intros j Hj Hbit. rewrite Hib in Hbit. apply Hm; assumption.
Qed.

Lemma alloc_inv_dir_inode (p : Params) (M : Z -> Prop) (gs gs' : list BlockGroup)
    (i idx : Z) :
  0 < INODES_PER_GROUP p -> 1 <= i -> ~ M i ->
  alloc_inv p M gs ->
  alloc_dir_inode p gs i = Ok (gs', idx) ->
  alloc_inv p (fun x => M x \/ x = i) gs'.
Proof.
  intros Hipg Hi HnM Hinv H. unfold alloc_dir_inode, floordiv, pymod in H.
  destruct (Z.eqb_spec (INODES_PER_GROUP p) 0); [lia|]. simpl in H.
  inv_bind H. inv_bind H. injection H as <- _.
  eapply alloc_inv_used_dirs; [|eassumption].
  eapply alloc_inv_mark_inode; eassumption.
Qed.

Lemma alloc_inv_reserve_loop (p : Params) (l : list Z) :
  0 < INODES_PER_GROUP p ->
  forall (M : Z -> Prop) (gs gs' : list BlockGroup),
  NoDup l -> (forall i, i ∈ l -> 1 <= i) ->
  (forall i, i ∈ l -> i <> 2 -> ~ M i) ->
  alloc_inv p M gs ->
  foldM (reserve_inode p) gs l = Ok gs' ->
  alloc_inv p (fun x => M x \/ x ∈ l) gs'.
Proof.
  intros Hipg. induction l as [|i l IH]; intros M gs gs' Hnd Hpos HnM Hinv H.
  - simpl in H. injection H as <-. apply (alloc_inv_mono p M); [tauto|assumption].
  - simpl in H. inv_bind H. apply NoDup_cons in Hnd as [Hil Hnd].
    unfold reserve_inode in Ha. destruct (Z.eqb_spec i 2) as [Hi2|Hi2].
    + injection Ha as <-.
      apply (alloc_inv_mono p (fun x => M x \/ x ∈ l)).
      { intros x [?|?]; [left; assumption|right; apply list_elem_of_further; assumption]. }
      apply (IH M gs gs'); try assumption.
      * intros j Hj. apply Hpos, list_elem_of_further, Hj.
      * intros j Hj. apply HnM, list_elem_of_further, Hj.
    + unfold floordiv, pymod in Ha.
      destruct (Z.eqb_spec (INODES_PER_GROUP p) 0); [lia|]. simpl in Ha.
      apply (alloc_inv_mono p (fun x => (M x \/ x = i) \/ x ∈ l)).
      { intros x [[?| ->]|?]; [left; assumption|right; apply list_elem_of_here|].
        right. apply list_elem_of_further. assumption. }
      apply (IH (fun x => M x \/ x = i) a gs'); try assumption.
      * intros j Hj. apply Hpos, list_elem_of_further, Hj.
      * intros j Hj Hj2 [HM| ->]; [|contradiction].
        revert HM. apply HnM; [apply list_elem_of_further|]; assumption.
      * apply (alloc_inv_mark_inode p M gs a i); try assumption.
        -- apply Hpos, list_elem_of_here.
        -- apply HnM; [apply list_elem_of_here|assumption].
Qed.

Lemma alloc_inv_allocate (p : Params) (geo : Geometry) (lay : Layout) :
  0 < INODES_PER_GROUP p -> allocate p geo = Ok lay ->
  alloc_inv p (fun x => 1 <= x <= 11) (groups lay).
Proof.
  intros Hipg H. unfold allocate in H.
  inv_bind H. destruct a as [[[gs3 ridx] rblk] lidx].
  inv_bind H. destruct a as [gs4 lblk]. injection H as <-. simpl.
  unfold before_lf_scan in Ha. inv_bind Ha. destruct a as [gs1 ridx'].
  inv_bind Ha. destruct a as [gs2 rblk']. inv_bind Ha. destruct a as [gs3' lidx'].
  injection Ha as -> -> -> ->.
  unfold before_root_scan in Ha1. inv_bind Ha1. inv_bind Ha1.
  inv_bind Ha1. destruct a1 as [gsr ridx'']. inv_bind Ha1. injection Ha1 as -> ->.
  pose proof (alloc_inv_metadata p geo a a0 Ha Ha4) as I0.
  pose proof (alloc_inv_dir_inode p _ _ _ root_inode_index _ Hipg
                ltac:(unfold root_inode_index; lia) ltac:(intros HF; exact HF)
                I0 Ha5) as I1.
  unfold reserve_inodes in Ha6. rewrite range2_seqZ in Ha6.
  assert (alloc_inv p (fun x => (False \/ x = root_inode_index) \/ x ∈ seqZ 1 (11 - 1))
            gs1) as I2.
  { apply (alloc_inv_reserve_loop p (seqZ 1 (11 - 1)) Hipg _ gsr gs1
             (NoDup_seqZ _ _)); [| |exact I1|exact Ha6].
    - intros i Hi. apply elem_of_seqZ in Hi. lia.
    - intros i _ Hi [HF|Heq]; [destruct HF|contradiction]. }
  pose proof (alloc_inv_data_block p _ _ _ _ _ I2 Ha2) as I3.
  assert (alloc_inv p (fun x => 1 <= x <= 10) gs2) as I3'.
  { revert I3. apply alloc_inv_mono. unfold root_inode_index.
    intros x [[HF|Heq]|Hx]; [destruct HF|lia|]. apply elem_of_seqZ in Hx. lia. }
  pose proof (alloc_inv_dir_inode p (fun x => 1 <= x <= 10) _ _ lf_inode_index _ Hipg
                ltac:(unfold lf_inode_index; lia)
                ltac:(unfold lf_inode_index; lia) I3' Ha3) as I4.
  pose proof (alloc_inv_data_block p _ _ _ _ _ I4 Ha0) as I5.
  revert I5. apply alloc_inv_mono. unfold lf_inode_index. intros x [?| ->]; lia.
Qed.

(** C1.  Bitmap consistency after the allocation passes: whenever the
    passes run to their end, every group has as many set bits in its block
    bitmap as [BLOCKS_PER_GROUP - free_blocks_count] and as many set bits
    in its inode bitmap as [INODES_PER_GROUP - free_inodes_count]. *)
Theorem bitmap_consistency (p : Params) (geo : Geometry) (lay : Layout) :
  0 < INODES_PER_GROUP p ->
  allocate p geo = Ok lay ->
  Forall (fun g =>
            count_set (block_bitmap g) = BLOCKS_PER_GROUP p - free_blocks_count g /\
            count_set (inode_bitmap g) = INODES_PER_GROUP p - free_inodes_count g)
         (groups lay).
Proof.
  intros Hipg H. apply Forall_lookup. intros k g Hk.
  destruct (alloc_inv_allocate p geo lay Hipg H k g Hk) as [Hc _]. exact Hc.
Qed.

(** ** Conservation of the free counts *)

Lemma consistent_sums (p : Params) (gs : list BlockGroup) :
  Forall (group_consistent p) gs ->
  total_free_blocks gs + used_blocks gs = Z.of_nat (length gs) * BLOCKS_PER_GROUP p /\
  total_free_inodes gs + used_inodes gs = Z.of_nat (length gs) * INODES_PER_GROUP p.
Proof.
  unfold total_free_blocks, total_free_inodes, used_blocks, used_inodes.
  induction 1 as [|g gs [Hb Hi] _ [IHb IHi]].
  - split; reflexivity.
  - unfold blocks_consistent, inodes_consistent, sumZ, fmap in *.
    simpl length. rewrite Nat2Z.inj_succ. simpl in *. split; lia.
Qed.

Lemma update_group_length (gs gs' : list BlockGroup) (i : Z)
    (f : BlockGroup -> result BlockGroup) :
  update_group gs i f = Ok gs' -> length gs' = length gs.
Proof.
  intros H. apply update_group_inv in H as (n & g & g' & _ & _ & -> & _).
  apply length_insert.
Qed.

Lemma alloc_dir_inode_length (p : Params) (gs gs' : list BlockGroup) (i idx : Z) :
  alloc_dir_inode p gs i = Ok (gs', idx) -> length gs' = length gs.
Proof.
  unfold alloc_dir_inode. intros H. do 4 inv_bind H. injection H as <- _.
  apply update_group_length in Ha1, Ha2. congruence.
Qed.

Lemma reserve_inodes_length (p : Params) (gs gs' : list BlockGroup) :
  reserve_inodes p gs = Ok gs' -> length gs' = length gs.
Proof.
  unfold reserve_inodes.
  apply (foldM_invariant _ (fun s => length s = length gs)); [|reflexivity].
  intros s i s' _ Hs Hstep. unfold reserve_inode in Hstep.
  destruct (i =? 2); [congruence|].
  do 2 inv_bind Hstep. apply update_group_length in Hstep. congruence.
Qed.

Lemma alloc_data_block_length (p : Params) (gs gs' : list BlockGroup) (idx blk : Z) :
  alloc_data_block p gs idx = Ok (gs', blk) ->
  length gs' = length gs /\ (0 < length gs)%nat.
Proof.
  intros H. apply alloc_data_block_inv in H as (n & g & g' & Hg & -> & _).
  split; [apply length_insert|]. apply lookup_lt_Some in Hg. lia.
Qed.

(** The passes neither add nor remove groups, and there is at least one. *)
Lemma allocate_length (p : Params) (geo : Geometry) (lay : Layout) :
  allocate p geo = Ok lay ->
  length (groups lay) = Z.to_nat (GROUP_COUNT geo) /\ 0 < GROUP_COUNT geo.
Proof.
  intros H. unfold allocate in H.
  inv_bind H. destruct a as [[[gs3 ridx] rblk] lidx].
  inv_bind H. destruct a as [gs4 lblk]. injection H as <-. simpl.
  unfold before_lf_scan in Ha. inv_bind Ha. destruct a as [gs1 ridx'].
  inv_bind Ha. destruct a as [gs2 rblk']. inv_bind Ha. destruct a as [gs3' lidx'].
  injection Ha as -> -> -> ->.
  unfold before_root_scan in Ha1. inv_bind Ha1. inv_bind Ha1.
  inv_bind Ha1. destruct a1 as [gsr ridx'']. inv_bind Ha1. injection Ha1 as -> ->.
  unfold make_groups, alloc_metadata in *.
  apply mapM_length in Ha, Ha4. rewrite range_seqZ, length_seqZ in Ha.
  apply alloc_dir_inode_length in Ha5, Ha3.
  apply reserve_inodes_length in Ha6.
  apply alloc_data_block_length in Ha2 as [? ?], Ha0 as [? _].
  lia.
Qed.

(** ** Packing *)

Lemma length_le_bytes (n : nat) (v : Z) : length (le_bytes n v) = n.
Proof. unfold le_bytes. rewrite length_fmap, length_seq. reflexivity. Qed.

Lemma pack_uint_inv (n : nat) (v : Z) (bs : list Z) :
  pack_uint n v = Ok bs -> 0 <= v < 2 ^ (8 * Z.of_nat n) /\ bs = le_bytes n v.
Proof.
  unfold pack_uint.
  destruct (Z.leb_spec 0 v), (Z.ltb_spec v (2 ^ (8 * Z.of_nat n)));
    simpl; intros [= <-] || discriminate.
  split; [lia|reflexivity].
Qed.

Lemma pack_uint_ok (n : nat) (v : Z) :
  0 <= v < 2 ^ (8 * Z.of_nat n) -> pack_uint n v = Ok (le_bytes n v).
Proof.
  intros Hv. unfold pack_uint.
  destruct (Z.leb_spec 0 v), (Z.ltb_spec v (2 ^ (8 * Z.of_nat n))); simpl;
    reflexivity || lia.
Qed.

Lemma pack_field_length (f : field) (bs : list Z) :
  pack_field f = Ok bs -> length bs = field_size f.
Proof.
  destruct f as [v|v|v|n s]; simpl; intros H;
    try (apply pack_uint_inv in H as [_ ->]; apply length_le_bytes).
  injection H as <-. rewrite length_take, length_app, length_replicate. lia.
Qed.

Lemma pack_length (fs : list field) (bs : list Z) :
  pack fs = Ok bs -> length bs = fields_size fs.
Proof.
  revert bs. induction fs as [|f fs IH]; simpl; intros bs H.
  - injection H as <-. reflexivity.
  - inv_bind H. inv_bind H. injection H as <-.
    rewrite length_app, (pack_field_length _ _ Ha), (IH _ Ha0). reflexivity.
Qed.

Lemma pack_app (fs1 fs2 : list field) :
  pack (fs1 ++ fs2) =
  let* b1 := pack fs1 in
  let* b2 := pack fs2 in
  Ok (b1 ++ b2).
Proof.
  induction fs1 as [|f fs1 IH]; simpl.
  - destruct (pack fs2); reflexivity.
  - destruct (pack_field f) as [b|e]; simpl; [|reflexivity].
    rewrite IH. destruct (pack fs1) as [b1|e]; simpl; [|reflexivity].
    destruct (pack fs2) as [b2|e]; simpl; [|reflexivity].
    rewrite app_assoc. reflexivity.
Qed.

Lemma length_blit (buf bs : list Z) (off : nat) :
  (off + length bs <= length buf)%nat -> length (blit buf off bs) = length buf.
Proof.
  intros H. unfold blit. rewrite !length_app, length_take, length_drop. lia.
Qed.

Lemma lookup_blit (buf bs : list Z) (off k : nat) :
  (off + length bs <= length buf)%nat ->
  blit buf off bs !! k =
    if decide (off <= k < off + length bs)%nat then bs !! (k - off)%nat else buf !! k.
Proof.
  intros H. unfold blit.
  destruct (decide (k < off)%nat) as [Hlt|Hge].
  - rewrite lookup_app_l by (rewrite length_take; lia).
    rewrite lookup_take_lt by lia. destruct (decide _); [lia|reflexivity].
  - rewrite lookup_app_r by (rewrite length_take; lia).
    rewrite length_take, Nat.min_l by lia.
    destruct (decide (off <= k < off + length bs)%nat) as [Hin|Hout].
    + rewrite lookup_app_l by lia. reflexivity.
    + rewrite lookup_app_r by lia. rewrite lookup_drop. f_equal. lia.
Qed.

Lemma pack_into_inv (fs : list field) (buf buf' : list Z) (off : nat) :
  pack_into fs buf off = Ok buf' ->
  exists bs, pack fs = Ok bs /\ (off + length bs <= length buf)%nat /\
             buf' = blit buf off bs.
Proof.
  unfold pack_into. intros H. inv_bind H.
  destruct (Nat.leb_spec (off + length a) (length buf)); [|discriminate].
  injection H as <-. eauto.
Qed.

Lemma pack_into_length (fs : list field) (buf buf' : list Z) (off : nat) :
  pack_into fs buf off = Ok buf' -> length buf' = length buf.
Proof.
  intros H. apply pack_into_inv in H as (bs & _ & Hlen & ->).
  apply length_blit. assumption.
Qed.

(** Packing the same fields into buffers that agree keeps them agreeing. *)
Lemma pack_into_agree (K : nat -> Prop) (fs : list field) (b1 b2 b1' : list Z)
    (off : nat) :
  agree_list K b1 b2 -> pack_into fs b1 off = Ok b1' ->
  exists b2', pack_into fs b2 off = Ok b2' /\ agree_list K b1' b2'.
Proof.
  intros [Hlen Hag] H. apply pack_into_inv in H as (bs & Hbs & Hfit & ->).
  exists (blit b2 off bs). split.
  - unfold pack_into. rewrite Hbs. simpl.
    destruct (Nat.leb_spec (off + length bs) (length b2)); [reflexivity|lia].
  - split.
    + rewrite !length_blit by lia. assumption.
    + intros k Hk. rewrite !lookup_blit by lia.
      destruct (decide _); [reflexivity|apply Hag; assumption].
Qed.

(** ** Which bytes depend on the clock *)

Lemma bind_Ok {A B : Type} (a : A) (k : A -> result B) : bind (Ok a) k = k a.
Proof. reflexivity. Qed.

Lemma agree_list_app_middle (x m1 m2 y : list Z) :
  length m1 = length m2 ->
  agree_list (fun k => length x <= k < length x + length m1)%nat
    (x ++ m1 ++ y) (x ++ m2 ++ y).
Proof.
  intros Hlen. split.
  - rewrite !length_app. lia.
  - intros k Hk.
    destruct (decide (k < length x)%nat).
    + rewrite !lookup_app_l by assumption. reflexivity.
    + rewrite !(lookup_app_r x) by lia.
      rewrite !lookup_app_r by lia. rewrite Hlen. reflexivity.
Qed.

(** The two clock readings are packed between [pre] and [post]. *)
Lemma pack_into_times (pre post : list field) (t_m t_w t_m' t_w' : Z)
    (buf buf1 : list Z) (n0 : nat) :
  fields_size pre = n0 ->
  0 <= t_m' < 2 ^ 32 -> 0 <= t_w' < 2 ^ 32 ->
  pack_into (pre ++ [U32 t_m; U32 t_w] ++ post) buf 0 = Ok buf1 ->
  exists buf1',
    pack_into (pre ++ [U32 t_m'; U32 t_w'] ++ post) buf 0 = Ok buf1' /\
    agree_list (fun k => n0 <= k < n0 + 8)%nat buf1 buf1'.
Proof.
  intros Hpre Hm Hw H. apply pack_into_inv in H as (bs & Hbs & Hfit & ->).
  rewrite !pack_app in Hbs.
  inv_bind Hbs as x Hx. inv_bind Hbs as rest Hrest. injection Hbs as <-.
  inv_bind Hrest as mid Hmid. inv_bind Hrest as y Hy. injection Hrest as <-.
  simpl in Hmid.
  inv_bind Hmid as bm Hbm. inv_bind Hmid as tl Htl. injection Hmid as <-.
  inv_bind Htl as bw Hbw. injection Htl as <-.
  apply pack_uint_inv in Hbm as [_ ->], Hbw as [_ ->].
  apply pack_length in Hx as Hlen. rewrite Hpre in Hlen.
  set (bs := x ++ (le_bytes 4 t_m ++ le_bytes 4 t_w ++ []) ++ y) in *.
  set (bs' := x ++ (le_bytes 4 t_m' ++ le_bytes 4 t_w' ++ []) ++ y).
  assert (pack (pre ++ [U32 t_m'; U32 t_w'] ++ post) = Ok bs') as Hbs'.
  { rewrite !pack_app, Hx, Hy. simpl. rewrite !pack_uint_ok by assumption.
    reflexivity. }
  destruct (agree_list_app_middle x
              (le_bytes 4 t_m ++ le_bytes 4 t_w ++ [])
              (le_bytes 4 t_m' ++ le_bytes 4 t_w' ++ []) y) as [Hl Hag].
  { rewrite !length_app, !length_le_bytes. reflexivity. }
  fold bs bs' in Hl, Hag.
  rewrite !length_app, !length_le_bytes, Hlen in Hag. simpl in Hag.
  exists (blit buf 0 bs'). split.
  - unfold pack_into. rewrite Hbs'. simpl. rewrite <- Hl.
    destruct (Nat.leb_spec (length bs) (length buf)); [reflexivity|lia].
  - split.
    + rewrite !length_blit by (simpl; lia). reflexivity.
    + intros k Hk. rewrite !lookup_blit by (simpl; lia). rewrite <- Hl.
      destruct (decide _); [|reflexivity]. apply Hag. lia.
Qed.

Lemma create_superblock_times (p : Params) (geo : Geometry)
    (t_m t_w t_m' t_w' : Z) (sb : list Z) :
  0 <= t_m' < 2 ^ 32 -> 0 <= t_w' < 2 ^ 32 ->
  create_superblock p geo t_m t_w = Ok sb ->
  exists sb', create_superblock p geo t_m' t_w' = Ok sb' /\
              agree_list (fun k => 44 <= k < 52)%nat sb sb'.
Proof.
  intros Hm Hw H. unfold create_superblock in *.
  inv_bind H. rewrite Ha, bind_Ok.
  inv_bind H.
  apply (pack_into_times
           [ U32 (INODE_COUNT geo); U32 (BLOCK_COUNT geo); U32 0;
             U32 (BLOCK_COUNT geo - 1 - GROUP_COUNT geo * 1 - 1);
             U32 (INODE_COUNT geo - 11); U32 1; U32 0; U32 0;
             U32 (BLOCKS_PER_GROUP p); U32 (BLOCKS_PER_GROUP p);
             U32 (INODES_PER_GROUP p) ]
           [ U16 0; U16 20 ] t_m t_w t_m' t_w' a a0 44 eq_refl Hm Hw)
    in Ha0 as (b0 & Hb0 & Hag0).
  change (44 + 8)%nat with 52%nat in Hag0.
  simpl app in Hb0. rewrite Hb0, bind_Ok.
  inv_bind H. destruct (pack_into_agree _ _ _ _ _ _ Hag0 Ha0) as (b1 & -> & Hag1).
  rewrite bind_Ok.
  inv_bind H. destruct (pack_into_agree _ _ _ _ _ _ Hag1 Ha1) as (b2 & -> & Hag2).
  rewrite bind_Ok.
  inv_bind H. destruct (pack_into_agree _ _ _ _ _ _ Hag2 Ha2) as (b3 & -> & Hag3).
  rewrite bind_Ok.
  apply (pack_into_agree _ _ _ _ _ _ Hag3 H).
Qed.

Lemma make_sb_data_times (p : Params) (geo : Geometry) (lay : Layout)
    (t_m t_w t_m' t_w' : Z) (sb : list Z) :
  0 <= t_m' < 2 ^ 32 -> 0 <= t_w' < 2 ^ 32 ->
  make_sb_data p geo lay t_m t_w = Ok sb ->
  exists sb', make_sb_data p geo lay t_m' t_w' = Ok sb' /\
              agree_list (fun k => 44 <= k < 52)%nat sb sb'.
Proof.
  intros Hm Hw H. unfold make_sb_data in *. inv_bind H.
  destruct (create_superblock_times p geo _ _ _ _ _ Hm Hw Ha) as (b0 & -> & Hag0).
  rewrite bind_Ok.
  inv_bind H. destruct (pack_into_agree _ _ _ _ _ _ Hag0 Ha0) as (b1 & -> & Hag1).
  rewrite bind_Ok.
  apply (pack_into_agree _ _ _ _ _ _ Hag1 H).
Qed.

Lemma pack_into_times_valid (pre post : list field) (t_m t_w : Z) (buf buf1 : list Z) :
  pack_into (pre ++ [U32 t_m; U32 t_w] ++ post) buf 0 = Ok buf1 ->
  0 <= t_m < 2 ^ 32 /\ 0 <= t_w < 2 ^ 32.
Proof.
  intros H. apply pack_into_inv in H as (bs & Hbs & _).
  rewrite !pack_app in Hbs.
  inv_bind Hbs as x Hx. inv_bind Hbs as rest Hrest.
  inv_bind Hrest as mid Hmid. simpl in Hmid.
  inv_bind Hmid as bm Hbm. inv_bind Hmid as tl Htl. inv_bind Htl as bw Hbw.
  apply pack_uint_inv in Hbm as [? _], Hbw as [? _]. split; assumption.
Qed.

Lemma make_sb_data_valid (p : Params) (geo : Geometry) (lay : Layout)
    (t_m t_w : Z) (sb : list Z) :
  make_sb_data p geo lay t_m t_w = Ok sb ->
  0 <= t_m < 2 ^ 32 /\ 0 <= t_w < 2 ^ 32.
Proof.
  intros H. unfold make_sb_data in H. inv_bind H as sb0 Hsb0.
  unfold create_superblock in Hsb0. inv_bind Hsb0 as z Hz. inv_bind Hsb0 as b Hb.
  apply (pack_into_times_valid
           [ U32 (INODE_COUNT geo); U32 (BLOCK_COUNT geo); U32 0;
             U32 (BLOCK_COUNT geo - 1 - GROUP_COUNT geo * 1 - 1);
             U32 (INODE_COUNT geo - 11); U32 1; U32 0; U32 0;
             U32 (BLOCKS_PER_GROUP p); U32 (BLOCKS_PER_GROUP p);
             U32 (INODES_PER_GROUP p) ]
           [ U16 0; U16 20 ] t_m t_w z b Hb).
Qed.

(** ** Writes *)

Lemma agree_outside_refl (W : Z -> Prop) (f : File) : agree_outside W f f.
Proof. split; reflexivity. Qed.

(** The same write on two files that agree. *)
Lemma fwrite_agree (W : Z -> Prop) (f1 f2 f1' : File) (off : Z) (d : list Z) :
  agree_outside W f1 f2 -> fwrite f1 off d = Ok f1' ->
  exists f2', fwrite f2 off d = Ok f2' /\ agree_outside W f1' f2'.
Proof.
  intros [Hsize Hag] H. unfold fwrite in *.
  destruct (off <? 0); [discriminate|].
  destruct d as [|b d].
  - injection H as <-. exists f2. split; [reflexivity|]. split; assumption.
  - injection H as <-. eexists. split; [reflexivity|]. split; simpl.
    + rewrite Hsize. reflexivity.
    + intros o Ho. destruct (_ && _); [reflexivity|]. apply Hag. assumption.
Qed.

(** Two writes at the same place of data that agree outside [K]. *)
Lemma fwrite_agree_data (K : nat -> Prop) (W : Z -> Prop) (f f1 : File) (off : Z)
    (d1 d2 : list Z) :
  agree_list K d1 d2 ->
  (forall k, K k -> W (off + Z.of_nat k)) ->
  fwrite f off d1 = Ok f1 ->
  exists f2, fwrite f off d2 = Ok f2 /\ agree_outside W f1 f2.
Proof.
  intros [Hlen Hag] HKS H. unfold fwrite in *.
  destruct (off <? 0); [discriminate|].
  destruct d1 as [|b1 d1], d2 as [|b2 d2]; try discriminate Hlen.
  - injection H as <-. exists f. split; [reflexivity|apply agree_outside_refl].
  - injection H as <-. simpl in Hlen. injection Hlen as Hlen.
    eexists. split; [reflexivity|]. split; simpl.
    + rewrite Hlen. reflexivity.
    + intros o Ho. rewrite Hlen.
      destruct ((off <=? o) && (o <? off + Z.of_nat (S (length d2)))) eqn:E;
        [|reflexivity].
      apply andb_true_iff in E as [E1%Z.leb_le E2%Z.ltb_lt].
      f_equal. apply Hag. intros HK. apply Ho.
      replace o with (off + Z.of_nat (Z.to_nat (o - off))) by lia.
      apply HKS. assumption.
Qed.

(** A loop of writes whose body respects agreement. *)
Lemma foldM_agree {A : Type} (W : Z -> Prop) (step : File -> A -> result File)
    (l : list A) :
  (forall f1 f2 f1' x, agree_outside W f1 f2 -> step f1 x = Ok f1' ->
                       exists f2', step f2 x = Ok f2' /\ agree_outside W f1' f2') ->
  forall f1 f2 f1', agree_outside W f1 f2 -> foldM step f1 l = Ok f1' ->
                    exists f2', foldM step f2 l = Ok f2' /\ agree_outside W f1' f2'.
Proof.
  intros Hstep. induction l as [|x l IH]; simpl; intros f1 f2 f1' Hag H.
  - injection H as <-. eauto.
  - inv_bind H as g1 Hg1.
    destruct (Hstep _ _ _ _ Hag Hg1) as (g2 & -> & Hag'). simpl. eauto.
Qed.

Lemma write_group_agree (W : Z -> Prop) (p : Params) (lay : Layout)
    (f1 f2 f1' : File) (g : BlockGroup) :
  agree_outside W f1 f2 -> write_group p lay f1 g = Ok f1' ->
  exists f2', write_group p lay f2 g = Ok f2' /\ agree_outside W f1' f2'.
Proof.
  intros Hag H. unfold write_group in *.
  inv_bind H as a1 Ha1. destruct (fwrite_agree _ _ _ _ _ _ Hag Ha1) as (a2 & -> & Hag1).
  rewrite bind_Ok.
  inv_bind H as b1 Hb1. destruct (fwrite_agree _ _ _ _ _ _ Hag1 Hb1) as (b2 & -> & Hag2).
  rewrite bind_Ok.
  inv_bind H as c1 Hc1.
  assert (exists c2,
    (if id g =? root_group_idx lay
     then let* inode_offset := pymod (root_inode_index - 1) (INODES_PER_GROUP p) in
          let* ino := root_inode p lay in
          fwrite b2 (inode_table_blk g * BLOCK_SIZE p + inode_offset * INODE_SIZE p) ino
     else Ok b2) = Ok c2 /\ agree_outside W c1 c2) as (c2 & -> & Hag3).
  { destruct (id g =? root_group_idx lay).
    - inv_bind Hc1 as io Hio. inv_bind Hc1 as ino Hino. rewrite Hio, Hino, !bind_Ok.
      apply (fwrite_agree _ _ _ _ _ _ Hag2 Hc1).
    - injection Hc1 as <-. eauto. }
  rewrite bind_Ok.
  destruct (id g =? lf_group_idx lay).
  - inv_bind H as io Hio. inv_bind H as ino Hino. rewrite Hio, Hino, !bind_Ok.
    apply (fwrite_agree _ _ _ _ _ _ Hag3 H).
  - injection H as <-. eauto.
Qed.

Lemma write_rest_agree (W : Z -> Prop) (p : Params) (lay : Layout) (f1 f2 f1' : File) :
  agree_outside W f1 f2 -> write_rest p lay f1 = Ok f1' ->
  exists f2', write_rest p lay f2 = Ok f2' /\ agree_outside W f1' f2'.
Proof.
  intros Hag H. unfold write_rest in *.
  inv_bind H as gdt Hgdt. rewrite Hgdt, bind_Ok.
  inv_bind H as a1 Ha1. destruct (fwrite_agree _ _ _ _ _ _ Hag Ha1) as (a2 & -> & Hag1).
  rewrite bind_Ok.
  inv_bind H as b1 Hb1.
  destruct (foldM_agree W (write_group p lay) (groups lay)
              (fun f1 f2 f1' x => write_group_agree W p lay f1 f2 f1' x)
              _ _ _ Hag1 Hb1) as (b2 & -> & Hag2).
  rewrite bind_Ok.
  inv_bind H as rb Hrb. rewrite Hrb, bind_Ok.
  inv_bind H as c1 Hc1. destruct (fwrite_agree _ _ _ _ _ _ Hag2 Hc1) as (c2 & -> & Hag3).
  rewrite bind_Ok.
  inv_bind H as lb Hlb. rewrite Hlb, bind_Ok.
  apply (fwrite_agree _ _ _ _ _ _ Hag3 H).
Qed.






Lemma mkfs_times (p : Params) (t_m t_w t_m' t_w' : Z) (f : File) :
  0 <= t_m' < 2 ^ 32 -> 0 <= t_w' < 2 ^ 32 ->
  mkfs p t_m t_w = Ok f ->
  exists f', mkfs p t_m' t_w' = Ok f' /\ agree_outside clock_bytes f f'.
Proof.
  intros Hm Hw H. unfold mkfs in *.
  inv_bind H as geo Hgeo. rewrite Hgeo, bind_Ok.
  inv_bind H as lay Hlay. rewrite Hlay, bind_Ok.
  inv_bind H as sb Hsb.
  destruct (make_sb_data_times p geo lay _ _ _ _ _ Hm Hw Hsb) as (sb' & -> & Hag).
  rewrite bind_Ok. unfold write_image in *.
  inv_bind H as f0 Hf0. rewrite Hf0, bind_Ok.
  inv_bind H as f1 Hf1.
  destruct (fwrite_agree_data (fun k => 44 <= k < 52)%nat clock_bytes f0 f1 1024 sb sb'
              Hag ltac:(unfold clock_bytes; lia) Hf1) as (f2 & -> & Hag1).
  rewrite bind_Ok. apply (write_rest_agree _ _ _ _ _ _ Hag1 H).
Qed.

Lemma file_byte_agree (W : Z -> Prop) (f1 f2 : File) (o : Z) :
  agree_outside W f1 f2 -> ~ W o -> file_byte f1 o = file_byte f2 o.
Proof.
  intros [Hsize Hag] Ho. unfold file_byte. rewrite Hsize, (Hag o Ho). reflexivity.
Qed.

(** C10.  Two runs of the script differ at most in bytes 1068..1075 of the
    image (the superblock's [s_mtime] and [s_wtime]): whatever the two
    clock readings of each run, the images have the same size and the same
    byte at every other offset. *)
Theorem image_deterministic_but_clock (p : Params) (t_m t_w t_m' t_w' : Z)
    (f f' : File) :
  mkfs p t_m t_w = Ok f ->
  mkfs p t_m' t_w' = Ok f' ->
  fsize f = fsize f' /\
  forall o, ~ (1068 <= o <= 1075) -> file_byte f o = file_byte f' o.
Proof.
  intros H H'.
  assert (0 <= t_m' < 2 ^ 32 /\ 0 <= t_w' < 2 ^ 32) as [Hm Hw].
  { unfold mkfs in H'. inv_bind H' as geo Hgeo. inv_bind H' as lay Hlay.
    inv_bind H' as sb Hsb. apply (make_sb_data_valid _ _ _ _ _ _ Hsb). }
  destruct (mkfs_times p t_m t_w t_m' t_w' f Hm Hw H) as (f2 & Hf2 & Hag).
  rewrite H' in Hf2. injection Hf2 as <-.
  split; [apply Hag|].
  intros o Ho. apply (file_byte_agree clock_bytes); assumption.
Qed.

(** ** Facts obtained by running the model *)


Lemma is_bytearray_check (bm : list Z) :
  forallb (fun b => (0 <=? b) && (b <? 256)) bm = true -> is_bytearray bm.
Proof.
  intros H. rewrite forallb_forall in H. apply Forall_forall. intros b Hb.
  apply list_elem_of_In, H, andb_true_iff in Hb as [?%Z.leb_le ?%Z.ltb_lt]. lia.
Qed.

Lemma derive_geometry_default : derive_geometry default_params = Ok default_geometry.
Proof. reflexivity. Qed.

Lemma before_root_scan_default :
  before_root_scan default_params default_geometry = Ok (groups_before_root_scan, 0).
Proof. vm_compute. reflexivity. Qed.

Lemma allocate_default : allocate default_params default_geometry = Ok default_layout.
Proof. vm_compute. reflexivity. Qed.

Lemma mkfs_default_0 : mkfs default_params 0 0 = Ok default_image.
Proof. vm_compute. reflexivity. Qed.

(** The layout the constants of the source lead to. *)
Lemma default_layout_values :
  root_group_idx default_layout = 0 /\
  root_data_block default_layout = 261 /\
  lf_group_idx default_layout = 0 /\
  lf_data_block default_layout = 262 /\
  length (groups default_layout) = 8%nat /\
  total_free_blocks (groups default_layout) = 63468 /\
  total_free_inodes (groups default_layout) = 16373 /\
  used_blocks (groups default_layout) = 2068 /\
  used_inodes (groups default_layout) = 11.
Proof. vm_compute. repeat split; reflexivity. Qed.

(** C8.  The geometry derived from the constants of the source: 65536
    blocks, 8 groups (the least number of groups of 8192 blocks that cover
    them), 16384 inodes (2048 for each group). *)
Theorem default_geometry_values :
  DISK_SIZE default_params = 64 * 1024 * 1024 /\
  BLOCK_SIZE default_params = 1024 /\
  INODE_SIZE default_params = 128 /\
  BLOCKS_PER_GROUP default_params = 8192 /\
  INODES_PER_GROUP default_params = 2048 /\
  exists geo,
    derive_geometry default_params = Ok geo /\
    BLOCK_COUNT geo = 65536 /\
    GROUP_COUNT geo = 8 /\
    (GROUP_COUNT geo - 1) * BLOCKS_PER_GROUP default_params < BLOCK_COUNT geo
      <= GROUP_COUNT geo * BLOCKS_PER_GROUP default_params /\
    INODE_COUNT geo = 16384 /\
    INODE_COUNT geo = INODES_PER_GROUP default_params * GROUP_COUNT geo.
Proof.
  repeat split; try reflexivity.
  exists default_geometry. repeat split; try reflexivity; simpl; lia.
Qed.

Lemma bitmap_consistency_witness :
  Forall (fun g =>
            count_set (block_bitmap g)
              = BLOCKS_PER_GROUP default_params - free_blocks_count g /\
            count_set (inode_bitmap g)
              = INODES_PER_GROUP default_params - free_inodes_count g)
         (groups default_layout).
Proof.
  apply (bitmap_consistency default_params default_geometry default_layout).
  - reflexivity.
  - vm_compute. reflexivity.
Defined.


(** ** Reading an image that agrees with a known one *)

Lemma file_read_agree (W : Z -> Prop) (f1 f2 : File) (o : Z) (n : nat) :
  agree_outside W f1 f2 ->
  (forall k, (k < n)%nat -> ~ W (o + Z.of_nat k)) ->
  file_read f1 o n = file_read f2 o n.
Proof.
  intros Hag Hout. unfold file_read, file_bytes. f_equal.
  apply list_fmap_ext. intros i k Hk.
  apply lookup_seq in Hk as [-> Hlt]. simpl.
  apply (file_byte_agree W); [assumption|]. apply Hout. assumption.
Qed.

Lemma file_uint_agree (W : Z -> Prop) (f1 f2 : File) (o : Z) (n : nat) :
  agree_outside W f1 f2 ->
  (forall k, (k < n)%nat -> ~ W (o + Z.of_nat k)) ->
  file_uint f1 o n = file_uint f2 o n.
Proof.
  intros Hag Hout. unfold file_uint. rewrite (file_read_agree W f1 f2); auto.
Qed.

(** Every run with valid clock readings succeeds, and its image is
    [default_image] up to the clock bytes. *)
Lemma mkfs_default (t_m t_w : Z) :
  0 <= t_m < 2 ^ 32 -> 0 <= t_w < 2 ^ 32 ->
  exists f, mkfs default_params t_m t_w = Ok f /\
            agree_outside clock_bytes default_image f.
Proof.
  intros Hm Hw. exact (mkfs_times default_params 0 0 t_m t_w default_image Hm Hw
                         mkfs_default_0).
Qed.

Lemma image_deterministic_but_clock_witness :
  fsize default_image = fsize later_image /\
  forall o, ~ (1068 <= o <= 1075) -> file_byte default_image o = file_byte later_image o.
Proof.
  apply (image_deterministic_but_clock default_params 0 0 1700000000 1700000001).
  - vm_compute. reflexivity.
  - vm_compute. reflexivity.
Defined.

(** The clock bytes do differ between these two runs. *)
Lemma clock_bytes_differ :
  file_read default_image 1068 8 = Some [0; 0; 0; 0; 0; 0; 0; 0] /\
  file_read later_image 1068 8 = Some [0; 241; 83; 101; 1; 241; 83; 101].
Proof. split; vm_compute; reflexivity. Qed.

Lemma default_buffers :
  root_inode default_params default_layout = Ok default_root_inode /\
  lf_inode default_params default_layout = Ok default_lf_inode /\
  root_block default_params = Ok default_root_block /\
  lf_block default_params = Ok default_lf_block.
Proof. do 3 (split; [vm_compute; reflexivity|]). vm_compute. reflexivity. Qed.

(** What [default_image] holds in its superblock, in the two inode slots
    and in the two directory blocks. *)
Lemma default_image_contents :
  fsize default_image = 64 * 1024 * 1024 /\
  (* superblock *)
  file_uint default_image (1024 + 56) 2 = Some 0xEF53 /\
  file_uint default_image (1024 + 58) 2 = Some 1 /\
  file_uint default_image (1024 + 60) 2 = Some 1 /\
  file_uint default_image (1024 + 76) 4 = Some 0 /\
  file_uint default_image (1024 + 20) 4 = Some 1 /\
  file_uint default_image (1024 + 24) 4 = Some 0 /\
  file_uint default_image (1024 + 12) 4
    = Some (total_free_blocks (groups default_layout)) /\
  file_uint default_image (1024 + 16) 4
    = Some (total_free_inodes (groups default_layout)) /\
  (* inodes *)
  file_read default_image (5 * 1024 + 1 * 128) 128 = Some default_root_inode /\
  file_read default_image (5 * 1024 + 10 * 128) 128 = Some default_lf_inode /\
  (* directory blocks *)
  file_read default_image (261 * 1024) 1024 = Some default_root_block /\
  file_read default_image (262 * 1024) 1024 = Some default_lf_block.
Proof.
  do 12 (split; [vm_compute; reflexivity|]). vm_compute. reflexivity.
Qed.

(** C6.  The superblock in the image, for every pair of clock readings the
    format can hold: magic 0xEF53 at offset 56 of the block at byte 1024,
    state 1 at 58, error policy 1 at 60, revision 0 at 76, first data block
    1 (offset 20), log block size 0 (offset 24); the free-block and
    free-inode fields at offsets 12 and 16 hold the sums of the per-group
    counters at the end of the allocation passes (63468 and 16373), not the
    provisional 65526 that [create_superblock] packs first. *)
Theorem superblock_fields (t_m t_w : Z) :
  0 <= t_m < 2 ^ 32 -> 0 <= t_w < 2 ^ 32 ->
  exists lay f,
    allocate default_params default_geometry = Ok lay /\
    mkfs default_params t_m t_w = Ok f /\
    file_uint f (1024 + 56) 2 = Some 0xEF53 /\
    file_uint f (1024 + 58) 2 = Some 1 /\
    file_uint f (1024 + 60) 2 = Some 1 /\
    file_uint f (1024 + 76) 4 = Some 0 /\
    file_uint f (1024 + 20) 4 = Some 1 /\
    file_uint f (1024 + 24) 4 = Some 0 /\
    file_uint f (1024 + 12) 4 = Some (total_free_blocks (groups lay)) /\
    file_uint f (1024 + 16) 4 = Some (total_free_inodes (groups lay)) /\
    total_free_blocks (groups lay) = 63468 /\
    total_free_inodes (groups lay) = 16373 /\
    BLOCK_COUNT default_geometry - 1 - GROUP_COUNT default_geometry * 1 - 1 = 65526.
Proof.
  intros Hm Hw. destruct (mkfs_default t_m t_w Hm Hw) as (f & Hf & Hag).
  destruct default_image_contents
    as (_ & H56 & H58 & H60 & H76 & H20 & H24 & H12 & H16 & _).
  destruct default_layout_values as (_ & _ & _ & _ & _ & Hfb & Hfi & _).
  exists default_layout, f.
  split; [exact allocate_default|]. split; [exact Hf|].
  do 8 (split;
        [rewrite <- (file_uint_agree clock_bytes default_image f _ _ Hag);
         [assumption|intros k Hk; unfold clock_bytes; lia]|]).
  split; [exact Hfb|]. split; [exact Hfi|]. reflexivity.
Qed.

Lemma superblock_fields_witness :
  exists lay f,
    allocate default_params default_geometry = Ok lay /\
    mkfs default_params 1700000000 1700000001 = Ok f /\
    file_uint f (1024 + 56) 2 = Some 0xEF53 /\
    file_uint f (1024 + 58) 2 = Some 1 /\
    file_uint f (1024 + 60) 2 = Some 1 /\
    file_uint f (1024 + 76) 4 = Some 0 /\
    file_uint f (1024 + 20) 4 = Some 1 /\
    file_uint f (1024 + 24) 4 = Some 0 /\
    file_uint f (1024 + 12) 4 = Some (total_free_blocks (groups lay)) /\
    file_uint f (1024 + 16) 4 = Some (total_free_inodes (groups lay)) /\
    total_free_blocks (groups lay) = 63468 /\
    total_free_inodes (groups lay) = 16373 /\
    BLOCK_COUNT default_geometry - 1 - GROUP_COUNT default_geometry * 1 - 1 = 65526.
Proof. apply (superblock_fields 1700000000 1700000001); lia. Defined.

(** C7.  The inode records of the root directory and of lost+found, as
    built in memory and as found in the image at their slots of group 0's
    inode table (block 5, slots 1 and 10): mode 0x41ED at offset 0, size
    1024 at 4, link count 3 resp. 2 at 26, sector count 2 at 28, the
    directory's data block (261 resp. 262) at 40, and zero everywhere
    else. *)
Theorem dir_inode_records (t_m t_w : Z) :
  0 <= t_m < 2 ^ 32 -> 0 <= t_w < 2 ^ 32 ->
  exists f ri li,
    mkfs default_params t_m t_w = Ok f /\
    root_inode default_params default_layout = Ok ri /\
    lf_inode default_params default_layout = Ok li /\
    file_read f (5 * 1024 + 1 * 128) 128 = Some ri /\
    file_read f (5 * 1024 + 10 * 128) 128 = Some li /\
    dir_inode_record ri 3 (root_data_block default_layout) /\
    dir_inode_record li 2 (lf_data_block default_layout) /\
    root_data_block default_layout = 261 /\
    lf_data_block default_layout = 262.
Proof.
  intros Hm Hw. destruct (mkfs_default t_m t_w Hm Hw) as (f & Hf & Hag).
  destruct default_image_contents
    as (_ & _ & _ & _ & _ & _ & _ & _ & _ & Hri & Hli & _).
  destruct default_buffers as (Hbri & Hbli & _).
  destruct default_layout_values as (_ & Hrb & _ & Hlb & _).
  exists f, default_root_inode, default_lf_inode.
  split; [exact Hf|]. split; [exact Hbri|]. split; [exact Hbli|].
  split.
  { rewrite <- (file_read_agree clock_bytes default_image f _ _ Hag);
      [assumption|intros k Hk; unfold clock_bytes; lia]. }
  split.
  { rewrite <- (file_read_agree clock_bytes default_image f _ _ Hag);
      [assumption|intros k Hk; unfold clock_bytes; lia]. }
  split.
  { unfold dir_inode_record. do 9 (split; [vm_compute; reflexivity|]).
    vm_compute. reflexivity. }
  split.
  { unfold dir_inode_record. do 9 (split; [vm_compute; reflexivity|]).
    vm_compute. reflexivity. }
  split; assumption.
Qed.

Lemma dir_inode_records_witness :
  exists f ri li,
    mkfs default_params 1700000000 1700000001 = Ok f /\
    root_inode default_params default_layout = Ok ri /\
    lf_inode default_params default_layout = Ok li /\
    file_read f (5 * 1024 + 1 * 128) 128 = Some ri /\
    file_read f (5 * 1024 + 10 * 128) 128 = Some li /\
    dir_inode_record ri 3 (root_data_block default_layout) /\
    dir_inode_record li 2 (lf_data_block default_layout) /\
    root_data_block default_layout = 261 /\
    lf_data_block default_layout = 262.
Proof. apply (dir_inode_records 1700000000 1700000001); lia. Defined.

(** C5.  The two directory blocks, as built in memory and as found in the
    image at blocks 261 and 262.  Read from offset 0 by following
    [rec_len], the root block holds "." (inode 2, rec_len 12), ".." (inode
    2, rec_len 12) and "lost+found" (inode 11, name length 10, rec_len
    1000); the lost+found block holds "." (inode 11, rec_len 12) and ".."
    (inode 2, rec_len 1012).  Every entry has file type 2 (directory), and
    in both blocks the record lengths add up to 1024. *)
Theorem directory_blocks (t_m t_w : Z) :
  0 <= t_m < 2 ^ 32 -> 0 <= t_w < 2 ^ 32 ->
  exists f rb lb,
    mkfs default_params t_m t_w = Ok f /\
    root_block default_params = Ok rb /\
    lf_block default_params = Ok lb /\
    file_read f (261 * 1024) 1024 = Some rb /\
    file_read f (262 * 1024) 1024 = Some lb /\
    length rb = 1024%nat /\ length lb = 1024%nat /\
    read_dir 1024 rb 0 = root_entries /\
    read_dir 1024 lb 0 = lf_entries /\
    rec_len_sum (read_dir 1024 rb 0) = 1024 /\
    rec_len_sum (read_dir 1024 lb 0) = 1024 /\
    Forall (fun e => d_file_type (snd e) = EXT2_FT_DIR)
           (read_dir 1024 rb 0 ++ read_dir 1024 lb 0).
Proof.
  intros Hm Hw. destruct (mkfs_default t_m t_w Hm Hw) as (f & Hf & Hag).
  destruct default_image_contents
    as (_ & _ & _ & _ & _ & _ & _ & _ & _ & _ & _ & Hrb & Hlb).
  destruct default_buffers as (_ & _ & Hbrb & Hblb).
  exists f, default_root_block, default_lf_block.
  split; [exact Hf|]. split; [exact Hbrb|]. split; [exact Hblb|].
  split.
  { rewrite <- (file_read_agree clock_bytes default_image f _ _ Hag);
      [assumption|intros k Hk; unfold clock_bytes; lia]. }
  split.
  { rewrite <- (file_read_agree clock_bytes default_image f _ _ Hag);
      [assumption|intros k Hk; unfold clock_bytes; lia]. }
  assert (read_dir 1024 default_root_block 0 = root_entries) as Hr
    by (vm_compute; reflexivity).
  assert (read_dir 1024 default_lf_block 0 = lf_entries) as Hl
    by (vm_compute; reflexivity).
  rewrite Hr, Hl.
  do 6 (split; [vm_compute; reflexivity|]).
  repeat constructor.
Qed.

Lemma directory_blocks_witness :
  exists f rb lb,
    mkfs default_params 1700000000 1700000001 = Ok f /\
    root_block default_params = Ok rb /\
    lf_block default_params = Ok lb /\
    file_read f (261 * 1024) 1024 = Some rb /\
    file_read f (262 * 1024) 1024 = Some lb /\
    length rb = 1024%nat /\ length lb = 1024%nat /\
    read_dir 1024 rb 0 = root_entries /\
    read_dir 1024 lb 0 = lf_entries /\
    rec_len_sum (read_dir 1024 rb 0) = 1024 /\
    rec_len_sum (read_dir 1024 lb 0) = 1024 /\
    Forall (fun e => d_file_type (snd e) = EXT2_FT_DIR)
           (read_dir 1024 rb 0 ++ read_dir 1024 lb 0).
Proof. apply (directory_blocks 1700000000 1700000001); lia. Defined.

(** * Further properties of the script *)

(** ** Little-endian round trip *)

Lemma le_bytes_S (n : nat) (v : Z) :
  le_bytes (S n) v = v mod 256 :: le_bytes n (v / 256).
Proof.
  unfold le_bytes. rewrite <- cons_seq. rewrite fmap_cons. f_equal.
  - change (2 ^ (8 * Z.of_nat 0)) with 1. rewrite Z.div_1_r. reflexivity.
  - rewrite <- fmap_S_seq, <- list_fmap_compose. apply list_fmap_ext.
    intros i k _. simpl. f_equal.
    rewrite Z.div_div by (try apply Z.pow_pos_nonneg; lia). f_equal.
    replace (8 * Z.of_nat (S k)) with (8 + 8 * Z.of_nat k) by lia.
    rewrite Z.pow_add_r by lia. reflexivity.
Qed.

Lemma le_decode_le_bytes (n : nat) (v : Z) :
  0 <= v < 2 ^ (8 * Z.of_nat n) -> le_decode (le_bytes n v) = v.
Proof.
  revert v. induction n as [|n IH]; intros v Hv.
  - change (2 ^ (8 * Z.of_nat 0)) with 1 in Hv. simpl. lia.
  - rewrite le_bytes_S. simpl. rewrite IH.
    + pose proof (Z.div_mod v 256 ltac:(lia)). lia.
    + replace (8 * Z.of_nat (S n)) with (8 + 8 * Z.of_nat n) in Hv by lia.
      rewrite Z.pow_add_r in Hv by lia. change (2 ^ 8) with 256 in Hv.
      split; [apply Z.div_pos; lia|]. apply Z.div_lt_upper_bound; lia.
Qed.

(** ** Reading a buffer after [pack_into] *)

Lemma lookup_get_bytes (buf : list Z) (o n i : nat) :
  get_bytes buf o n !! i = if decide (i < n)%nat then buf !! (o + i)%nat else None.
Proof.
  unfold get_bytes. destruct (decide (i < n)%nat).
  - rewrite lookup_take_lt, lookup_drop by assumption. reflexivity.
  - apply lookup_take_ge. lia.
Qed.

Lemma get_bytes_ext (b1 b2 : list Z) (o1 o2 n : nat) :
  (forall i, (i < n)%nat -> b1 !! (o1 + i)%nat = b2 !! (o2 + i)%nat) ->
  get_bytes b1 o1 n = get_bytes b2 o2 n.
Proof.
  intros H. apply list_eq. intros i. rewrite !lookup_get_bytes.
  destruct (decide (i < n)%nat); [apply H; assumption|reflexivity].
Qed.

Lemma get_bytes_blit_inside (buf bs : list Z) (off k n : nat) :
  (off + length bs <= length buf)%nat -> (k + n <= length bs)%nat ->
  get_bytes (blit buf off bs) (off + k) n = get_bytes bs k n.
Proof.
  intros Hfit Hin. apply get_bytes_ext. intros i Hi.
  rewrite lookup_blit by assumption.
  destruct (decide _); [f_equal; lia|lia].
Qed.

Lemma get_bytes_blit_outside (buf bs : list Z) (off o n : nat) :
  (off + length bs <= length buf)%nat ->
  (o + n <= off \/ off + length bs <= o)%nat ->
  get_bytes (blit buf off bs) o n = get_bytes buf o n.
Proof.
  intros Hfit Hout. apply get_bytes_ext. intros i Hi.
  rewrite lookup_blit by assumption.
  destruct (decide _); [lia|reflexivity].
Qed.

Lemma get_bytes_all (bs : list Z) : get_bytes bs 0 (length bs) = bs.
Proof. unfold get_bytes. rewrite drop_0. apply take_ge. lia. Qed.

Lemma get_bytes_app_middle (x b y : list Z) :
  get_bytes (x ++ b ++ y) (length x) (length b) = b.
Proof.
  unfold get_bytes. rewrite drop_app_length. apply take_app_length.
Qed.

Lemma get_bytes_replicate_0 (len o n : nat) :
  (o + n <= len)%nat -> get_bytes (replicate len 0) o n = replicate n 0.
Proof.
  intros H. apply list_eq. intros i. rewrite lookup_get_bytes.
  destruct (decide (i < n)%nat).
  - rewrite !lookup_replicate_2 by lia. reflexivity.
  - symmetry. apply lookup_replicate_None. lia.
Qed.

(** Every way [pack_into] can fail is a [struct.error]. *)
Lemma pack_err (fs : list field) (e : pyerr) : pack fs = Err e -> e = StructError.
Proof.
  induction fs as [|f fs IH]; simpl; [discriminate|].
  destruct (pack_field f) as [b|e'] eqn:Ef; simpl.
  - destruct (pack fs) as [bs|e'']; simpl; [discriminate|].
    intros [= <-]. apply IH. reflexivity.
  - intros [= <-]. destruct f as [v|v|v|n s]; simpl in Ef; try discriminate;
      unfold pack_uint in Ef; destruct (_ && _) in Ef; congruence.
Qed.

Lemma pack_into_err (fs : list field) (buf : list Z) (off : nat) (e : pyerr) :
  pack_into fs buf off = Err e -> e = StructError.
Proof.
  unfold pack_into. destruct (pack fs) as [bs|e'] eqn:E; simpl.
  - destruct (_ <=? _)%nat; [discriminate|congruence].
  - intros [= <-]. eapply pack_err, E.
Qed.

Lemma pack_field_at (f : field) (b : list Z) :
  pack_field f = Ok b -> field_at f b 0.
Proof.
  destruct f as [v|v|v|n s]; simpl; intros H;
    try (apply pack_uint_inv in H as [Hv ->];
         split; [|exact Hv];
         unfold get_u8, get_u16, get_u32, get_uint;
         rewrite <- (length_le_bytes _ v) at 1;
         rewrite get_bytes_all; apply le_decode_le_bytes; exact Hv).
  injection H as <-.
  assert (length (take n (s ++ replicate n 0)) = n) as Hlen
    by (rewrite length_take, length_app, length_replicate; lia).
  revert Hlen. generalize (take n (s ++ replicate n 0)). intros b <-.
  apply get_bytes_all.
Qed.

Lemma field_at_ext (f : field) (b1 b2 : list Z) (o1 o2 : nat) :
  get_bytes b1 o1 (field_size f) = get_bytes b2 o2 (field_size f) ->
  field_at f b1 o1 -> field_at f b2 o2.
Proof.
  destruct f as [v|v|v|n s]; simpl;
    unfold get_u8, get_u16, get_u32, get_uint; intros <- H; exact H.
Qed.

(** Reading back what [pack_into] has just packed. *)
Lemma pack_into_fields_gen (fs1 fs : list field) (buf buf' : list Z) (off : nat) :
  pack_into (fs1 ++ fs) buf off = Ok buf' ->
  fields_at fs buf' (off + fields_size fs1).
Proof.
  revert fs1. induction fs as [|f fs IH]; intros fs1 H; [exact I|].
  split.
  - pose proof H as H0. apply pack_into_inv in H0 as (bs & Hbs & Hfit & ->).
    rewrite pack_app in Hbs. inv_bind Hbs as x Hx. inv_bind Hbs as r Hr.
    injection Hbs as <-. simpl in Hr. inv_bind Hr as b Hb. inv_bind Hr as y Hy.
    injection Hr as <-.
    apply pack_length in Hx as Hlx. apply pack_field_length in Hb as Hlb.
    apply (field_at_ext f b _ 0 _); [|apply pack_field_at; assumption].
    rewrite get_bytes_blit_inside.
    + rewrite <- Hlx, <- Hlb, get_bytes_app_middle. apply get_bytes_all.
    + assumption.
    + rewrite !length_app. lia.
  - replace (off + fields_size fs1 + field_size f)%nat
      with (off + fields_size (fs1 ++ [f]))%nat.
    + apply IH. rewrite <- app_assoc. exact H.
    + unfold fields_size. rewrite fmap_app, sum_list_with_app. simpl. lia.
Qed.

Lemma pack_into_fields (fs : list field) (buf buf' : list Z) (off : nat) :
  pack_into fs buf off = Ok buf' -> fields_at fs buf' off.
Proof.
  intros H. pose proof (pack_into_fields_gen [] fs buf buf' off H) as Hf.
  unfold fields_size in Hf. simpl in Hf. rewrite Nat.add_0_r in Hf. exact Hf.
Qed.

(** A later [pack_into] elsewhere leaves the bytes as they are. *)
Lemma pack_into_outside (fs : list field) (buf buf' : list Z) (off o n : nat) :
  pack_into fs buf off = Ok buf' ->
  (o + n <= off \/ off + fields_size fs <= o)%nat ->
  get_bytes buf' o n = get_bytes buf o n.
Proof.
  intros H Hout. apply pack_into_inv in H as (bs & Hbs & Hfit & ->).
  apply pack_length in Hbs. apply get_bytes_blit_outside; lia.
Qed.

Lemma fields_at_ext (fs : list field) (b1 b2 : list Z) (off : nat) :
  (forall o n, (off <= o)%nat -> (o + n <= off + fields_size fs)%nat ->
               get_bytes b2 o n = get_bytes b1 o n) ->
  fields_at fs b1 off -> fields_at fs b2 off.
Proof.
  revert off. induction fs as [|f fs IH]; intros off Hsame; [intros H; exact H|].
  unfold fields_size in *. simpl in *. intros [Hf Hfs]. split.
  - apply (field_at_ext f b1 b2 off off); [|assumption].
    symmetry. apply Hsame; lia.
  - apply IH; [|assumption]. intros o n Ho Hn. apply Hsame; [lia|].
    unfold fmap in Hn. lia.
Qed.

Lemma pack_into_keeps_fields (fs fs0 : list field) (buf buf' : list Z) (off off0 : nat) :
  pack_into fs buf off = Ok buf' ->
  (off0 + fields_size fs0 <= off \/ off + fields_size fs <= off0)%nat ->
  fields_at fs0 buf off0 -> fields_at fs0 buf' off0.
Proof.
  intros H Hout. apply fields_at_ext. intros o n Ho Hn.
  apply (pack_into_outside fs buf buf' off); [assumption|lia].
Qed.

(** ** The group descriptor table (source lines 231-245) *)

Lemma gdt_loop (gs : list BlockGroup) :
  forall (k : nat) (buf buf' : list Z),
    foldM pack_descriptor buf (imap (fun j g => ((k + j)%nat, g)) gs) = Ok buf' ->
    length buf' = length buf /\
    (forall j g, gs !! j = Some g ->
       fields_at [ U32 (block_bitmap_blk g); U32 (inode_bitmap_blk g);
                   U32 (inode_table_blk g); U16 (free_blocks_count g);
                   U16 (free_inodes_count g); U16 (used_dirs_count g); U16 0 ]
                 buf' ((k + j) * 32) /\
       ((k + j) * 32 + 20 <= length buf)%nat) /\
    (forall o n,
       (forall j, (j < length gs)%nat ->
                  (o + n <= (k + j) * 32 \/ (k + j) * 32 + 20 <= o)%nat) ->
       get_bytes buf' o n = get_bytes buf o n).
Proof.
  induction gs as [|g gs IH]; intros k buf buf' H.
  - injection H as <-. split; [reflexivity|]. split; [|reflexivity].
    intros j g Hj. rewrite lookup_nil in Hj. discriminate.
  - rewrite imap_cons in H. simpl in H. inv_bind H as b1 Hb1.
    rewrite (imap_ext _ (fun j g => ((S k + j)%nat, g))) in H
      by (intros j x _; simpl; f_equal; lia).
    apply IH in H as (Hlen & Hfields & Hout).
    pose proof (pack_into_length _ _ _ _ Hb1) as Hlen1.
    split; [congruence|]. split.
    + intros [|j] g' Hj; simpl in Hj.
      * injection Hj as <-. rewrite Nat.add_0_r in Hb1 |- *. split.
        -- apply pack_into_fields in Hb1.
           revert Hb1. apply fields_at_ext. intros o n Ho Hn.
           apply Hout. intros j Hj. unfold fields_size in Hn. simpl in Hn. lia.
        -- apply pack_into_inv in Hb1 as (bs & Hbs & Hfit & _).
           apply pack_length in Hbs. unfold fields_size in Hbs. simpl in Hbs. lia.
      * replace (k + S j)%nat with (S k + j)%nat by lia.
        rewrite <- Hlen1. apply Hfields. assumption.
    + intros o n Hdisj. rewrite Hout.
      * apply (pack_into_outside _ _ _ _ _ _ Hb1).
        specialize (Hdisj 0%nat ltac:(simpl; lia)).
        unfold fields_size. simpl. lia.
      * intros j Hj. specialize (Hdisj (S j) ltac:(simpl; lia)).
        replace (S k + j)%nat with (k + S j)%nat by lia. exact Hdisj.
Qed.

Lemma gdt_loop_err (gs : list (nat * BlockGroup)) (buf : list Z) (e : pyerr) :
  foldM pack_descriptor buf gs = Err e -> e = StructError.
Proof.
  revert buf. induction gs as [|[i g] gs IH]; simpl; intros buf H; [discriminate|].
  destruct (pack_into _ buf (i * 32)) as [b|e'] eqn:E; simpl in H.
  - eapply IH, H.
  - injection H as <-. eapply pack_into_err, E.
Qed.

Lemma make_gdt_inv (p : Params) (gs : list BlockGroup) (gdt : list Z) :
  make_gdt p gs = Ok gdt ->
  length gdt = Z.to_nat (BLOCK_SIZE p) /\
  (forall i g, gs !! i = Some g ->
     read_group_desc gdt i = desc_of_group g /\ desc_in_range g /\
     (i * 32 + 20 <= length gdt)%nat) /\
  (forall k, (k < length gdt)%nat -> ~ in_descriptor (length gs) k ->
             gdt !! k = Some 0).
Proof.
  unfold make_gdt, bytearray. intros H.
  destruct (BLOCK_SIZE p <? 0); [discriminate|]. simpl in H.
  apply (gdt_loop gs 0) in H as (Hlen & Hfields & Hout).
  rewrite length_replicate in Hlen. split; [exact Hlen|]. split.
  - intros i g Hi. destruct (Hfields i g Hi) as (Hf & Hfit).
    simpl in Hf. rewrite length_replicate in Hfit.
    destruct Hf as ((H0 & R0) & (H4 & R4) & (H8 & R8) & (H12 & R12)
                    & (H14 & R14) & (H16 & R16) & (H18 & _) & _).
    split; [|split; [unfold desc_in_range; tauto|lia]].
    unfold read_group_desc, desc_of_group. simpl.
    rewrite <- !Nat.add_assoc in *. simpl in *. congruence.
  - intros k Hk Hnot.
    assert (get_bytes gdt k 1 = get_bytes (replicate (Z.to_nat (BLOCK_SIZE p)) 0) k 1)
      as Hb.
    { apply Hout. intros j Hj.
      destruct (decide (j * 32 <= k < j * 32 + 20)%nat) as [Hin|Hn]; [|simpl; lia].
      exfalso. apply Hnot. exists j. split; assumption. }
    rewrite get_bytes_replicate_0 in Hb by lia.
    apply (f_equal (fun l => l !! 0%nat)) in Hb.
    rewrite lookup_get_bytes in Hb. simpl in Hb.
    rewrite Nat.add_0_r in Hb. exact Hb.
Qed.

(** X1.  The group descriptor table decodes to the groups.  For every list
    of groups, when the table is built (lines 233-243), descriptor [i], read
    by the layout of the struct of lines 75-85, holds the three block
    addresses and the three counters of group [i] and pad 0; the table is
    [BLOCK_SIZE] bytes long and every byte outside the 20 packed bytes of
    the descriptors is zero. *)
Theorem gdt_round_trip (p : Params) (gs : list BlockGroup) (gdt : list Z) :
  make_gdt p gs = Ok gdt ->
  length gdt = Z.to_nat (BLOCK_SIZE p) /\
  (forall i g, gs !! i = Some g -> read_group_desc gdt i = desc_of_group g) /\
  (forall k, (k < length gdt)%nat -> ~ in_descriptor (length gs) k ->
             gdt !! k = Some 0).
Proof.
  intros H. apply make_gdt_inv in H as (Hlen & Hdesc & Hzero).
  split; [exact Hlen|]. split; [|exact Hzero].
  intros i g Hi. apply (Hdesc i g Hi).
Qed.

Lemma gdt_round_trip_witness :
  length default_gdt = Z.to_nat (BLOCK_SIZE default_params) /\
  (forall i g, groups default_layout !! i = Some g ->
               read_group_desc default_gdt i = desc_of_group g) /\
  (forall k, (k < length default_gdt)%nat ->
             ~ in_descriptor (length (groups default_layout)) k ->
             default_gdt !! k = Some 0).
Proof.
  apply (gdt_round_trip default_params (groups default_layout) default_gdt).
  vm_compute. reflexivity.
Defined.

(** X2.  The descriptor table is one block and its counters are 16 bits
    wide: when the block size is not negative and some group has a field
    outside its width, or its descriptor ends beyond the block (with 1 KiB
    blocks, any group from the 33rd on), building the table raises
    [struct.error]. *)
Theorem gdt_struct_error (p : Params) (gs : list BlockGroup) (i : nat)
    (g : BlockGroup) :
  0 <= BLOCK_SIZE p ->
  gs !! i = Some g ->
  ~ desc_in_range g \/ BLOCK_SIZE p < Z.of_nat i * 32 + 20 ->
  make_gdt p gs = Err StructError.
Proof.
  intros HBS Hi Hbad. destruct (make_gdt p gs) as [gdt|e] eqn:E.
  - exfalso. apply make_gdt_inv in E as (Hlen & Hdesc & _).
    destruct (Hdesc i g Hi) as (_ & Hr & Hfit). destruct Hbad as [Hn|Hn].
    + apply Hn, Hr.
    + rewrite Hlen in Hfit. lia.
  - f_equal. unfold make_gdt, bytearray in E.
    destruct (Z.ltb_spec (BLOCK_SIZE p) 0); [lia|]. simpl in E.
    eapply gdt_loop_err, E.
Qed.

Lemma gdt_struct_error_witness :
  make_gdt default_params (default_group <$> range 33) = Err StructError.
Proof.
  apply (gdt_struct_error default_params (default_group <$> range 33) 32
           (default_group 32)).
  - vm_compute. discriminate.
  - vm_compute. reflexivity.
  - right. vm_compute. reflexivity.
Defined.

(** ** The superblock for any constants (source lines 47-73, 215-221) *)

Lemma get_uint_zeros (buf : list Z) (o n : nat) :
  get_bytes buf o n = replicate n 0 -> get_uint buf o n = 0.
Proof.
  unfold get_uint. intros ->. induction n as [|n IH]; simpl; [reflexivity|].
  rewrite IH. reflexivity.
Qed.

Lemma bytearray_inv (n : Z) (buf : list Z) :
  bytearray n = Ok buf -> 0 <= n /\ buf = replicate (Z.to_nat n) 0.
Proof.
  unfold bytearray. destruct (Z.ltb_spec n 0); [discriminate|].
  intros [= <-]. split; [assumption|reflexivity].
Qed.

Lemma make_sb_data_inv (p : Params) (geo : Geometry) (lay : Layout)
    (t_m t_w : Z) (sb : list Z) :
  make_sb_data p geo lay t_m t_w = Ok sb ->
  length sb = 1024%nat /\
  fields_at [ U32 (INODE_COUNT geo); U32 (BLOCK_COUNT geo); U32 0 ] sb 0 /\
  fields_at [ U32 (total_free_blocks (groups lay));
              U32 (total_free_inodes (groups lay)) ] sb 12 /\
  fields_at [ U32 1; U32 0; U32 0; U32 (BLOCKS_PER_GROUP p);
              U32 (BLOCKS_PER_GROUP p); U32 (INODES_PER_GROUP p);
              U32 t_m; U32 t_w; U16 0; U16 20; U16 0xEF53; U16 1; U16 1 ] sb 20 /\
  get_bytes sb 62 14 = replicate 14 0 /\
  fields_at [ U32 0 ] sb 76 /\
  get_bytes sb 80 944 = replicate 944 0 /\
  0 <= BLOCK_COUNT geo - 1 - GROUP_COUNT geo * 1 - 1 < 2 ^ 32 /\
  0 <= INODE_COUNT geo - 11 < 2 ^ 32.
Proof.
  unfold make_sb_data, create_superblock. intros H.
  inv_bind H as sb5 H5. inv_bind H as sb6 H6. rename H into H7.
  inv_bind H5 as sb0 H0. inv_bind H5 as sb1 H1. inv_bind H5 as sb2 H2.
  inv_bind H5 as sb3 H3. inv_bind H5 as sb4 H4.
  apply bytearray_inv in H0 as [_ ->]. change (Z.to_nat 1024) with 1024%nat in *.
  assert (forall o n,
            (o + n <= 12 \/ 20 <= o)%nat -> (o + n <= 56 \/ 62 <= o)%nat ->
            (o + n <= 76 \/ 80 <= o)%nat ->
            get_bytes sb o n = get_bytes sb1 o n) as Hkeep.
  { intros o n Ha Hb Hc.
    rewrite (pack_into_outside _ _ _ _ o n H7) by (unfold fields_size; simpl; lia).
    rewrite (pack_into_outside _ _ _ _ o n H6) by (unfold fields_size; simpl; lia).
    rewrite (pack_into_outside _ _ _ _ o n H5) by (unfold fields_size; simpl; lia).
    rewrite (pack_into_outside _ _ _ _ o n H4) by (unfold fields_size; simpl; lia).
    rewrite (pack_into_outside _ _ _ _ o n H3) by (unfold fields_size; simpl; lia).
    rewrite (pack_into_outside _ _ _ _ o n H2) by (unfold fields_size; simpl; lia).
    reflexivity. }
  assert (forall o n, (56 <= o)%nat -> (o + n <= 1024)%nat ->
                      get_bytes sb1 o n = replicate n 0) as Hzero.
  { intros o n Ho Hn.
    rewrite (pack_into_outside _ _ _ _ o n H1) by (unfold fields_size; simpl; lia).
    apply get_bytes_replicate_0. assumption. }
  pose proof (pack_into_fields _ _ _ _ H1) as F1.
  pose proof (pack_into_fields _ _ _ _ H2) as F2.
  pose proof (pack_into_fields _ _ _ _ H3) as F3.
  pose proof (pack_into_fields _ _ _ _ H4) as F4.
  pose proof (pack_into_fields _ _ _ _ H5) as F5.
  pose proof (pack_into_fields _ _ _ _ H6) as F6.
  pose proof (pack_into_fields _ _ _ _ H7) as F7.
  apply (pack_into_keeps_fields _ _ _ _ _ _ H3) in F2;
    [|unfold fields_size; simpl; lia].
  apply (pack_into_keeps_fields _ _ _ _ _ _ H4) in F2, F3;
    try (unfold fields_size; simpl; lia).
  apply (pack_into_keeps_fields _ _ _ _ _ _ H5) in F2, F3, F4;
    try (unfold fields_size; simpl; lia).
  apply (pack_into_keeps_fields _ _ _ _ _ _ H6) in F2, F3, F4, F5;
    try (unfold fields_size; simpl; lia).
  apply (pack_into_keeps_fields _ _ _ _ _ _ H7) in F2, F3, F4, F5, F6;
    try (unfold fields_size; simpl; lia).
  simpl in F1, F2, F3, F4, F5, F6, F7.
  destruct F1 as (A0 & A4 & A8 & A12 & A16 & A20 & A24 & A28 & A32 & A36 & A40
                  & A44 & A48 & A52 & A54 & _).
  assert (forall f o, (o + field_size f <= 12 \/ 20 <= o)%nat ->
                      (o + field_size f <= 56)%nat ->
                      field_at f sb1 o -> field_at f sb o) as Hmove.
  { intros f o Ha Hb. apply field_at_ext. symmetry. apply Hkeep; lia. }
  split.
  { rewrite (pack_into_length _ _ _ _ H7), (pack_into_length _ _ _ _ H6),
      (pack_into_length _ _ _ _ H5), (pack_into_length _ _ _ _ H4),
      (pack_into_length _ _ _ _ H3), (pack_into_length _ _ _ _ H2),
      (pack_into_length _ _ _ _ H1). apply length_replicate. }
  split.
  { split; [apply Hmove; [simpl; lia|simpl; lia|exact A0]|].
    split; [apply Hmove; [simpl; lia|simpl; lia|exact A4]|].
    split; [apply Hmove; [simpl; lia|simpl; lia|exact A8]|exact I]. }
  split.
  { simpl. split; [apply F6|]. split; [apply F7|exact I]. }
  split.
  { split; [apply Hmove; [simpl; lia|simpl; lia|exact A20]|].
    split; [apply Hmove; [simpl; lia|simpl; lia|exact A24]|].
    split; [apply Hmove; [simpl; lia|simpl; lia|exact A28]|].
    split; [apply Hmove; [simpl; lia|simpl; lia|exact A32]|].
    split; [apply Hmove; [simpl; lia|simpl; lia|exact A36]|].
    split; [apply Hmove; [simpl; lia|simpl; lia|exact A40]|].
    split; [apply Hmove; [simpl; lia|simpl; lia|exact A44]|].
    split; [apply Hmove; [simpl; lia|simpl; lia|exact A48]|].
    split; [apply Hmove; [simpl; lia|simpl; lia|exact A52]|].
    split; [apply Hmove; [simpl; lia|simpl; lia|exact A54]|].
    split; [apply F2|]. split; [apply F3|]. split; [apply F4|exact I]. }
  split.
  { rewrite Hkeep by lia. apply Hzero; lia. }
  split.
  { simpl. split; [apply F5|exact I]. }
  split.
  { rewrite Hkeep by lia. apply Hzero; lia. }
  split; [apply A12|apply A16].
Qed.

Lemma get_bytes_zeros_sub (buf : list Z) (o n o' n' : nat) :
  get_bytes buf o n = replicate n 0 ->
  (o <= o')%nat -> (o' + n' <= o + n)%nat ->
  get_bytes buf o' n' = replicate n' 0.
Proof.
  intros H Ho Hn. apply list_eq. intros i. rewrite lookup_get_bytes.
  destruct (decide (i < n')%nat) as [Hi|Hi].
  - apply (f_equal (fun l => l !! (o' - o + i)%nat)) in H.
    rewrite lookup_get_bytes in H. destruct (decide _) as [_|Hc]; [|lia].
    rewrite lookup_replicate_2 in H by lia.
    rewrite lookup_replicate_2 by lia. rewrite <- H. f_equal. lia.
  - symmetry. apply lookup_replicate_None. lia.
Qed.

(** X3.  The superblock decodes to the values meant, for any constants.
    When the superblock is built and patched (lines 47-73 and 215-221), the
    buffer has 1024 bytes and, read by the struct of lines 18-45, holds the
    inode and block counts, the summed free counts (not the provisional
    ones), first data block 1, log sizes 0, blocks, fragments and inodes per
    group, the two clock readings, mount counts 0 and 20, magic 0xEF53,
    state 1, error policy 1, revision 0, and zero in every other field and
    in every byte after the struct. *)
Theorem superblock_round_trip (p : Params) (geo : Geometry) (lay : Layout)
    (t_m t_w : Z) (sb : list Z) :
  make_sb_data p geo lay t_m t_w = Ok sb ->
  length sb = 1024%nat /\
  read_superblock sb =
    {| s_inodes_count := INODE_COUNT geo;
       s_blocks_count := BLOCK_COUNT geo;
       s_r_blocks_count := 0;
       s_free_blocks_count := total_free_blocks (groups lay);
       s_free_inodes_count := total_free_inodes (groups lay);
       s_first_data_block := 1;
       s_log_block_size := 0;
       s_log_frag_size := 0;
       s_blocks_per_group := BLOCKS_PER_GROUP p;
       s_frags_per_group := BLOCKS_PER_GROUP p;
       s_inodes_per_group := INODES_PER_GROUP p;
       s_mtime := t_m;
       s_wtime := t_w;
       s_mnt_count := 0;
       s_max_mnt_count := 20;
       s_magic := 0xEF53;
       s_state := 1;
       s_errors := 1;
       s_minor_rev_level := 0;
       s_lastcheck := 0;
       s_checkinterval := 0;
       s_creator_os := 0;
       s_rev_level := 0;
       s_def_resuid := 0;
       s_def_resgid := 0 |} /\
  get_bytes sb 84 940 = replicate 940 0.
Proof.
  intros H.
  apply make_sb_data_inv in H as (Hlen & F0 & F12 & F20 & Z62 & F76 & Z80 & _).
  simpl in F0, F12, F20, F76.
  destruct F0 as ((E0 & _) & (E4 & _) & (E8 & _) & _).
  destruct F12 as ((E12 & _) & (E16 & _) & _).
  destruct F20 as ((E20 & _) & (E24 & _) & (E28 & _) & (E32 & _) & (E36 & _)
                   & (E40 & _) & (E44 & _) & (E48 & _) & (E52 & _) & (E54 & _)
                   & (E56 & _) & (E58 & _) & (E60 & _) & _).
  destruct F76 as ((E76 & _) & _).
  assert (get_u16 sb 62 = 0) as E62
    by (apply get_uint_zeros, (get_bytes_zeros_sub sb 62 14); [assumption|lia|lia]).
  assert (get_u32 sb 64 = 0) as E64
    by (apply get_uint_zeros, (get_bytes_zeros_sub sb 62 14); [assumption|lia|lia]).
  assert (get_u32 sb 68 = 0) as E68
    by (apply get_uint_zeros, (get_bytes_zeros_sub sb 62 14); [assumption|lia|lia]).
  assert (get_u32 sb 72 = 0) as E72
    by (apply get_uint_zeros, (get_bytes_zeros_sub sb 62 14); [assumption|lia|lia]).
  assert (get_u16 sb 80 = 0) as E80
    by (apply get_uint_zeros, (get_bytes_zeros_sub sb 80 944); [assumption|lia|lia]).
  assert (get_u16 sb 82 = 0) as E82
    by (apply get_uint_zeros, (get_bytes_zeros_sub sb 80 944); [assumption|lia|lia]).
  split; [exact Hlen|]. split.
  - unfold read_superblock.
    rewrite E0, E4, E8, E12, E16, E20, E24, E28, E32, E36, E40, E44, E48, E52,
      E54, E56, E58, E60, E62, E64, E68, E72, E76, E80, E82. reflexivity.
  - apply (get_bytes_zeros_sub sb 80 944); [assumption|lia|lia].
Qed.

Lemma superblock_round_trip_witness :
  length (default_sb_data 1700000000 1700000001) = 1024%nat /\
  read_superblock (default_sb_data 1700000000 1700000001) =
    {| s_inodes_count := INODE_COUNT default_geometry;
       s_blocks_count := BLOCK_COUNT default_geometry;
       s_r_blocks_count := 0;
       s_free_blocks_count := total_free_blocks (groups default_layout);
       s_free_inodes_count := total_free_inodes (groups default_layout);
       s_first_data_block := 1;
       s_log_block_size := 0;
       s_log_frag_size := 0;
       s_blocks_per_group := BLOCKS_PER_GROUP default_params;
       s_frags_per_group := BLOCKS_PER_GROUP default_params;
       s_inodes_per_group := INODES_PER_GROUP default_params;
       s_mtime := 1700000000;
       s_wtime := 1700000001;
       s_mnt_count := 0;
       s_max_mnt_count := 20;
       s_magic := 0xEF53;
       s_state := 1;
       s_errors := 1;
       s_minor_rev_level := 0;
       s_lastcheck := 0;
       s_checkinterval := 0;
       s_creator_os := 0;
       s_rev_level := 0;
       s_def_resuid := 0;
       s_def_resgid := 0 |} /\
  get_bytes (default_sb_data 1700000000 1700000001) 84 940 = replicate 940 0.
Proof.
  apply (superblock_round_trip default_params default_geometry default_layout
           1700000000 1700000001).
  vm_compute. reflexivity.
Defined.

(** ** Directory blocks for any block size (source lines 291-334) *)

Lemma pack_ok (fs : list field) :
  Forall field_in_range fs -> exists bs, pack fs = Ok bs.
Proof.
  induction 1 as [|f fs Hf _ [bs IH]]; simpl; [eauto|].
  assert (exists b, pack_field f = Ok b) as [b ->].
  { destruct f as [v|v|v|n s]; simpl in *; eauto using pack_uint_ok. }
  rewrite IH. simpl. eauto.
Qed.

Lemma pack_into_ok (fs : list field) (buf : list Z) (off : nat) :
  Forall field_in_range fs -> (off + fields_size fs <= length buf)%nat ->
  exists buf', pack_into fs buf off = Ok buf' /\ length buf' = length buf.
Proof.
  intros Hfs Hfit. destruct (pack_ok fs Hfs) as [bs Hbs].
  pose proof (pack_length _ _ Hbs) as Hlen.
  unfold pack_into. rewrite Hbs. simpl.
  destruct (Nat.leb_spec (off + length bs) (length buf)); [|lia].
  eexists. split; [reflexivity|]. apply length_blit. assumption.
Qed.

Lemma pack_into_fits (fs : list field) (buf buf' : list Z) (off : nat) :
  pack_into fs buf off = Ok buf' -> (off + fields_size fs <= length buf)%nat.
Proof.
  intros H. apply pack_into_inv in H as (bs & Hbs & Hfit & _).
  apply pack_length in Hbs. lia.
Qed.

Lemma read_dir_end (fuel : nat) (blk : list Z) (off : nat) :
  (length blk <= off)%nat -> read_dir fuel blk off = [].
Proof.
  intros H. destruct fuel as [|fuel]; simpl; [reflexivity|].
  destruct (Nat.ltb_spec off (length blk)); [lia|reflexivity].
Qed.

Lemma read_dirent_fields (blk : list Z) (off : nat) (ino rec_len name_len ft : Z)
    (n : nat) (s : list Z) :
  fields_at [U32 ino; U16 rec_len; U8 name_len; U8 ft; Str n s] blk off ->
  Z.to_nat name_len = n -> length s = n ->
  read_dirent blk off = mkDirent ino rec_len name_len ft s.
Proof.
  simpl. intros ((E0 & _) & (E4 & _) & (E6 & _) & (E7 & _) & En & _) Hn Hs.
  unfold read_dirent. rewrite <- !Nat.add_assoc in *. simpl in *.
  rewrite E0, E4, E6, E7, Hn, En. f_equal.
  clear En Hn. subst n. apply take_app_length.
Qed.

Lemma root_block_inv (p : Params) (rb : list Z) :
  root_block p = Ok rb ->
  length rb = Z.to_nat (BLOCK_SIZE p) /\
  42 <= BLOCK_SIZE p < 65560 /\
  read_dirent rb 0 = mkDirent 2 12 1 2 (bytes_of_string ".") /\
  read_dirent rb 12 = mkDirent 2 12 2 2 (bytes_of_string "..") /\
  read_dirent rb 24
    = mkDirent 11 (BLOCK_SIZE p - 24) 10 2 (bytes_of_string "lost+found").
Proof.
  unfold root_block. intros H.
  inv_bind H as rb0 H0. inv_bind H as rb1 H1. inv_bind H as rb2 H2.
  rename H into H3. apply bytearray_inv in H0 as [HBS ->].
  change (0 + 12)%nat with 12%nat in *. change (12 + 12)%nat with 24%nat in *.
  pose proof (pack_into_length _ _ _ _ H1) as L1.
  pose proof (pack_into_length _ _ _ _ H2) as L2.
  pose proof (pack_into_length _ _ _ _ H3) as L3.
  rewrite length_replicate in L1.
  pose proof (pack_into_fits _ _ _ _ H3) as Hfit.
  unfold fields_size in Hfit. simpl in Hfit.
  pose proof (pack_into_fields _ _ _ _ H1) as F1.
  pose proof (pack_into_fields _ _ _ _ H2) as F2.
  pose proof (pack_into_fields _ _ _ _ H3) as F3.
  apply (pack_into_keeps_fields _ _ _ _ _ _ H2) in F1;
    [|unfold fields_size; simpl; lia].
  apply (pack_into_keeps_fields _ _ _ _ _ _ H3) in F1, F2;
    try (unfold fields_size; simpl; lia).
  assert (0 <= BLOCK_SIZE p - 24 < 2 ^ 16) as Hr by apply F3.
  split; [congruence|]. split; [lia|].
  split; [apply (read_dirent_fields _ _ _ _ _ _ _ _ F1); reflexivity|].
  split; [apply (read_dirent_fields _ _ _ _ _ _ _ _ F2); reflexivity|].
  apply (read_dirent_fields _ _ _ _ _ _ _ _ F3); reflexivity.
Qed.

Lemma lf_block_inv (p : Params) (lb : list Z) :
  lf_block p = Ok lb ->
  length lb = Z.to_nat (BLOCK_SIZE p) /\
  22 <= BLOCK_SIZE p < 65548 /\
  read_dirent lb 0 = mkDirent 11 12 1 2 (bytes_of_string ".") /\
  read_dirent lb 12 = mkDirent 2 (BLOCK_SIZE p - 12) 2 2 (bytes_of_string "..").
Proof.
  unfold lf_block. intros H.
  inv_bind H as lb0 H0. inv_bind H as lb1 H1. rename H into H2.
  apply bytearray_inv in H0 as [HBS ->].
  change (0 + 12)%nat with 12%nat in *.
  pose proof (pack_into_length _ _ _ _ H1) as L1.
  pose proof (pack_into_length _ _ _ _ H2) as L2.
  rewrite length_replicate in L1.
  pose proof (pack_into_fits _ _ _ _ H2) as Hfit.
  unfold fields_size in Hfit. simpl in Hfit.
  pose proof (pack_into_fields _ _ _ _ H1) as F1.
  pose proof (pack_into_fields _ _ _ _ H2) as F2.
  apply (pack_into_keeps_fields _ _ _ _ _ _ H2) in F1;
    [|unfold fields_size; simpl; lia].
  assert (0 <= BLOCK_SIZE p - 12 < 2 ^ 16) as Hr by apply F2.
  split; [congruence|]. split; [lia|].
  split; [apply (read_dirent_fields _ _ _ _ _ _ _ _ F1); reflexivity|].
  apply (read_dirent_fields _ _ _ _ _ _ _ _ F2); reflexivity.
Qed.

(** X4.  The directory blocks hold well-formed entries for any block size.
    Whenever the two blocks are built, each is [BLOCK_SIZE] bytes long;
    following [rec_len] from offset 0 the root block reads ".", ".." and
    "lost+found" and the block of lost+found reads "." and "..", whatever
    fuel of at least 3 resp. 2 steps the reader is given; the last entry of
    each block takes up the rest of the block, so the record lengths add up
    to [BLOCK_SIZE]. *)
Theorem directory_blocks_any_block_size (p : Params) (rb lb : list Z) :
  root_block p = Ok rb ->
  lf_block p = Ok lb ->
  length rb = Z.to_nat (BLOCK_SIZE p) /\
  length lb = Z.to_nat (BLOCK_SIZE p) /\
  (forall fuel, (3 <= fuel)%nat -> read_dir fuel rb 0 = root_block_entries p) /\
  (forall fuel, (2 <= fuel)%nat -> read_dir fuel lb 0 = lf_block_entries p) /\
  rec_len_sum (root_block_entries p) = BLOCK_SIZE p /\
  rec_len_sum (lf_block_entries p) = BLOCK_SIZE p.
Proof.
  intros Hrb Hlb.
  apply root_block_inv in Hrb as (Lr & Hr & R0 & R12 & R24).
  apply lf_block_inv in Hlb as (Ll & Hl & L0 & L12).
  split; [exact Lr|]. split; [exact Ll|]. split; [|split; [|split]].
  - intros [|[|[|fuel]]] Hfuel; try lia.
    cbn [read_dir]. rewrite R0. cbn [d_rec_len].
    change (0 + Z.to_nat 12)%nat with 12%nat. rewrite R12. cbn [d_rec_len].
    change (12 + Z.to_nat 12)%nat with 24%nat. rewrite R24. cbn [d_rec_len].
    change (12 <=? 0) with false. cbn iota.
    destruct (Nat.ltb_spec 0 (length rb)); [|lia].
    destruct (Nat.ltb_spec 12 (length rb)); [|lia].
    destruct (Nat.ltb_spec 24 (length rb)); [|lia].
    destruct (Z.leb_spec (BLOCK_SIZE p - 24) 0); [lia|].
    rewrite read_dir_end by lia. reflexivity.
  - intros [|[|fuel]] Hfuel; try lia.
    cbn [read_dir]. rewrite L0. cbn [d_rec_len].
    change (0 + Z.to_nat 12)%nat with 12%nat. rewrite L12. cbn [d_rec_len].
    change (12 <=? 0) with false. cbn iota.
    destruct (Nat.ltb_spec 0 (length lb)); [|lia].
    destruct (Nat.ltb_spec 12 (length lb)); [|lia].
    destruct (Z.leb_spec (BLOCK_SIZE p - 12) 0); [lia|].
    rewrite read_dir_end by lia. reflexivity.
  - unfold rec_len_sum, root_block_entries, sumZ. simpl. lia.
  - unfold rec_len_sum, lf_block_entries, sumZ. simpl. lia.
Qed.

Lemma directory_blocks_any_block_size_witness :
  length default_root_block = Z.to_nat (BLOCK_SIZE default_params) /\
  length default_lf_block = Z.to_nat (BLOCK_SIZE default_params) /\
  (forall fuel, (3 <= fuel)%nat ->
                read_dir fuel default_root_block 0 = root_block_entries default_params) /\
  (forall fuel, (2 <= fuel)%nat ->
                read_dir fuel default_lf_block 0 = lf_block_entries default_params) /\
  rec_len_sum (root_block_entries default_params) = BLOCK_SIZE default_params /\
  rec_len_sum (lf_block_entries default_params) = BLOCK_SIZE default_params.
Proof.
  apply (directory_blocks_any_block_size default_params).
  - vm_compute. reflexivity.
  - vm_compute. reflexivity.
Defined.

(** X5.  The directory blocks can be built exactly for block sizes from 42
    to 65547 bytes: the root block needs 24 + 18 bytes for its three
    entries, and the last record length of lost+found, [BLOCK_SIZE - 12],
    is packed in 16 bits.  Outside this range [struct.pack_into] (or
    [bytearray], for a negative size) raises. *)
Theorem directory_blocks_block_size_range (p : Params) :
  (exists rb lb, root_block p = Ok rb /\ lf_block p = Ok lb) <->
  42 <= BLOCK_SIZE p <= 65547.
Proof.
  split.
  - intros (rb & lb & Hrb & Hlb).
    apply root_block_inv in Hrb as (_ & Hr & _).
    apply lf_block_inv in Hlb as (_ & Hl & _). lia.
  - intros HBS. unfold root_block, lf_block, bytearray.
    destruct (Z.ltb_spec (BLOCK_SIZE p) 0); [lia|]. rewrite !bind_Ok.
    change (0 + 12)%nat with 12%nat. change (12 + 12)%nat with 24%nat.
    set (buf := replicate (Z.to_nat (BLOCK_SIZE p)) 0).
    assert (length buf = Z.to_nat (BLOCK_SIZE p)) as Lb by apply length_replicate.
    edestruct (pack_into_ok
                 [U32 2; U16 12; U8 1; U8 2; Str 1 (bytes_of_string ".")] buf 0)
      as (r1 & E1 & L1);
      [repeat (constructor; [simpl; lia|]); constructor
      |unfold fields_size; simpl; lia|].
    edestruct (pack_into_ok
                 [U32 2; U16 12; U8 2; U8 2; Str 2 (bytes_of_string "..")] r1 12)
      as (r2 & E2 & L2);
      [repeat (constructor; [simpl; lia|]); constructor
      |unfold fields_size; simpl; lia|].
    edestruct (pack_into_ok
                 [U32 11; U16 (BLOCK_SIZE p - Z.of_nat 24); U8 10; U8 2;
                  Str 10 (bytes_of_string "lost+found")] r2 24)
      as (r3 & E3 & L3);
      [repeat (constructor; [simpl; lia|]); constructor
      |unfold fields_size; simpl; lia|].
    edestruct (pack_into_ok
                 [U32 11; U16 12; U8 1; U8 2; Str 1 (bytes_of_string ".")] buf 0)
      as (l1 & F1 & M1);
      [repeat (constructor; [simpl; lia|]); constructor
      |unfold fields_size; simpl; lia|].
    edestruct (pack_into_ok
                 [U32 2; U16 (BLOCK_SIZE p - Z.of_nat 12); U8 2; U8 2;
                  Str 2 (bytes_of_string "..")] l1 12)
      as (l2 & F2 & M2);
      [repeat (constructor; [simpl; lia|]); constructor
      |unfold fields_size; simpl; lia|].
    exists r3, l2. rewrite E1, bind_Ok, E2, bind_Ok, E3, F1, bind_Ok, F2.
    split; reflexivity.
Qed.

Lemma directory_blocks_block_size_range_witness :
  (exists rb lb, root_block default_params = Ok rb /\ lf_block default_params = Ok lb)
  /\ 42 <= BLOCK_SIZE default_params <= 65547.
Proof.
  assert (42 <= BLOCK_SIZE default_params <= 65547) as H by (simpl; lia).
  split; [|exact H].
  apply (proj2 (directory_blocks_block_size_range default_params)). exact H.
Defined.

(** ** Inode records for any constants (source lines 257-289) *)

Lemma inode_packs_inv (p : Params) (links blk : Z) (i0 i1 i2 i3 i4 ino : list Z) :
  bytearray (INODE_SIZE p) = Ok i0 ->
  pack_into [U16 0x41ED] i0 0 = Ok i1 ->
  pack_into [U32 (BLOCK_SIZE p)] i1 4 = Ok i2 ->
  pack_into [U32 2] i2 28 = Ok i3 ->
  pack_into [U16 links] i3 26 = Ok i4 ->
  pack_into [U32 blk] i4 40 = Ok ino ->
  dir_inode_fields p ino links blk /\ 44 <= INODE_SIZE p /\
  0 <= BLOCK_SIZE p < 2 ^ 32 /\ 0 <= blk < 2 ^ 32.
Proof.
  intros H0 H1 H2 H3 H4 H5. apply bytearray_inv in H0 as [HIS ->].
  pose proof (pack_into_length _ _ _ _ H1) as L1.
  pose proof (pack_into_length _ _ _ _ H2) as L2.
  pose proof (pack_into_length _ _ _ _ H3) as L3.
  pose proof (pack_into_length _ _ _ _ H4) as L4.
  pose proof (pack_into_length _ _ _ _ H5) as L5.
  rewrite length_replicate in L1.
  assert (length ino = Z.to_nat (INODE_SIZE p)) as Hlen by congruence.
  pose proof (pack_into_fits _ _ _ _ H5) as Hfit.
  unfold fields_size in Hfit. simpl in Hfit.
  assert (forall o n,
            (o + n <= 0 \/ 2 <= o)%nat -> (o + n <= 4 \/ 8 <= o)%nat ->
            (o + n <= 26 \/ 32 <= o)%nat -> (o + n <= 40 \/ 44 <= o)%nat ->
            (o + n <= length ino)%nat ->
            get_bytes ino o n = replicate n 0) as Hzero.
  { intros o n Ha Hb Hc Hd He.
    rewrite (pack_into_outside _ _ _ _ o n H5) by (unfold fields_size; simpl; lia).
    rewrite (pack_into_outside _ _ _ _ o n H4) by (unfold fields_size; simpl; lia).
    rewrite (pack_into_outside _ _ _ _ o n H3) by (unfold fields_size; simpl; lia).
    rewrite (pack_into_outside _ _ _ _ o n H2) by (unfold fields_size; simpl; lia).
    rewrite (pack_into_outside _ _ _ _ o n H1) by (unfold fields_size; simpl; lia).
    apply get_bytes_replicate_0. lia. }
  pose proof (pack_into_fields _ _ _ _ H1) as F1.
  pose proof (pack_into_fields _ _ _ _ H2) as F2.
  pose proof (pack_into_fields _ _ _ _ H3) as F3.
  pose proof (pack_into_fields _ _ _ _ H4) as F4.
  pose proof (pack_into_fields _ _ _ _ H5) as F5.
  apply (pack_into_keeps_fields _ _ _ _ _ _ H2) in F1;
    [|unfold fields_size; simpl; lia].
  apply (pack_into_keeps_fields _ _ _ _ _ _ H3) in F1, F2;
    try (unfold fields_size; simpl; lia).
  apply (pack_into_keeps_fields _ _ _ _ _ _ H4) in F1, F2, F3;
    try (unfold fields_size; simpl; lia).
  apply (pack_into_keeps_fields _ _ _ _ _ _ H5) in F1, F2, F3, F4;
    try (unfold fields_size; simpl; lia).
  simpl in F1, F2, F3, F4, F5.
  destruct F1 as ((E0 & _) & _), F2 as ((E4 & R4) & _), F3 as ((E28 & _) & _),
    F4 as ((E26 & _) & _), F5 as ((E40 & R40) & _).
  split; [|split; [lia|split; assumption]].
  unfold dir_inode_fields.
  split; [exact Hlen|]. split; [exact E0|].
  split; [apply Hzero; lia|]. split; [exact E4|].
  split; [apply Hzero; lia|]. split; [exact E26|]. split; [exact E28|].
  split; [apply Hzero; lia|]. split; [exact E40|].
  apply Hzero; lia.
Qed.

(** X6.  The two inode records for any constants.  Whenever they are built
    (lines 262-286), each is [INODE_SIZE] bytes long (at least 44) and holds
    mode 0x41ED, size [BLOCK_SIZE], link count 3 for the root directory
    and 2 for lost+found, the directory's data block at offset 40, and zero
    in every other byte; the sector count at offset 28 is 2 whatever the
    block size is, [SECTORS_PER_BLOCK] being unused. *)
Theorem dir_inode_records_any_constants (p : Params) (lay : Layout)
    (ri li : list Z) :
  root_inode p lay = Ok ri ->
  lf_inode p lay = Ok li ->
  dir_inode_fields p ri 3 (root_data_block lay) /\
  dir_inode_fields p li 2 (lf_data_block lay) /\
  44 <= INODE_SIZE p.
Proof.
  unfold root_inode, lf_inode. intros Hr Hl.
  inv_bind Hr as r0 Hr0. inv_bind Hr as r1 Hr1. inv_bind Hr as r2 Hr2.
  inv_bind Hr as r3 Hr3. inv_bind Hr as r4 Hr4.
  inv_bind Hl as l0 Hl0. inv_bind Hl as l1 Hl1. inv_bind Hl as l2 Hl2.
  inv_bind Hl as l3 Hl3. inv_bind Hl as l4 Hl4.
  destruct (inode_packs_inv p _ _ _ _ _ _ _ _ Hr0 Hr1 Hr2 Hr3 Hr4 Hr)
    as (Fr & HIS & _).
  destruct (inode_packs_inv p _ _ _ _ _ _ _ _ Hl0 Hl1 Hl2 Hl3 Hl4 Hl)
    as (Fl & _).
  split; [exact Fr|]. split; [exact Fl|exact HIS].
Qed.

Lemma dir_inode_records_any_constants_witness :
  dir_inode_fields default_params default_root_inode 3
    (root_data_block default_layout) /\
  dir_inode_fields default_params default_lf_inode 2
    (lf_data_block default_layout) /\
  44 <= INODE_SIZE default_params.
Proof.
  apply (dir_inode_records_any_constants default_params default_layout).
  - vm_compute. reflexivity.
  - vm_compute. reflexivity.
Defined.

(** ** What a completed run implies *)

Lemma Forall_lookup_last_fit (gs : list BlockGroup) (gdt : list Z) :
  (forall i g, gs !! i = Some g -> (i * 32 + 20 <= length gdt)%nat) ->
  gs <> [] -> (32 * length gs <= length gdt + 12)%nat.
Proof.
  intros H Hne. destruct (length gs) as [|n] eqn:E.
  - destruct gs; [congruence|discriminate].
  - destruct (lookup_lt_is_Some_2 gs n ltac:(lia)) as [g Hg].
    specialize (H n g Hg). lia.
Qed.

(** X7.  What the script needs in order to finish.  A run that produces an
    image had both clock readings in 32 bits, a disk size that is not
    negative, a block size from 42 to 65547 bytes, a provisional free-block
    count [BLOCK_COUNT - 1 - GROUP_COUNT - 1] that is not negative (although
    line 220 overwrites it), at least 11 inodes, all group descriptors
    inside one block, and every descriptor field inside its width.
    Otherwise the script raises before or while writing. *)
Theorem run_requirements (p : Params) (t_m t_w : Z) (f : File) :
  mkfs p t_m t_w = Ok f ->
  exists geo lay,
    derive_geometry p = Ok geo /\
    allocate p geo = Ok lay /\
    0 <= t_m < 2 ^ 32 /\ 0 <= t_w < 2 ^ 32 /\
    0 <= DISK_SIZE p /\
    42 <= BLOCK_SIZE p <= 65547 /\
    GROUP_COUNT geo + 2 <= BLOCK_COUNT geo /\
    11 <= INODE_COUNT geo /\
    32 * GROUP_COUNT geo <= BLOCK_SIZE p + 12 /\
    Forall desc_in_range (groups lay).
Proof.
  unfold mkfs. intros H.
  inv_bind H as geo Hgeo. inv_bind H as lay Hlay. inv_bind H as sb Hsb.
  exists geo, lay. split; [exact Hgeo|]. split; [exact Hlay|].
  destruct (make_sb_data_valid _ _ _ _ _ _ Hsb) as [Hm Hw].
  split; [exact Hm|]. split; [exact Hw|].
  apply make_sb_data_inv in Hsb as (_ & _ & _ & _ & _ & _ & _ & Hprov & Hino).
  unfold write_image in H. inv_bind H as f0 Hf0. inv_bind H as f1 Hf1.
  unfold write_rest in H. inv_bind H as gdt Hgdt. inv_bind H as f2 Hf2.
  inv_bind H as f3 Hf3. inv_bind H as rb Hrb. inv_bind H as f4 Hf4.
  inv_bind H as lb Hlb.
  split.
  { unfold ftruncate in Hf0. destruct (Z.ltb_spec (DISK_SIZE p) 0);
      [discriminate|assumption]. }
  apply root_block_inv in Hrb as (_ & Hr & _).
  apply lf_block_inv in Hlb as (_ & Hl & _).
  split; [lia|]. split; [lia|]. split; [lia|].
  apply make_gdt_inv in Hgdt as (Hlen & Hdesc & _).
  destruct (allocate_length _ _ _ Hlay) as [Hn Hpos].
  split.
  - assert (groups lay <> []) as Hne
      by (intros E; rewrite E in Hn; simpl in Hn; lia).
    pose proof (Forall_lookup_last_fit (groups lay) gdt
                  (fun i g Hi => proj2 (proj2 (Hdesc i g Hi))) Hne) as Hfit.
    rewrite Hn, Hlen in Hfit. lia.
  - apply Forall_lookup. intros i g Hi. apply (Hdesc i g Hi).
Qed.

Lemma run_requirements_witness :
  exists geo lay,
    derive_geometry default_params = Ok geo /\
    allocate default_params geo = Ok lay /\
    0 <= 0 < 2 ^ 32 /\ 0 <= 0 < 2 ^ 32 /\
    0 <= DISK_SIZE default_params /\
    42 <= BLOCK_SIZE default_params <= 65547 /\
    GROUP_COUNT geo + 2 <= BLOCK_COUNT geo /\
    11 <= INODE_COUNT geo /\
    32 * GROUP_COUNT geo <= BLOCK_SIZE default_params + 12 /\
    Forall desc_in_range (groups lay).
Proof.
  apply (run_requirements default_params 0 0 default_image).
  exact mkfs_default_0.
Defined.

(** ** Geometry for any constants (source lines 12-15) *)

Lemma derive_geometry_ok (p : Params) :
  BLOCK_SIZE p <> 0 -> BLOCKS_PER_GROUP p <> 0 ->
  derive_geometry p
  = Ok {| BLOCK_COUNT := DISK_SIZE p / BLOCK_SIZE p;
          GROUP_COUNT := (DISK_SIZE p / BLOCK_SIZE p + BLOCKS_PER_GROUP p - 1)
                         / BLOCKS_PER_GROUP p;
          INODE_COUNT := INODES_PER_GROUP p
                         * ((DISK_SIZE p / BLOCK_SIZE p + BLOCKS_PER_GROUP p - 1)
                            / BLOCKS_PER_GROUP p) |}.
Proof.
  intros HBS HBPG. unfold derive_geometry, floordiv.
  destruct (Z.eqb_spec (BLOCK_SIZE p) 0); [contradiction|].
  destruct (Z.eqb_spec (BLOCKS_PER_GROUP p) 0); [contradiction|].
  reflexivity.
Qed.

Lemma floor_div_bounds (x d : Z) : 0 < d -> x / d * d <= x < (x / d + 1) * d.
Proof.
  intros Hd. pose proof (Z.div_mod x d ltac:(lia)).
  pose proof (Z.mod_pos_bound x d Hd). nia.
Qed.

Lemma ceil_div_bounds (x d : Z) :
  0 < d -> ((x + d - 1) / d - 1) * d < x <= (x + d - 1) / d * d.
Proof.
  intros Hd. pose proof (floor_div_bounds (x + d - 1) d Hd). nia.
Qed.

(** Whether there is a group at all. *)
Lemma group_count_sign (p : Params) :
  0 < BLOCK_SIZE p -> 0 < BLOCKS_PER_GROUP p ->
  exists geo, derive_geometry p = Ok geo /\
    (DISK_SIZE p < BLOCK_SIZE p -> GROUP_COUNT geo <= 0) /\
    (BLOCK_SIZE p <= DISK_SIZE p -> 1 <= GROUP_COUNT geo).
Proof.
  intros HBS HBPG. eexists. split; [apply derive_geometry_ok; lia|]. simpl.
  pose proof (floor_div_bounds (DISK_SIZE p) (BLOCK_SIZE p) HBS) as Hb.
  pose proof (ceil_div_bounds (DISK_SIZE p / BLOCK_SIZE p) (BLOCKS_PER_GROUP p) HBPG)
    as Hg.
  split; intros Hd.
  - assert (DISK_SIZE p / BLOCK_SIZE p <= 0) by nia. nia.
  - assert (1 <= DISK_SIZE p / BLOCK_SIZE p) by nia. nia.
Qed.

(** X8.  The derived geometry for positive block size and group size:
    [BLOCK_COUNT] is the number of whole blocks in the disk (a trailing
    partial block is dropped), [GROUP_COUNT] is the least number of groups
    of [BLOCKS_PER_GROUP] blocks that cover them, and [INODE_COUNT] is
    [INODES_PER_GROUP] for each group. *)
Theorem geometry_counts (p : Params) :
  0 < BLOCK_SIZE p -> 0 < BLOCKS_PER_GROUP p ->
  exists geo,
    derive_geometry p = Ok geo /\
    BLOCK_COUNT geo * BLOCK_SIZE p <= DISK_SIZE p
      < (BLOCK_COUNT geo + 1) * BLOCK_SIZE p /\
    (GROUP_COUNT geo - 1) * BLOCKS_PER_GROUP p < BLOCK_COUNT geo
      <= GROUP_COUNT geo * BLOCKS_PER_GROUP p /\
    INODE_COUNT geo = INODES_PER_GROUP p * GROUP_COUNT geo.
Proof.
  intros HBS HBPG. eexists. split; [apply derive_geometry_ok; lia|]. simpl.
  split; [apply floor_div_bounds, HBS|].
  split; [apply ceil_div_bounds, HBPG|reflexivity].
Qed.

Lemma geometry_counts_witness :
  exists geo,
    derive_geometry default_params = Ok geo /\
    BLOCK_COUNT geo * BLOCK_SIZE default_params <= DISK_SIZE default_params
      < (BLOCK_COUNT geo + 1) * BLOCK_SIZE default_params /\
    (GROUP_COUNT geo - 1) * BLOCKS_PER_GROUP default_params < BLOCK_COUNT geo
      <= GROUP_COUNT geo * BLOCKS_PER_GROUP default_params /\
    INODE_COUNT geo = INODES_PER_GROUP default_params * GROUP_COUNT geo.
Proof. apply (geometry_counts default_params); simpl; lia. Defined.

(** X9.  Division by zero.  Deriving the geometry fails exactly when the
    block size or the number of blocks per group is zero, and then with
    [ZeroDivisionError]; the script then raises it whatever the clock
    reads, before any group is created. *)
Theorem geometry_zero_division (p : Params) :
  (derive_geometry p = Err ZeroDivisionError <->
   BLOCK_SIZE p = 0 \/ BLOCKS_PER_GROUP p = 0) /\
  (forall e, derive_geometry p = Err e -> e = ZeroDivisionError) /\
  (BLOCK_SIZE p = 0 \/ BLOCKS_PER_GROUP p = 0 ->
   forall t_m t_w, mkfs p t_m t_w = Err ZeroDivisionError).
Proof.
  assert (derive_geometry p = Err ZeroDivisionError <->
          BLOCK_SIZE p = 0 \/ BLOCKS_PER_GROUP p = 0) as Hiff.
  { unfold derive_geometry, floordiv.
    destruct (Z.eqb_spec (BLOCK_SIZE p) 0) as [HB|HB];
      [split; [intros _; left; exact HB|reflexivity]|].
    destruct (Z.eqb_spec (BLOCKS_PER_GROUP p) 0) as [HG|HG];
      [split; [intros _; right; exact HG|reflexivity]|].
    simpl. split; [discriminate|lia]. }
  split; [exact Hiff|]. split.
  - unfold derive_geometry, floordiv. intros e.
    destruct (BLOCK_SIZE p =? 0); [simpl; congruence|].
    destruct (BLOCKS_PER_GROUP p =? 0); simpl; congruence.
  - intros H%Hiff t_m t_w. unfold mkfs. rewrite H. reflexivity.
Qed.

Lemma geometry_zero_division_witness :
  mkfs (mkParams (64 * 1024 * 1024) 0 128 8192 2048) 1700000000 1700000001
    = Err ZeroDivisionError.
Proof.
  apply (proj2 (proj2 (geometry_zero_division
                         (mkParams (64 * 1024 * 1024) 0 128 8192 2048)))).
  left. reflexivity.
Defined.

(** ** A disk without groups *)

(** X10.  A disk smaller than one block has no block group: with a positive
    block size and group size and a non-zero number of inodes per group,
    the group list stays empty and marking the root inode at line 175
    raises [IndexError], whatever the clock reads. *)
Theorem disk_smaller_than_a_block (p : Params) (t_m t_w : Z) :
  0 < BLOCK_SIZE p -> 0 < BLOCKS_PER_GROUP p -> INODES_PER_GROUP p <> 0 ->
  DISK_SIZE p < BLOCK_SIZE p ->
  mkfs p t_m t_w = Err IndexError.
Proof.
  intros HBS HBPG HIPG Hsmall.
  destruct (group_count_sign p HBS HBPG) as (geo & Hgeo & Hnone & _).
  specialize (Hnone Hsmall).
  unfold mkfs. rewrite Hgeo, bind_Ok.
  unfold allocate, before_lf_scan, before_root_scan, make_groups, range.
  rewrite Z2Nat.nonpos by assumption. simpl.
  unfold alloc_dir_inode, floordiv, pymod.
  destruct (Z.eqb_spec (INODES_PER_GROUP p) 0); [contradiction|].
  rewrite !bind_Ok. unfold update_group, getitem, norm_index.
  destruct (0 <=? _); [reflexivity|]. simpl.
  destruct (Z.leb_spec 0 (0 + (root_inode_index - 1) / INODES_PER_GROUP p));
    reflexivity.
Qed.

Lemma disk_smaller_than_a_block_witness :
  mkfs (mkParams 512 1024 128 8192 2048) 1700000000 1700000001 = Err IndexError.
Proof.
  apply (disk_smaller_than_a_block (mkParams 512 1024 128 8192 2048));
    simpl; lia.
Defined.

(** ** The allocation passes, step by step *)

Lemma allocate_trace (p : Params) (geo : Geometry) (lay : Layout) :
  allocate p geo = Ok lay ->
  exists gs0 gs1 gs2 gs3 gs4 gs5,
    make_groups p geo = Ok gs0 /\
    alloc_metadata p gs0 = Ok gs1 /\
    alloc_dir_inode p gs1 root_inode_index = Ok (gs2, root_group_idx lay) /\
    reserve_inodes p gs2 = Ok gs3 /\
    alloc_data_block p gs3 0 = Ok (gs4, root_data_block lay) /\
    alloc_dir_inode p gs4 lf_inode_index = Ok (gs5, lf_group_idx lay) /\
    alloc_data_block p gs5 (lf_group_idx lay) = Ok (groups lay, lf_data_block lay).
Proof.
  unfold allocate, before_lf_scan, before_root_scan. intros H.
  inv_bind H as [[[gs5 ridx] rblk] lidx] H5. inv_bind H as [gs6 lblk] H6.
  injection H as <-. simpl.
  inv_bind H5 as [gs3 ridx'] H3. inv_bind H5 as [gs4 rblk'] H4.
  inv_bind H5 as [gs5' lidx'] H5'. injection H5 as -> -> -> ->.
  inv_bind H3 as gs0 H0. inv_bind H3 as gs1 H1. inv_bind H3 as [gs2 ridx''] H2.
  inv_bind H3 as gs3' H3'. injection H3 as -> ->.
  exists gs0, gs1, gs2, gs3, gs4, gs5. repeat split; assumption.
Qed.

Lemma lookup_range (n : Z) (k : nat) (i : Z) :
  range n !! k = Some i -> i = Z.of_nat k.
Proof.
  rewrite range_seqZ. intros H. apply lookup_seqZ in H as [-> _]. lia.
Qed.

Lemma update_group_keeps (P : nat -> BlockGroup -> Prop) (gs gs' : list BlockGroup)
    (i : Z) (f : BlockGroup -> result BlockGroup) :
  (forall k g g', gs !! k = Some g -> P k g -> f g = Ok g' -> P k g') ->
  groups_inv P gs -> update_group gs i f = Ok gs' -> groups_inv P gs'.
Proof.
  intros Hf Hinv H. apply update_group_inv in H as (n & g & g' & Hg & Hfg & -> & _).
  intros k x Hk. destruct (decide (n = k)) as [->|Hne].
  - apply list_lookup_insert_Some in Hk as [(_ & <- & _)|(? & _)]; [|contradiction].
    apply (Hf k g g' Hg (Hinv k g Hg) Hfg).
  - rewrite list_lookup_insert_ne in Hk by assumption. apply Hinv, Hk.
Qed.

Lemma mark_inode_same_blocks (off : Z) (g g' : BlockGroup) :
  mark_inode off g = Ok g' -> same_blocks g g'.
Proof.
  intros H. apply mark_inode_inv in H as (bm & _ & ->).
  unfold same_blocks. simpl. tauto.
Qed.

(** A property that only looks at what [same_blocks] keeps is kept by the
    inode passes; if setting further bits of the block bitmap does not
    break it, it is kept by the scans too. *)
Lemma same_blocks_inode_stable (P : nat -> BlockGroup -> Prop) :
  (forall k g g', same_blocks g g' -> P k g -> P k g') -> inode_stable P.
Proof.
  intros Hsame. split.
  - intros k g g' off Hm. apply Hsame. eapply mark_inode_same_blocks, Hm.
  - intros k g. apply Hsame. unfold same_blocks. simpl. tauto.
Qed.

Lemma same_blocks_stable (P : nat -> BlockGroup -> Prop) :
  (forall k g g', same_blocks g g' -> P k g -> P k g') ->
  (forall k g g' i, 0 <= i -> block_taken g g' i ->
                    test_bit (block_bitmap g) i = false -> P k g -> P k g') ->
  pass_stable P.
Proof.
  intros Hsame Htake. split; [|exact Htake].
  apply same_blocks_inode_stable, Hsame.
Qed.

Lemma alloc_dir_inode_keeps (P : nat -> BlockGroup -> Prop) (p : Params)
    (gs gs' : list BlockGroup) (i idx : Z) :
  inode_stable P -> groups_inv P gs ->
  alloc_dir_inode p gs i = Ok (gs', idx) -> groups_inv P gs'.
Proof.
  intros (Hmark & Hdir) Hinv H. unfold alloc_dir_inode in H.
  inv_bind H as grp Hgrp. inv_bind H as off Hoff.
  inv_bind H as gs1 H1. inv_bind H as gs2 H2. injection H as <- _.
  revert H2. apply update_group_keeps.
  - intros k g g' _ HP [= <-]. apply Hdir, HP.
  - revert H1. apply update_group_keeps; [|exact Hinv].
    intros k g g' _ HP Hm. apply (Hmark k g g' off Hm HP).
Qed.

Lemma reserve_inodes_keeps (P : nat -> BlockGroup -> Prop) (p : Params)
    (gs gs' : list BlockGroup) :
  inode_stable P -> groups_inv P gs ->
  reserve_inodes p gs = Ok gs' -> groups_inv P gs'.
Proof.
  intros (Hmark & _) Hinv H. unfold reserve_inodes in H.
  apply (foldM_invariant (reserve_inode p) (groups_inv P) _ _ _) in H;
    [exact H| |exact Hinv].
  intros s x s' _ Hs Hstep. unfold reserve_inode in Hstep.
  destruct (x =? 2); [injection Hstep as <-; exact Hs|].
  inv_bind Hstep as grp Hgrp. inv_bind Hstep as off Hoff.
  revert Hstep. apply update_group_keeps; [|exact Hs].
  intros k g g' _ HP Hm. apply (Hmark k g g' off Hm HP).
Qed.

(** What a scan does to the list: nothing, or one unset bit of one group is
    taken and the address recorded lies in that group. *)
Lemma alloc_data_block_cases (p : Params) (gs gs' : list BlockGroup) (idx blk : Z) :
  alloc_data_block p gs idx = Ok (gs', blk) ->
  exists n g, gs !! n = Some g /\ (0 <= idx -> n = Z.to_nat idx) /\
    ((gs' = gs /\ blk = 0) \/
     (exists g' i, gs' = <[n := g']> gs /\ 0 <= i < BLOCKS_PER_GROUP p /\
                   test_bit (block_bitmap g) i = false /\ block_taken g g' i /\
                   blk = id g * BLOCKS_PER_GROUP p + 1 + i)).
Proof.
  unfold alloc_data_block. intros H. inv_bind H as g Hg.
  inv_bind H as [g' b] Hscan. inv_bind H as gs1 Hset. injection H as <- <-.
  apply getitem_inv in Hg as (n & Hn & Hg).
  unfold setitem in Hset. rewrite Hn in Hset. simpl in Hset. injection Hset as <-.
  exists n, g. split; [exact Hg|]. split.
  { intros Hidx. apply (norm_index_nonneg _ _ _ Hidx Hn). }
  apply first_fit_inv in Hscan.
  - destruct Hscan as [[-> ->]|(i & Hi & Hfree & Htaken & ->)].
    + left. split; [apply list_insert_id; exact Hg|reflexivity].
    + right. exists g', i. split; [reflexivity|]. split; [|tauto].
      rewrite range_seqZ in Hi. apply elem_of_seqZ in Hi. lia.
  - apply Forall_forall. intros i Hi. rewrite range_seqZ in Hi.
    apply elem_of_seqZ in Hi. lia.
Qed.

Lemma alloc_data_block_keeps (P : nat -> BlockGroup -> Prop) (p : Params)
    (gs gs' : list BlockGroup) (idx blk : Z) :
  pass_stable P -> groups_inv P gs ->
  alloc_data_block p gs idx = Ok (gs', blk) -> groups_inv P gs'.
Proof.
  intros (_ & Htake) Hinv H.
  apply alloc_data_block_cases in H as (n & g & Hg & _ & Hcases).
  destruct Hcases as [[-> _]|(g' & i & -> & Hi & Hfree & Htaken & _)];
    [exact Hinv|].
  intros k x Hk. destruct (decide (n = k)) as [->|Hne].
  - apply list_lookup_insert_Some in Hk as [(_ & <- & _)|(? & _)]; [|contradiction].
    apply (Htake k g g' i (proj1 Hi) Htaken Hfree (Hinv k g Hg)).
  - rewrite list_lookup_insert_ne in Hk by assumption. apply Hinv, Hk.
Qed.

Lemma placed_stable (p : Params) : pass_stable (placed p).
Proof.
  apply same_blocks_stable.
  - intros k g g' (Hid & Hb & Hi & Ht & Hbm) (P1 & P2 & P3 & P4 & P5).
    unfold placed. rewrite Hid, Hb, Hi, Ht, Hbm. tauto.
  - intros k g g' i Hi Htaken Hfree (P1 & P2 & P3 & P4 & P5).
    destruct (block_taken_spec p g g' i Hi Htaken Hfree)
      as (_ & Hbit & Hother & _ & Hid & _ & _ & _ & Hb & Hib & Ht).
    unfold placed. rewrite Hid, Hb, Hib, Ht.
    split; [exact P1|]. split; [exact P2|]. split; [exact P3|].
    split; [exact P4|]. intros j Hj.
    destruct (Z.eq_dec j i) as [->|Hne]; [exact Hbit|].
    rewrite Hother by lia. apply P5, Hj.
Qed.

(** The groups when the metadata loop has run. *)
Lemma metadata_pass (p : Params) (geo : Geometry) (gs0 gs : list BlockGroup) :
  make_groups p geo = Ok gs0 -> alloc_metadata p gs0 = Ok gs ->
  length gs = Z.to_nat (GROUP_COUNT geo) /\
  groups_inv (fun k g =>
                placed p k g /\
                free_blocks_count g
                  = BLOCKS_PER_GROUP p - metadata_blocks p (Z.of_nat k) /\
                free_inodes_count g = INODES_PER_GROUP p /\
                used_dirs_count g = 0 /\
                marked_below (block_bitmap g) (metadata_blocks p (Z.of_nat k))) gs.
Proof.
  intros H0 H1. split.
  { apply mapM_length in H0, H1.
    rewrite H1, H0, range_seqZ, length_seqZ. reflexivity. }
  intros k g' Hk.
  apply mapM_inv in H0. apply mapM_inv in H1.
  destruct (Forall2_lookup_r _ _ _ _ _ H1 Hk) as (g & Hg & Halloc).
  destruct (Forall2_lookup_r _ _ _ _ _ H0 Hg) as (i & Hi & Hinit).
  apply lookup_range in Hi as ->.
  apply BlockGroup_init_inv in Hinit as [_ ->].
  apply alloc_group_metadata_inv in Halloc as (n & Hn & Hall);
    [|apply marked_below_replicate_0].
  simpl in Hall.
  destruct Hall as (Hb & Hib & Ht & Hm & _ & Hf & Hid & _ & Hfi & Hud).
  assert (Z.max 0 n = table_blocks p) as HT.
  { unfold floordiv in Hn. destruct (BLOCK_SIZE p =? 0); [discriminate|].
    injection Hn as <-. reflexivity. }
  unfold placed, first_metadata_block, metadata_blocks. rewrite <- HT.
  split; [|split; [lia|split; [assumption|split; [assumption|]]]].
  - repeat split; try assumption; try lia.
    intros j Hj. rewrite Hm by lia. apply Z.ltb_lt. lia.
  - replace (reserved_blocks (Z.of_nat k) + 2 + Z.max 0 n)
      with (reserved_blocks (Z.of_nat k) + 1 + 1 + Z.max 0 n) by lia.
    exact Hm.
Qed.

(** X11.  Where the metadata ends up, for any constants.  After all the
    allocation passes there are [GROUP_COUNT] groups; group [k] of the list
    still carries id [k]; its block bitmap, inode bitmap and inode table
    start at three consecutive blocks from the first block of the group
    (block 3 in group 0, after the superblock and the descriptor table;
    [k * BLOCKS_PER_GROUP + 1] elsewhere), and every bit of the group's
    block bitmap that stands for a reserved block, a bitmap or a block of
    the inode table is set. *)
Theorem metadata_placement (p : Params) (geo : Geometry) (lay : Layout) :
  allocate p geo = Ok lay ->
  length (groups lay) = Z.to_nat (GROUP_COUNT geo) /\
  groups_inv (placed p) (groups lay).
Proof.
  intros H.
  destruct (allocate_trace p geo lay H)
    as (gs0 & gs1 & gs2 & gs3 & gs4 & gs5 & H0 & H1 & H2 & H3 & H4 & H5 & H6).
  destruct (metadata_pass p geo gs0 gs1 H0 H1) as [Hlen I1].
  split.
  - destruct (allocate_length p geo lay H) as [Hl _]. exact Hl.
  - pose proof (placed_stable p) as Hbs.
    assert (groups_inv (placed p) gs1) as J1
      by (intros k g Hk; apply (I1 k g Hk)).
    pose proof (alloc_dir_inode_keeps _ _ _ _ _ _ (proj1 Hbs) J1 H2) as J2.
    pose proof (reserve_inodes_keeps _ _ _ _ (proj1 Hbs) J2 H3) as J3.
    pose proof (alloc_data_block_keeps _ _ _ _ _ _ Hbs J3 H4) as J4.
    pose proof (alloc_dir_inode_keeps _ _ _ _ _ _ (proj1 Hbs) J4 H5) as J5.
    apply (alloc_data_block_keeps _ _ _ _ _ _ Hbs J5 H6).
Qed.

Lemma metadata_placement_witness :
  length (groups default_layout) = Z.to_nat (GROUP_COUNT default_geometry) /\
  groups_inv (placed default_params) (groups default_layout).
Proof.
  apply (metadata_placement default_params default_geometry default_layout).
  exact allocate_default.
Defined.

(** ** Data blocks *)

Lemma bit_kept_stable (i : Z) :
  0 <= i ->
  pass_stable (fun k g => k = 0%nat -> test_bit (block_bitmap g) i = true).
Proof.
  intros Hi. apply same_blocks_stable.
  - intros k g g' (_ & _ & _ & _ & Hbm) HP Hk. rewrite Hbm. apply HP, Hk.
  - intros k g g' j Hj Htaken Hfree HP Hk.
    destruct (block_taken_spec default_params g g' j Hj Htaken Hfree)
      as (_ & Hbit & Hother & _).
    destruct (Z.eq_dec i j) as [->|Hne]; [exact Hbit|].
    rewrite Hother by lia. apply HP, Hk.
Qed.

(** A scan of a group whose metadata is placed. *)
Lemma scan_placed (p : Params) (gs gs' : list BlockGroup) (idx blk : Z) :
  groups_inv (placed p) gs -> 0 <= idx ->
  alloc_data_block p gs idx = Ok (gs', blk) ->
  exists g g', gs !! Z.to_nat idx = Some g /\ gs' !! Z.to_nat idx = Some g' /\
    ((gs' = gs /\ blk = 0) \/
     (exists i, gs' = <[Z.to_nat idx := g']> gs /\
                metadata_blocks p idx <= i < BLOCKS_PER_GROUP p /\
                test_bit (block_bitmap g) i = false /\
                test_bit (block_bitmap g') i = true /\
                blk = idx * BLOCKS_PER_GROUP p + 1 + i /\
                inode_table_blk g' + table_blocks p <= blk)).
Proof.
  intros Hinv Hidx H.
  apply alloc_data_block_cases in H as (n & g & Hg & Hn & Hcases).
  specialize (Hn Hidx). subst n.
  destruct (Hinv _ g Hg) as (Pid & _ & _ & Pt & Pbits).
  rewrite Z2Nat.id in Pid, Pt, Pbits by assumption.
  destruct Hcases as [[-> ->]|(g' & i & -> & Hi & Hfree & Htaken & ->)].
  - exists g, g. split; [exact Hg|]. split; [exact Hg|]. left. tauto.
  - destruct (block_taken_spec p g g' i (proj1 Hi) Htaken Hfree)
      as (_ & Hbit & _ & _ & _ & _ & _ & _ & _ & _ & Ht).
    assert (metadata_blocks p idx <= i) as Hlow.
    { destruct (Z.le_gt_cases (metadata_blocks p idx) i) as [?|Hlt]; [assumption|].
      rewrite Pbits in Hfree by lia. discriminate. }
    exists g, g'. split; [exact Hg|]. split.
    { apply list_lookup_insert_eq. eapply lookup_lt_Some, Hg. }
    right. exists i. split; [reflexivity|]. split; [lia|].
    split; [exact Hfree|]. split; [exact Hbit|].
    split; [rewrite Pid; reflexivity|].
    rewrite Ht, Pt, Pid. unfold first_metadata_block, metadata_blocks in *. lia.
Qed.

Lemma alloc_dir_inode_idx (p : Params) (gs gs' : list BlockGroup) (i idx : Z) :
  0 < INODES_PER_GROUP p -> 1 <= i ->
  alloc_dir_inode p gs i = Ok (gs', idx) ->
  idx = (i - 1) / INODES_PER_GROUP p /\ 0 <= idx.
Proof.
  intros Hipg Hi H. unfold alloc_dir_inode, floordiv in H.
  destruct (Z.eqb_spec (INODES_PER_GROUP p) 0); [lia|]. simpl in H.
  inv_bind H as off Hoff. inv_bind H as gs1 H1. inv_bind H as gs2 H2.
  injection H as _ <-. split; [reflexivity|]. apply Z.div_pos; lia.
Qed.

(** X12.  No block is handed out twice.  After the allocation passes (with
    a positive number of inodes per group), a directory data block that a
    scan has found lies in the scanned group, behind the last block of that
    group's inode table, and its bit is set in the group's final block
    bitmap; the block of the root directory is never the block of
    lost+found.  A recorded address of 0 means that the scan found nothing. *)
Theorem data_blocks_placement (p : Params) (geo : Geometry) (lay : Layout) :
  0 < INODES_PER_GROUP p ->
  allocate p geo = Ok lay ->
  0 <= lf_group_idx lay /\
  exists g0 gl,
    groups lay !! 0%nat = Some g0 /\
    groups lay !! Z.to_nat (lf_group_idx lay) = Some gl /\
    (root_data_block lay = 0 \/
     (inode_table_blk g0 + table_blocks p <= root_data_block lay
        <= BLOCKS_PER_GROUP p /\
      test_bit (block_bitmap g0) (root_data_block lay - 1) = true)) /\
    (lf_data_block lay = 0 \/
     (inode_table_blk gl + table_blocks p <= lf_data_block lay
        <= (lf_group_idx lay + 1) * BLOCKS_PER_GROUP p /\
      test_bit (block_bitmap gl)
        (lf_data_block lay - (lf_group_idx lay * BLOCKS_PER_GROUP p + 1)) = true)) /\
    (root_data_block lay <> 0 -> root_data_block lay <> lf_data_block lay).
Proof.
  intros Hipg H.
  destruct (allocate_trace p geo lay H)
    as (gs0 & gs1 & gs2 & gs3 & gs4 & gs5 & H0 & H1 & H2 & H3 & H4 & H5 & H6).
  destruct (metadata_pass p geo gs0 gs1 H0 H1) as [_ I1].
  pose proof (placed_stable p) as Hbs.
  assert (groups_inv (placed p) gs1) as J1
    by (intros k g Hk; apply (I1 k g Hk)).
  pose proof (alloc_dir_inode_keeps _ _ _ _ _ _ (proj1 Hbs) J1 H2) as J2.
  pose proof (reserve_inodes_keeps _ _ _ _ (proj1 Hbs) J2 H3) as J3.
  pose proof (alloc_data_block_keeps _ _ _ _ _ _ Hbs J3 H4) as J4.
  pose proof (alloc_dir_inode_keeps _ _ _ _ _ _ (proj1 Hbs) J4 H5) as J5.
  destruct (alloc_dir_inode_idx p gs4 gs5 lf_inode_index (lf_group_idx lay) Hipg
              ltac:(unfold lf_inode_index; lia) H5) as [_ Hlf].
  split; [exact Hlf|].
  destruct (scan_placed p gs3 gs4 0 (root_data_block lay) J3 ltac:(lia) H4)
    as (r & r' & Hr & Hr' & Hroot).
  destruct (scan_placed p gs5 (groups lay) _ _ J5 Hlf H6)
    as (l & l' & Hl & Hl' & Hlost).
  change (Z.to_nat 0) with 0%nat in *.
  assert (exists g0, groups lay !! 0%nat = Some g0) as [g0 Hg0].
  { apply lookup_lt_is_Some_2.
    rewrite (proj1 (alloc_data_block_length _ _ _ _ _ H6)),
      (alloc_dir_inode_length _ _ _ _ _ H5).
    eapply lookup_lt_Some, Hr'. }
  exists g0, l'. split; [exact Hg0|]. split; [exact Hl'|].
  assert (lf_data_block lay = 0 \/
          inode_table_blk l' + table_blocks p <= lf_data_block lay
            <= (lf_group_idx lay + 1) * BLOCKS_PER_GROUP p /\
          test_bit (block_bitmap l')
            (lf_data_block lay - (lf_group_idx lay * BLOCKS_PER_GROUP p + 1)) = true)
    as Hlfpart.
  { destruct Hlost as [[_ ->]|(j & _ & Hj & _ & Hbit & -> & Hlow)]; [left; reflexivity|].
    right. split; [lia|].
    replace (lf_group_idx lay * BLOCKS_PER_GROUP p + 1 + j
             - (lf_group_idx lay * BLOCKS_PER_GROUP p + 1)) with j by lia.
    exact Hbit. }
  destruct Hroot as [[_ Hr0]|(i & Hgs4 & Hi & Hifree & Hibit & Hrblk & Hilow)].
  { split; [left; exact Hr0|]. split; [exact Hlfpart|]. intros Hne. contradiction. }
  assert (0 <= i) as Hi0.
  { unfold metadata_blocks, reserved_blocks, table_blocks in Hi. simpl in Hi. lia. }
  pose proof (bit_kept_stable i Hi0) as Hkeep.
  assert (groups_inv (fun k g => k = 0%nat -> test_bit (block_bitmap g) i = true) gs4)
    as K4.
  { intros k g Hk ->. rewrite Hr' in Hk. injection Hk as <-. exact Hibit. }
  pose proof (alloc_dir_inode_keeps _ _ _ _ _ _ (proj1 Hkeep) K4 H5) as K5.
  pose proof (alloc_data_block_keeps _ _ _ _ _ _ Hkeep K5 H6) as K6.
  assert (inode_table_blk g0 = inode_table_blk r') as Htbl.
  { destruct (alloc_data_block_keeps _ _ _ _ _ _ Hbs J5 H6 0%nat g0 Hg0)
      as (_ & _ & _ & T0 & _).
    destruct (J4 0%nat r' Hr') as (_ & _ & _ & T1 & _). congruence. }
  split.
  { right. rewrite Hrblk. split; [rewrite Htbl; lia|].
    replace (0 * BLOCKS_PER_GROUP p + 1 + i - 1) with i by lia.
    apply (K6 0%nat g0 Hg0). reflexivity. }
  split; [exact Hlfpart|].
  intros _. rewrite Hrblk.
  destruct Hlost as [[_ ->]|(j & _ & Hj & Hjfree & _ & -> & _)]; [lia|].
  destruct (Z.eq_dec (lf_group_idx lay) 0) as [Hz|Hnz].
  - rewrite Hz in *. change (Z.to_nat 0) with 0%nat in *.
    pose proof (K5 0%nat l Hl eq_refl) as Hset.
    intros Heq. assert (i = j) as -> by lia. congruence.
  - assert (0 <= j) as Hj0.
    { unfold metadata_blocks, reserved_blocks, table_blocks in Hj.
      destruct (lf_group_idx lay =? 0); lia. }
    nia.
Qed.

Lemma data_blocks_placement_witness :
  0 <= lf_group_idx default_layout /\
  exists g0 gl,
    groups default_layout !! 0%nat = Some g0 /\
    groups default_layout !! Z.to_nat (lf_group_idx default_layout) = Some gl /\
    (root_data_block default_layout = 0 \/
     (inode_table_blk g0 + table_blocks default_params
        <= root_data_block default_layout <= BLOCKS_PER_GROUP default_params /\
      test_bit (block_bitmap g0) (root_data_block default_layout - 1) = true)) /\
    (lf_data_block default_layout = 0 \/
     (inode_table_blk gl + table_blocks default_params
        <= lf_data_block default_layout
        <= (lf_group_idx default_layout + 1) * BLOCKS_PER_GROUP default_params /\
      test_bit (block_bitmap gl)
        (lf_data_block default_layout
         - (lf_group_idx default_layout * BLOCKS_PER_GROUP default_params + 1))
        = true)) /\
    (root_data_block default_layout <> 0 ->
     root_data_block default_layout <> lf_data_block default_layout).
Proof.
  apply (data_blocks_placement default_params default_geometry default_layout).
  - simpl. lia.
  - exact allocate_default.
Defined.

(** ** Totals of the counters *)

Lemma sumZ_const {A : Type} (f : A -> Z) (c : Z) (l : list A) :
  (forall k x, l !! k = Some x -> f x = c) ->
  sumZ (f <$> l) = Z.of_nat (length l) * c.
Proof.
  induction l as [|x l IH]; intros H.
  - unfold sumZ. simpl. lia.
  - specialize (IH (fun k y Hk => H (S k) y Hk)).
    pose proof (H 0%nat x eq_refl) as Hx.
    unfold sumZ, fmap in *. simpl in *. lia.
Qed.

Lemma total_free_blocks_after_metadata (p : Params) (gs : list BlockGroup) :
  (forall k g, gs !! k = Some g ->
     free_blocks_count g = BLOCKS_PER_GROUP p - metadata_blocks p (Z.of_nat k)) ->
  total_free_blocks gs
    = Z.of_nat (length gs) * (BLOCKS_PER_GROUP p - 2 - table_blocks p)
      - (if length gs is O then 0 else 2).
Proof.
  intros H. destruct gs as [|g gs]; [unfold total_free_blocks, sumZ; simpl; lia|].
  pose proof (H 0%nat g eq_refl) as Hg.
  assert (sumZ (free_blocks_count <$> gs)
          = Z.of_nat (length gs) * (BLOCKS_PER_GROUP p - 2 - table_blocks p)) as Hs.
  { apply sumZ_const. intros k x Hk. rewrite (H (S k) x Hk).
    unfold metadata_blocks, reserved_blocks.
    destruct (Z.eqb_spec (Z.of_nat (S k)) 0); lia. }
  unfold metadata_blocks, reserved_blocks in Hg. simpl in Hg.
  unfold total_free_blocks, sumZ, fmap in *. simpl length. simpl in *. lia.
Qed.

Lemma update_group_sum (field : BlockGroup -> Z) (d : Z) (gs gs' : list BlockGroup)
    (i : Z) (f : BlockGroup -> result BlockGroup) :
  (forall g g', f g = Ok g' -> field g' = field g + d) ->
  update_group gs i f = Ok gs' ->
  sumZ (field <$> gs') = sumZ (field <$> gs) + d.
Proof.
  intros Hf H. apply update_group_inv in H as (n & g & g' & Hg & Hfg & -> & _).
  rewrite (sumZ_fmap_insert field gs n g g' Hg). rewrite (Hf g g' Hfg). lia.
Qed.

Lemma mark_inode_sums (off : Z) (gs gs' : list BlockGroup) (i : Z) :
  update_group gs i (mark_inode off) = Ok gs' ->
  total_free_blocks gs' = total_free_blocks gs /\
  total_free_inodes gs' = total_free_inodes gs - 1 /\
  total_used_dirs gs' = total_used_dirs gs.
Proof.
  intros H. unfold total_free_blocks, total_free_inodes, total_used_dirs.
  rewrite (update_group_sum free_blocks_count 0 gs gs' i (mark_inode off) ltac:(
             intros g g' (bm & _ & ->)%mark_inode_inv; simpl; lia) H).
  rewrite (update_group_sum free_inodes_count (-1) gs gs' i (mark_inode off) ltac:(
             intros g g' (bm & _ & ->)%mark_inode_inv; simpl; lia) H).
  rewrite (update_group_sum used_dirs_count 0 gs gs' i (mark_inode off) ltac:(
             intros g g' (bm & _ & ->)%mark_inode_inv; simpl; lia) H).
  lia.
Qed.

Lemma alloc_dir_inode_sums (p : Params) (gs gs' : list BlockGroup) (i idx : Z) :
  alloc_dir_inode p gs i = Ok (gs', idx) ->
  total_free_blocks gs' = total_free_blocks gs /\
  total_free_inodes gs' = total_free_inodes gs - 1 /\
  total_used_dirs gs' = total_used_dirs gs + 1.
Proof.
  unfold alloc_dir_inode. intros H.
  inv_bind H as grp Hgrp. inv_bind H as off Hoff.
  inv_bind H as gs1 H1. inv_bind H as gs2 H2. injection H as <- _.
  apply mark_inode_sums in H1 as (B1 & I1 & D1).
  unfold total_free_blocks, total_free_inodes, total_used_dirs in *.
  rewrite (update_group_sum free_blocks_count 0 gs1 gs2 grp
             (fun g => Ok (set_used_dirs_count g (used_dirs_count g + 1))) ltac:(
             intros g g' [= <-]; simpl; lia) H2).
  rewrite (update_group_sum free_inodes_count 0 gs1 gs2 grp
             (fun g => Ok (set_used_dirs_count g (used_dirs_count g + 1))) ltac:(
             intros g g' [= <-]; simpl; lia) H2).
  rewrite (update_group_sum used_dirs_count 1 gs1 gs2 grp
             (fun g => Ok (set_used_dirs_count g (used_dirs_count g + 1))) ltac:(
             intros g g' [= <-]; simpl; lia) H2).
  lia.
Qed.

Lemma reserve_loop_sums (p : Params) (l : list Z) (gs gs' : list BlockGroup) :
  foldM (reserve_inode p) gs l = Ok gs' ->
  total_free_blocks gs' = total_free_blocks gs /\
  total_free_inodes gs'
    = total_free_inodes gs - Z.of_nat (length (filter (fun i => i <> 2) l)) /\
  total_used_dirs gs' = total_used_dirs gs.
Proof.
  revert gs. induction l as [|i l IH]; simpl; intros gs H.
  - injection H as <-. simpl. lia.
  - inv_bind H as gs1 H1. apply IH in H as (B & I & D).
    unfold reserve_inode in H1. rewrite filter_cons.
    destruct (Z.eqb_spec i 2) as [->|Hne].
    + injection H1 as <-. destruct (decide (2 <> 2)); [congruence|].
      split; [exact B|]. split; [exact I|exact D].
    + inv_bind H1 as grp Hgrp. inv_bind H1 as off Hoff.
      apply mark_inode_sums in H1 as (B1 & I1 & D1).
      destruct (decide (i <> 2)); [|contradiction].
      simpl length. lia.
Qed.

Lemma alloc_data_block_sums (p : Params) (gs gs' : list BlockGroup) (idx blk : Z) :
  groups_inv (placed p) gs ->
  alloc_data_block p gs idx = Ok (gs', blk) ->
  total_free_blocks gs' = total_free_blocks gs - (if blk =? 0 then 0 else 1) /\
  total_free_inodes gs' = total_free_inodes gs /\
  total_used_dirs gs' = total_used_dirs gs.
Proof.
  intros Hinv H.
  apply alloc_data_block_cases in H as (n & g & Hg & _ & Hcases).
  destruct Hcases as [[-> ->]|(g' & i & -> & Hi & Hfree & Htaken & ->)].
  - simpl. lia.
  - destruct (block_taken_spec p g g' i (proj1 Hi) Htaken Hfree)
      as (Hfb & _ & _ & _ & _ & _ & Hfi & Hud & _).
    destruct (Hinv n g Hg) as (Hid & _).
    destruct (Z.eqb_spec (id g * BLOCKS_PER_GROUP p + 1 + i) 0) as [E|_]; [nia|].
    unfold total_free_blocks, total_free_inodes, total_used_dirs.
    rewrite (sumZ_fmap_insert free_blocks_count gs n g g' Hg),
      (sumZ_fmap_insert free_inodes_count gs n g g' Hg),
      (sumZ_fmap_insert used_dirs_count gs n g g' Hg). lia.
Qed.

(** X13.  The totals of the counters after the allocation passes, for any
    constants.  The free inodes add up to [INODE_COUNT - 11], which is the
    provisional value [create_superblock] packs at offset 16, so the patch
    of line 221 never changes that field; the directory counters add up to
    2; the free blocks add up to every block of every group minus the two
    reserved blocks, minus two bitmaps and an inode table for each group,
    minus one for each directory whose scan found a block. *)
Theorem counter_totals (p : Params) (geo : Geometry) (lay : Layout) :
  derive_geometry p = Ok geo ->
  allocate p geo = Ok lay ->
  total_free_inodes (groups lay) = INODE_COUNT geo - 11 /\
  total_used_dirs (groups lay) = 2 /\
  total_free_blocks (groups lay)
    = GROUP_COUNT geo * (BLOCKS_PER_GROUP p - 2 - table_blocks p) - 2
      - (if root_data_block lay =? 0 then 0 else 1)
      - (if lf_data_block lay =? 0 then 0 else 1).
Proof.
  intros Hgeo H.
  destruct (allocate_trace p geo lay H)
    as (gs0 & gs1 & gs2 & gs3 & gs4 & gs5 & H0 & H1 & H2 & H3 & H4 & H5 & H6).
  destruct (allocate_length p geo lay H) as [_ Hgc].
  destruct (metadata_pass p geo gs0 gs1 H0 H1) as [Hlen I1].
  pose proof (placed_stable p) as Hbs.
  assert (groups_inv (placed p) gs1) as J1
    by (intros k g Hk; apply (I1 k g Hk)).
  pose proof (alloc_dir_inode_keeps _ _ _ _ _ _ (proj1 Hbs) J1 H2) as J2.
  pose proof (reserve_inodes_keeps _ _ _ _ (proj1 Hbs) J2 H3) as J3.
  pose proof (alloc_data_block_keeps _ _ _ _ _ _ Hbs J3 H4) as J4.
  pose proof (alloc_dir_inode_keeps _ _ _ _ _ _ (proj1 Hbs) J4 H5) as J5.
  assert (total_free_blocks gs1
          = GROUP_COUNT geo * (BLOCKS_PER_GROUP p - 2 - table_blocks p) - 2) as B1.
  { rewrite (total_free_blocks_after_metadata p gs1)
      by (intros k g Hk; apply (I1 k g Hk)).
    rewrite Hlen. destruct (Z.to_nat (GROUP_COUNT geo)) eqn:E; lia. }
  assert (total_free_inodes gs1 = GROUP_COUNT geo * INODES_PER_GROUP p) as F1.
  { unfold total_free_inodes.
    rewrite (sumZ_const free_inodes_count (INODES_PER_GROUP p))
      by (intros k g Hk; apply (I1 k g Hk)).
    rewrite Hlen. lia. }
  assert (total_used_dirs gs1 = 0) as D1.
  { unfold total_used_dirs.
    rewrite (sumZ_const used_dirs_count 0) by (intros k g Hk; apply (I1 k g Hk)).
    lia. }
  apply alloc_dir_inode_sums in H2 as (B2 & F2 & D2).
  unfold reserve_inodes in H3. apply reserve_loop_sums in H3 as (B3 & F3 & D3).
  change (Z.of_nat (length (filter (fun i => i <> 2) (range2 1 11)))) with 9 in F3.
  apply (alloc_data_block_sums p _ _ _ _ J3) in H4 as (B4 & F4 & D4).
  apply alloc_dir_inode_sums in H5 as (B5 & F5 & D5).
  apply (alloc_data_block_sums p _ _ _ _ J5) in H6 as (B6 & F6 & D6).
  unfold derive_geometry in Hgeo. inv_bind Hgeo as bc Hbc. inv_bind Hgeo as gc Hgcv.
  injection Hgeo as <-. simpl in *. repeat split; lia.
Qed.

Lemma counter_totals_witness :
  total_free_inodes (groups default_layout) = INODE_COUNT default_geometry - 11 /\
  total_used_dirs (groups default_layout) = 2 /\
  total_free_blocks (groups default_layout)
    = GROUP_COUNT default_geometry
        * (BLOCKS_PER_GROUP default_params - 2 - table_blocks default_params) - 2
      - (if root_data_block default_layout =? 0 then 0 else 1)
      - (if lf_data_block default_layout =? 0 then 0 else 1).
Proof.
  apply (counter_totals default_params default_geometry default_layout).
  - reflexivity.
  - exact allocate_default.
Defined.

(** ** An inode table larger than the block bitmap *)

Lemma mark_block_overflow (g : BlockGroup) (m : Z) :
  8 * Z.of_nat (length (block_bitmap g)) <= m ->
  mark_block g m = Err IndexError.
Proof.
  intros Hm.
  assert (Z.of_nat (length (block_bitmap g)) <= m / 8) as Hq
    by (apply Z.div_le_lower_bound; lia).
  unfold mark_block, ior_byte, getitem, norm_index.
  destruct (Z.leb_spec 0 (m / 8)); [|lia].
  rewrite (proj2 (lookup_ge_None (block_bitmap g) (Z.to_nat (m / 8)))) by lia.
  reflexivity.
Qed.

Lemma mark_table_loop_overflow (p : Params) (cur : Z) (n : nat) :
  forall (k : Z) (g : BlockGroup),
  let rel0 := cur - (id g * BLOCKS_PER_GROUP p + 1) in
  is_bytearray (block_bitmap g) ->
  0 <= rel0 + k ->
  rel0 + k <= 8 * Z.of_nat (length (block_bitmap g)) ->
  8 * Z.of_nat (length (block_bitmap g)) < rel0 + k + Z.of_nat n ->
  foldM (mark_table_block p cur) g (seqZ k (Z.of_nat n)) = Err IndexError.
Proof.
  induction n as [|n IH]; intros k g rel0 Hbm Hrel Hstart Hover.
  - exfalso. simpl in Hover. lia.
  - rewrite seqZ_cons, Nat2Z.inj_succ, Z.pred_succ by lia. simpl.
    unfold mark_table_block at 1.
    replace (cur + k - (id g * BLOCKS_PER_GROUP p + 1)) with (rel0 + k)
      by (unfold rel0; lia).
    destruct (Z.le_gt_cases (8 * Z.of_nat (length (block_bitmap g))) (rel0 + k))
      as [Hge|Hlt].
    + rewrite mark_block_overflow by assumption. reflexivity.
    + destruct (mark_block_ok g (rel0 + k) Hbm Hrel Hlt) as (g1 & Hg1 & Hbm1 & Hl1).
      rewrite Hg1. simpl.
      pose proof Hg1 as Hinv. apply mark_block_inv in Hinv as (bm & _ & Heq).
      assert (id g1 = id g) as Hid by (rewrite Heq; reflexivity).
      apply IH; [assumption|rewrite Hid; fold rel0; lia| |].
      * rewrite Hid, Hl1. fold rel0. lia.
      * rewrite Hid, Hl1. fold rel0. lia.
Qed.

Lemma alloc_group_metadata_overflow (p : Params) (g : BlockGroup) :
  is_bytearray (block_bitmap g) ->
  (0 < length (block_bitmap g))%nat ->
  BLOCK_SIZE p <> 0 ->
  8 * Z.of_nat (length (block_bitmap g))
    < reserved_blocks (id g) + 2 + table_blocks p ->
  alloc_group_metadata p g = Err IndexError.
Proof.
  intros Hbm Hpos HBS Hover.
  set (r := reserved_blocks (id g)) in *.
  assert (0 <= r <= 2) as Hr by (unfold r, reserved_blocks; destruct (id g =? 0); lia).
  destruct (reserve_sb_gdt_ok p g Hbm Hpos) as (g0 & Hres & Hbm0 & Hl0 & Hid0).
  fold r in Hres. unfold alloc_group_metadata. rewrite Hres. simpl.
  rewrite Hid0.
  replace (id g * BLOCKS_PER_GROUP p + 1 + r - (id g * BLOCKS_PER_GROUP p + 1))
    with r by lia.
  destruct (mark_block_ok (set_block_bitmap_blk g0 (id g * BLOCKS_PER_GROUP p + 1 + r)) r)
    as (g1 & Hg1 & Hbm1 & Hl1); [assumption|lia|simpl; lia|].
  rewrite Hg1. simpl.
  pose proof Hg1 as Hinv1. apply mark_block_inv in Hinv1 as (bm1 & _ & Heq1).
  assert (id g1 = id g) as Hid1 by (rewrite Heq1; simpl; assumption).
  simpl in Hl1. rewrite Hid1.
  replace (id g * BLOCKS_PER_GROUP p + 1 + r + 1 - (id g * BLOCKS_PER_GROUP p + 1))
    with (r + 1) by lia.
  destruct (mark_block_ok
              (set_inode_bitmap_blk g1 (id g * BLOCKS_PER_GROUP p + 1 + r + 1)) (r + 1))
    as (g2 & Hg2 & Hbm2 & Hl2); [assumption|lia|simpl; lia|].
  rewrite Hg2. simpl.
  pose proof Hg2 as Hinv2. apply mark_block_inv in Hinv2 as (bm2 & _ & Heq2).
  assert (id g2 = id g) as Hid2 by (rewrite Heq2; simpl; assumption).
  simpl in Hl2.
  unfold floordiv. destruct (Z.eqb_spec (BLOCK_SIZE p) 0); [contradiction|].
  simpl. rewrite range_of_nat.
  apply mark_table_loop_overflow; simpl.
  - assumption.
  - rewrite Hid2. lia.
  - rewrite Hid2, Hl2, Hl1, Hl0. lia.
  - rewrite Hid2, Hl2, Hl1, Hl0. unfold table_blocks in Hover. lia.
Qed.

Lemma make_groups_ok (p : Params) (geo : Geometry) :
  0 <= BLOCK_SIZE p ->
  make_groups p geo = Ok (fresh_group p <$> range (GROUP_COUNT geo)).
Proof.
  intros HBS. unfold make_groups.
  induction (range (GROUP_COUNT geo)) as [|i l IH]; simpl; [reflexivity|].
  rewrite IH. unfold BlockGroup_init, bytearray.
  destruct (Z.ltb_spec (BLOCK_SIZE p) 0); [lia|]. reflexivity.
Qed.

(** X14.  The block bitmap of a group is one block.  With a positive block
    size and group size and a disk of at least one block, when the reserved
    blocks, the two bitmaps and the inode table of group 0 need more bits
    than the [8 * BLOCK_SIZE] the bitmap has, the loop of line 164 runs off
    the end of the bitmap and the script raises [IndexError], whatever the
    clock reads. *)
Theorem inode_table_overflow (p : Params) (t_m t_w : Z) :
  0 < BLOCK_SIZE p -> 0 < BLOCKS_PER_GROUP p ->
  BLOCK_SIZE p <= DISK_SIZE p ->
  8 * BLOCK_SIZE p < 4 + INODES_PER_GROUP p * INODE_SIZE p / BLOCK_SIZE p ->
  mkfs p t_m t_w = Err IndexError.
Proof.
  intros HBS HBPG Hdisk Hover.
  destruct (group_count_sign p HBS HBPG) as (geo & Hgeo & _ & Hgc1).
  specialize (Hgc1 Hdisk).
  unfold mkfs. rewrite Hgeo, bind_Ok.
  unfold allocate, before_lf_scan, before_root_scan.
  rewrite make_groups_ok by lia. rewrite bind_Ok.
  rewrite (range_split (GROUP_COUNT geo) 0) by lia. simpl.
  unfold alloc_metadata. cbn [mapM].
  rewrite alloc_group_metadata_overflow; [reflexivity| | | |]; simpl.
  - apply is_bytearray_replicate_0.
  - rewrite length_replicate. lia.
  - lia.
  - rewrite length_replicate. unfold table_blocks.
    change (reserved_blocks 0) with 2. lia.
Qed.

Lemma inode_table_overflow_witness :
  mkfs (mkParams (64 * 1024 * 1024) 1024 128 8192 65536) 1700000000 1700000001
    = Err IndexError.
Proof.
  apply (inode_table_overflow (mkParams (64 * 1024 * 1024) 1024 128 8192 65536)).
  - reflexivity.
  - reflexivity.
  - vm_compute. discriminate.
  - vm_compute. reflexivity.
Defined.

(** ** Descriptors and bitmaps in the image *)

Lemma default_image_bitmaps (k : nat) :
  (k < 8)%nat -> bitmaps_in_image default_image (default_group_at k).
Proof.
  intros Hk. unfold bitmaps_in_image.
  do 8 (destruct k as [|k];
        [split; [vm_compute; discriminate|];
         split; [vm_compute; discriminate|];
         split; vm_compute; reflexivity|]).
  lia.
Qed.

Lemma default_image_gdt :
  make_gdt default_params (groups default_layout) = Ok default_gdt /\
  file_read default_image (2 * 1024) 1024 = Some default_gdt.
Proof. split; vm_compute; reflexivity. Qed.

(** X15.  The image of the source's constants is consistent with itself,
    for every pair of clock readings the format can hold.  The image is
    [DISK_SIZE] bytes long; block 2 holds the descriptor table; for every
    group, the two bitmap blocks its descriptor names hold the group's block
    bitmap and inode bitmap (lines 248-255), and the free counts in the
    descriptor are the numbers of unset bits among the first
    [BLOCKS_PER_GROUP] resp. [INODES_PER_GROUP] bits of those bitmaps. *)
Theorem image_descriptors_and_bitmaps (t_m t_w : Z) :
  0 <= t_m < 2 ^ 32 -> 0 <= t_w < 2 ^ 32 ->
  exists f gdt,
    mkfs default_params t_m t_w = Ok f /\
    allocate default_params default_geometry = Ok default_layout /\
    make_gdt default_params (groups default_layout) = Ok gdt /\
    fsize f = DISK_SIZE default_params /\
    file_read f (2 * 1024) 1024 = Some gdt /\
    forall i g, groups default_layout !! i = Some g ->
      let d := read_group_desc gdt i in
      file_read f (bg_block_bitmap d * 1024) 1024 = Some (block_bitmap g) /\
      file_read f (bg_inode_bitmap d * 1024) 1024 = Some (inode_bitmap g) /\
      bg_free_blocks_count d
        = BLOCKS_PER_GROUP default_params - count_set (block_bitmap g) /\
      bg_free_inodes_count d
        = INODES_PER_GROUP default_params - count_set (inode_bitmap g).
Proof.
  intros Hm Hw. destruct (mkfs_default t_m t_w Hm Hw) as (f & Hf & Hag).
  destruct default_image_gdt as [Hgdt Hread].
  destruct default_image_contents as (Hsize & _).
  destruct default_layout_values as (_ & _ & _ & _ & Hlen & _).
  exists f, default_gdt.
  split; [exact Hf|]. split; [exact allocate_default|]. split; [exact Hgdt|].
  split; [rewrite <- (proj1 Hag); exact Hsize|].
  split.
  { rewrite <- (file_read_agree clock_bytes default_image f _ _ Hag);
      [exact Hread|intros k Hk; unfold clock_bytes; lia]. }
  intros i g Hi d.
  destruct (make_gdt_inv _ _ _ Hgdt) as (_ & Hdesc & _).
  destruct (Hdesc i g Hi) as (Hd & _). unfold d. rewrite Hd.
  cbn [desc_of_group bg_block_bitmap bg_inode_bitmap bg_free_blocks_count
       bg_free_inodes_count].
  assert (i < 8)%nat as Hi8 by (rewrite <- Hlen; eapply lookup_lt_Some, Hi).
  pose proof (default_image_bitmaps i Hi8) as Hbits.
  assert (default_group_at i = g) as Hg
    by (unfold default_group_at; rewrite Hi; reflexivity).
  rewrite Hg in Hbits. destruct Hbits as (Hb3 & Hi3 & Hbb & Hib).
  destruct (alloc_inv_allocate default_params default_geometry default_layout
              eq_refl allocate_default i g Hi) as [[Hcb Hci] _].
  unfold blocks_consistent in Hcb. unfold inodes_consistent in Hci.
  split.
  { rewrite <- (file_read_agree clock_bytes default_image f _ _ Hag);
      [exact Hbb|intros k Hk; unfold clock_bytes; lia]. }
  split.
  { rewrite <- (file_read_agree clock_bytes default_image f _ _ Hag);
      [exact Hib|intros k Hk; unfold clock_bytes; lia]. }
  change (BLOCKS_PER_GROUP default_params) with 8192 in Hcb |- *.
  change (INODES_PER_GROUP default_params) with 2048 in Hci |- *.
  split; lia.
Qed.

Lemma image_descriptors_and_bitmaps_witness :
  exists f gdt,
    mkfs default_params 1700000000 1700000001 = Ok f /\
    allocate default_params default_geometry = Ok default_layout /\
    make_gdt default_params (groups default_layout) = Ok gdt /\
    fsize f = DISK_SIZE default_params /\
    file_read f (2 * 1024) 1024 = Some gdt /\
    forall i g, groups default_layout !! i = Some g ->
      let d := read_group_desc gdt i in
      file_read f (bg_block_bitmap d * 1024) 1024 = Some (block_bitmap g) /\
      file_read f (bg_inode_bitmap d * 1024) 1024 = Some (inode_bitmap g) /\
      bg_free_blocks_count d
        = BLOCKS_PER_GROUP default_params - count_set (block_bitmap g) /\
      bg_free_inodes_count d
        = INODES_PER_GROUP default_params - count_set (inode_bitmap g).
Proof. apply (image_descriptors_and_bitmaps 1700000000 1700000001); lia. Defined.

(** ** Every outcome of a scan *)

Lemma first_fit_outcomes (p : Params) (g g' : BlockGroup) (blk b : Z) (scan : list Z) :
  Forall (fun i => 0 <= i) scan ->
  first_fit p g blk scan = Ok (g', b) ->
  (g' = g /\ b = blk /\
   Forall (fun i => test_bit (block_bitmap g) i = true) scan) \/
  (exists pre i post,
     scan = pre ++ i :: post /\
     Forall (fun j => test_bit (block_bitmap g) j = true) pre /\
     test_bit (block_bitmap g) i = false /\ block_taken g g' i /\
     b = id g * BLOCKS_PER_GROUP p + 1 + i).
Proof.
  induction 1 as [|i scan Hi Hscan IH]; simpl; intros H.
  - injection H as <- <-. left. repeat split. constructor.
  - inv_bind H as byte Hbyte.
    pose proof (getitem_test_bit _ _ _ Hi Hbyte) as Htest.
    destruct (Z.land byte (Z.shiftl 1 (i mod 8)) =? 0) eqn:E.
    + inv_bind H as bm Hbm. injection H as <- <-. right.
      exists [], i, scan. split; [reflexivity|]. split; [constructor|].
      split; [exact Htest|]. split; [|reflexivity].
      exists bm. split; [exact Hbm|reflexivity].
    + destruct (IH H) as [(-> & -> & Hall)|(pre & j & post & -> & Hpre & Hj)].
      * left. repeat split. constructor; assumption.
      * right. exists (i :: pre), j, post. split; [reflexivity|].
        split; [constructor; assumption|exact Hj].
Qed.

(** The scan over [range(BLOCKS_PER_GROUP)]. *)
Lemma first_fit_range_outcomes (p : Params) (g g' : BlockGroup) (b : Z) :
  first_fit p g 0 (range (BLOCKS_PER_GROUP p)) = Ok (g', b) ->
  (g' = g /\ b = 0 /\
   forall i, 0 <= i < BLOCKS_PER_GROUP p -> test_bit (block_bitmap g) i = true) \/
  (exists i,
     0 <= i < BLOCKS_PER_GROUP p /\
     (forall j, 0 <= j < i -> test_bit (block_bitmap g) j = true) /\
     test_bit (block_bitmap g) i = false /\
     block_taken g g' i /\
     b = id g * BLOCKS_PER_GROUP p + 1 + i).
Proof.
  intros Hscan. apply first_fit_outcomes in Hscan.
  - destruct Hscan as [(-> & -> & Hall)
                      |(pre & i & post & Hsplit & Hpre & Hfree & Htaken & ->)].
    + left. split; [reflexivity|]. split; [reflexivity|].
      intros i Hi. rewrite Forall_forall in Hall. apply Hall.
      rewrite range_seqZ. apply elem_of_seqZ. lia.
    + right. exists i. rewrite range_seqZ in Hsplit.
      assert (seqZ 0 (BLOCKS_PER_GROUP p) !! length pre = Some i) as Hi
        by (rewrite Hsplit; apply list_lookup_middle; reflexivity).
      apply lookup_seqZ in Hi as [Hi Hlt].
      split; [lia|]. split; [|repeat split; assumption].
      intros j Hj. rewrite Forall_forall in Hpre. apply Hpre.
      apply (list_elem_of_lookup_2 _ (Z.to_nat j)).
      assert (seqZ 0 (BLOCKS_PER_GROUP p) !! Z.to_nat j = Some j) as Hjl
        by (apply lookup_seqZ; lia).
      rewrite Hsplit, lookup_app_l in Hjl by lia. exact Hjl.
  - apply Forall_forall. intros i Hi. rewrite range_seqZ in Hi.
    apply elem_of_seqZ in Hi. lia.
Qed.

Lemma setitem_getitem_same {A : Type} (l l' : list A) (i : Z) (x : A) :
  getitem l i = Ok x -> setitem l i x = Ok l' -> l' = l.
Proof.
  intros Hget Hset. apply getitem_inv in Hget as (n & Hn & Hx).
  unfold setitem in Hset. rewrite Hn in Hset. simpl in Hset.
  injection Hset as <-. apply list_insert_id. exact Hx.
Qed.

(** X16.  Every outcome of a first-fit scan that does not raise.  Either
    the data-block variable keeps 0 and the groups are unchanged, and then
    every one of the first [BLOCKS_PER_GROUP] bits of the group's block
    bitmap was set; or the scan took a bit [i] below [BLOCKS_PER_GROUP]
    that was unset while every bit below it was set, and recorded
    [id * BLOCKS_PER_GROUP + 1 + i]. *)
Theorem scan_outcomes (p : Params) (gs gs' : list BlockGroup) (idx blk : Z)
    (g : BlockGroup) :
  getitem gs idx = Ok g ->
  alloc_data_block p gs idx = Ok (gs', blk) ->
  (gs' = gs /\ blk = 0 /\
   forall i, 0 <= i < BLOCKS_PER_GROUP p -> test_bit (block_bitmap g) i = true) \/
  (exists i g',
     0 <= i < BLOCKS_PER_GROUP p /\
     (forall j, 0 <= j < i -> test_bit (block_bitmap g) j = true) /\
     test_bit (block_bitmap g) i = false /\
     block_taken g g' i /\
     setitem gs idx g' = Ok gs' /\
     blk = id g * BLOCKS_PER_GROUP p + 1 + i).
Proof.
  intros Hget H. unfold alloc_data_block in H. rewrite Hget, bind_Ok in H.
  inv_bind H as [g' b] Hscan. inv_bind H as gs1 Hset. injection H as <- <-.
  destruct (first_fit_range_outcomes p g g' b Hscan)
    as [(-> & -> & Hall)|(i & Hi & Hlow & Hfree & Htaken & ->)].
  - left. split; [exact (setitem_getitem_same gs gs1 idx g Hget Hset)|].
    split; [reflexivity|exact Hall].
  - right. exists i, g'. repeat split; try assumption; lia.
Qed.

Lemma scan_outcomes_witness :
  (exhausted_groups = exhausted_groups /\ 0 = 0 /\
   forall i, 0 <= i < BLOCKS_PER_GROUP exhausted_params ->
             test_bit (block_bitmap exhausted_group0) i = true) \/
  (exists i g',
     0 <= i < BLOCKS_PER_GROUP exhausted_params /\
     (forall j, 0 <= j < i -> test_bit (block_bitmap exhausted_group0) j = true) /\
     test_bit (block_bitmap exhausted_group0) i = false /\
     block_taken exhausted_group0 g' i /\
     setitem exhausted_groups 0 g' = Ok exhausted_groups /\
     0 = id exhausted_group0 * BLOCKS_PER_GROUP exhausted_params + 1 + i).
Proof.
  apply (scan_outcomes exhausted_params exhausted_groups exhausted_groups 0 0
           exhausted_group0).
  - vm_compute. reflexivity.
  - vm_compute. reflexivity.
Defined.

(** ** The bitmaps stay bytearrays of one block *)

Lemma ior_byte_wf (buf buf' : list Z) (i mask : Z) :
  ior_byte buf i mask = Ok buf' ->
  length buf' = length buf /\ (is_bytearray buf -> is_bytearray buf').
Proof.
  unfold ior_byte. intros H. inv_bind H as b Hb.
  destruct (Z.leb_spec 0 (Z.lor b mask)); [|discriminate].
  destruct (Z.ltb_spec (Z.lor b mask) 256); [|discriminate].
  simpl in H. unfold setitem in H. inv_bind H as n Hn. injection H as <-.
  split; [apply length_insert|]. intros Hbuf. apply Forall_insert; [assumption|lia].
Qed.

Lemma mark_block_wf (p : Params) (g g' : BlockGroup) (rel : Z) :
  mark_block g rel = Ok g' -> bitmaps_wf p g -> bitmaps_wf p g'.
Proof.
  intros H (Lb & Li & Bb & Bi). apply mark_block_inv in H as (bm & Hbm & ->).
  apply ior_byte_wf in Hbm as [Hl Hb]. unfold bitmaps_wf. simpl.
  rewrite Hl. repeat split; auto.
Qed.

Lemma mark_inode_wf (p : Params) (g g' : BlockGroup) (off : Z) :
  mark_inode off g = Ok g' -> bitmaps_wf p g -> bitmaps_wf p g'.
Proof.
  intros H (Lb & Li & Bb & Bi). apply mark_inode_inv in H as (bm & Hbm & ->).
  apply ior_byte_wf in Hbm as [Hl Hb]. unfold bitmaps_wf. simpl.
  rewrite Hl. repeat split; auto.
Qed.

Lemma alloc_group_metadata_wf (p : Params) (g g' : BlockGroup) :
  alloc_group_metadata p g = Ok g' -> bitmaps_wf p g -> bitmaps_wf p g'.
Proof.
  unfold alloc_group_metadata. intros H Hwf.
  inv_bind H as [g0 cur] H0. inv_bind H as g1 H1. inv_bind H as g2 H2.
  inv_bind H as n Hn.
  assert (bitmaps_wf p g0) as W0.
  { unfold reserve_sb_gdt in H0. destruct (id g =? 0).
    - inv_bind H0 as bm1 Hbm1. inv_bind H0 as bm2 Hbm2. injection H0 as <- _.
      apply ior_byte_wf in Hbm1 as [Hl1 Hb1]. apply ior_byte_wf in Hbm2 as [Hl2 Hb2].
      destruct Hwf as (Lb & Li & Bb & Bi). unfold bitmaps_wf. simpl.
      rewrite Hl2, Hl1. repeat split; auto.
    - injection H0 as <- _. exact Hwf. }
  apply (mark_block_wf p) in H1; [|exact W0].
  apply (mark_block_wf p) in H2; [|exact H1].
  revert H. apply foldM_invariant; [|exact H2].
  intros s k s' _ Hs Hstep. unfold mark_table_block in Hstep.
  apply (mark_block_wf p _ _ _ Hstep Hs).
Qed.

Lemma bitmaps_wf_stable (p : Params) : pass_stable (fun _ g => bitmaps_wf p g).
Proof.
  split; [split|].
  - intros _ g g' off H. apply (mark_inode_wf p g g' off H).
  - intros _ g Hwf. exact Hwf.
  - intros _ g g' i _ (bm & Hbm & ->) _ (Lb & Li & Bb & Bi).
    apply ior_byte_wf in Hbm as [Hl Hb]. unfold bitmaps_wf. simpl.
    rewrite Hl. repeat split; auto.
Qed.

Lemma allocate_bitmaps_wf (p : Params) (geo : Geometry) (lay : Layout) :
  allocate p geo = Ok lay -> groups_inv (fun _ g => bitmaps_wf p g) (groups lay).
Proof.
  intros H.
  destruct (allocate_trace p geo lay H)
    as (gs0 & gs1 & gs2 & gs3 & gs4 & gs5 & H0 & H1 & H2 & H3 & H4 & H5 & H6).
  assert (groups_inv (fun _ g => bitmaps_wf p g) gs1) as J1.
  { intros k g' Hk. apply mapM_inv in H0. apply mapM_inv in H1.
    destruct (Forall2_lookup_r _ _ _ _ _ H1 Hk) as (g & Hg & Halloc).
    destruct (Forall2_lookup_r _ _ _ _ _ H0 Hg) as (i & _ & Hinit).
    apply BlockGroup_init_inv in Hinit as [HBS ->].
    apply (alloc_group_metadata_wf p _ _ Halloc).
    unfold bitmaps_wf. simpl. rewrite length_replicate.
    repeat split; apply is_bytearray_replicate_0. }
  pose proof (bitmaps_wf_stable p) as Hst.
  pose proof (alloc_dir_inode_keeps _ _ _ _ _ _ (proj1 Hst) J1 H2) as J2.
  pose proof (reserve_inodes_keeps _ _ _ _ (proj1 Hst) J2 H3) as J3.
  pose proof (alloc_data_block_keeps _ _ _ _ _ _ Hst J3 H4) as J4.
  pose proof (alloc_dir_inode_keeps _ _ _ _ _ _ (proj1 Hst) J4 H5) as J5.
  apply (alloc_data_block_keeps _ _ _ _ _ _ Hst J5 H6).
Qed.

(** X18.  The bitmaps stay bytearrays of one block.  After the allocation
    passes, for any constants, both bitmaps of every group are exactly
    [BLOCK_SIZE] bytes long and every byte is between 0 and 255: no pass
    resizes a bitmap, and each bitmap is written as one whole block. *)
Theorem bitmaps_well_formed (p : Params) (geo : Geometry) (lay : Layout) :
  allocate p geo = Ok lay -> Forall (bitmaps_wf p) (groups lay).
Proof.
  intros H. apply Forall_lookup. intros k g Hk.
  apply (allocate_bitmaps_wf p geo lay H k g Hk).
Qed.

Lemma bitmaps_well_formed_witness :
  Forall (bitmaps_wf default_params) (groups default_layout).
Proof.
  apply (bitmaps_well_formed default_params default_geometry default_layout).
  exact allocate_default.
Defined.

(** ** The size of the image *)

Lemma fwrite_size (f f' : File) (off : Z) (d : list Z) :
  fwrite f off d = Ok f' ->
  0 <= off /\ fsize f <= fsize f' /\
  ((0 < length d)%nat -> off + Z.of_nat (length d) <= fsize f').
Proof.
  unfold fwrite. destruct (Z.ltb_spec off 0); [discriminate|].
  destruct d as [|b d]; intros [= <-].
  - simpl. split; [assumption|]. split; lia.
  - cbn [fsize length]. split; [assumption|]. split; lia.
Qed.

Lemma write_group_size (p : Params) (lay : Layout) (f f' : File) (g : BlockGroup) :
  bitmaps_wf p g -> 0 < BLOCK_SIZE p ->
  write_group p lay f g = Ok f' ->
  fsize f <= fsize f' /\ bitmaps_inside p (fsize f') g.
Proof.
  unfold write_group. intros (Lb & Li & _) HBS H.
  inv_bind H as f1 H1. inv_bind H as f2 H2. inv_bind H as f3 H3.
  apply fwrite_size in H1 as (O1 & S1 & E1). apply fwrite_size in H2 as (O2 & S2 & E2).
  specialize (E1 ltac:(lia)). specialize (E2 ltac:(lia)).
  rewrite Lb in E1. rewrite Li in E2.
  assert (fsize f2 <= fsize f3) as S3.
  { destruct (id g =? root_group_idx lay); [|injection H3 as <-; lia].
    inv_bind H3 as o Ho. inv_bind H3 as ino Hino.
    apply fwrite_size in H3 as (_ & ? & _). assumption. }
  assert (fsize f3 <= fsize f') as S4.
  { destruct (id g =? lf_group_idx lay); [|injection H as <-; lia].
    inv_bind H as o Ho. inv_bind H as ino Hino.
    apply fwrite_size in H as (_ & ? & _). assumption. }
  split; [lia|]. unfold bitmaps_inside. lia.
Qed.

Lemma write_groups_size (p : Params) (lay : Layout) (gs : list BlockGroup) :
  Forall (bitmaps_wf p) gs -> 0 < BLOCK_SIZE p ->
  forall f f', foldM (write_group p lay) f gs = Ok f' ->
  fsize f <= fsize f' /\ Forall (bitmaps_inside p (fsize f')) gs.
Proof.
  intros Hwf HBS. induction Hwf as [|g gs Hg Hgs IH]; simpl; intros f f' H.
  - injection H as <-. split; [lia|constructor].
  - inv_bind H as f1 H1. apply (write_group_size p lay f f1 g Hg HBS) in H1 as [S1 B1].
    apply IH in H as [S2 B2]. split; [lia|]. constructor; [|exact B2].
    unfold bitmaps_inside in *. lia.
Qed.

(** X17.  The image is as long as the furthest write.  A run that finishes
    leaves a file of at least [DISK_SIZE] bytes that contains the
    superblock (bytes 1024..2047), the descriptor table (block 2), both
    bitmap blocks of every group and the two directory blocks: no block
    address is compared with [BLOCK_COUNT], and the file grows beyond
    [DISK_SIZE] when a write ends behind it. *)
Theorem image_size_bounds (p : Params) (t_m t_w : Z) (f : File) :
  mkfs p t_m t_w = Ok f ->
  exists geo lay,
    derive_geometry p = Ok geo /\ allocate p geo = Ok lay /\
    DISK_SIZE p <= fsize f /\
    1024 + 1024 <= fsize f /\
    3 * BLOCK_SIZE p <= fsize f /\
    0 <= root_data_block lay /\
    (root_data_block lay + 1) * BLOCK_SIZE p <= fsize f /\
    0 <= lf_data_block lay /\
    (lf_data_block lay + 1) * BLOCK_SIZE p <= fsize f /\
    Forall (bitmaps_inside p (fsize f)) (groups lay).
Proof.
  unfold mkfs. intros H.
  inv_bind H as geo Hgeo. inv_bind H as lay Hlay. inv_bind H as sb Hsb.
  exists geo, lay. split; [exact Hgeo|]. split; [exact Hlay|].
  apply make_sb_data_inv in Hsb as (Lsb & _).
  unfold write_image in H. inv_bind H as f0 Hf0. inv_bind H as f1 Hf1.
  unfold write_rest in H. inv_bind H as gdt Hgdt. inv_bind H as f2 Hf2.
  inv_bind H as f3 Hf3. inv_bind H as rb Hrb. inv_bind H as f4 Hf4.
  inv_bind H as lb Hlb.
  unfold ftruncate in Hf0. destruct (Z.ltb_spec (DISK_SIZE p) 0); [discriminate|].
  injection Hf0 as <-.
  apply root_block_inv in Hrb as (Lrb & Hr & _).
  apply lf_block_inv in Hlb as (Llb & Hl & _).
  apply make_gdt_inv in Hgdt as (Lgdt & _).
  apply fwrite_size in Hf1 as (_ & S1 & E1). specialize (E1 ltac:(lia)).
  apply fwrite_size in Hf2 as (_ & S2 & E2). specialize (E2 ltac:(lia)).
  apply (write_groups_size p lay (groups lay)) in Hf3 as [S3 B3];
    [|apply Forall_lookup; intros k g Hk;
      apply (allocate_bitmaps_wf p geo lay Hlay k g Hk)|lia].
  apply fwrite_size in Hf4 as (O4 & S4 & E4). specialize (E4 ltac:(lia)).
  apply fwrite_size in H as (O5 & S5 & E5). specialize (E5 ltac:(lia)).
  simpl in S1. rewrite Lsb in E1. rewrite Lgdt in E2. rewrite Lrb in E4.
  rewrite Llb in E5.
  split; [lia|]. split; [lia|]. split; [lia|]. split; [nia|]. split; [lia|].
  split; [nia|]. split; [lia|].
  apply (Forall_impl _ _ _ B3). intros g Hg. unfold bitmaps_inside in *. lia.
Qed.

Lemma small_disk_run :
  mkfs small_disk_params 0 0 = Ok small_disk_image /\
  DISK_SIZE small_disk_params = 3 * 1024 /\
  fsize small_disk_image = 263 * 1024.
Proof. split; [vm_compute; reflexivity|]. split; vm_compute; reflexivity. Qed.

Lemma image_size_bounds_witness :
  exists geo lay,
    derive_geometry small_disk_params = Ok geo /\
    allocate small_disk_params geo = Ok lay /\
    DISK_SIZE small_disk_params <= fsize small_disk_image /\
    1024 + 1024 <= fsize small_disk_image /\
    3 * BLOCK_SIZE small_disk_params <= fsize small_disk_image /\
    0 <= root_data_block lay /\
    (root_data_block lay + 1) * BLOCK_SIZE small_disk_params
      <= fsize small_disk_image /\
    0 <= lf_data_block lay /\
    (lf_data_block lay + 1) * BLOCK_SIZE small_disk_params
      <= fsize small_disk_image /\
    Forall (bitmaps_inside small_disk_params (fsize small_disk_image)) (groups lay).
Proof.
  apply (image_size_bounds small_disk_params 0 0 small_disk_image).
  vm_compute. reflexivity.
Defined.

(** ** Where the writes go *)

Lemma extents_disjointb_sound (es : list (Z * Z)) :
  extents_disjointb es = true -> extents_disjoint es.
Proof.
  induction es as [|a es IH]; simpl; intros H i j x y Hij Hi Hj.
  - rewrite lookup_nil in Hi. discriminate.
  - apply andb_true_iff in H as [Hhead Htail].
    rewrite forallb_forall in Hhead.
    destruct i as [|i], j as [|j]; simpl in Hi, Hj.
    + congruence.
    + injection Hi as <-.
      apply list_elem_of_lookup_2, list_elem_of_In, Hhead, orb_true_iff in Hj.
      destruct Hj as [?%Z.leb_le|?%Z.leb_le]; lia.
    + injection Hj as <-.
      apply list_elem_of_lookup_2, list_elem_of_In, Hhead, orb_true_iff in Hi.
      destruct Hi as [?%Z.leb_le|?%Z.leb_le]; lia.
    + apply (IH Htail i j); [lia|assumption|assumption].
Qed.

(** The offsets and lengths of the writes do not depend on what the file
    held before, nor on the bytes written. *)
Lemma fwrite_extents (f g f' g' : File) (off : Z) (d d' : list Z) :
  length d = length d' -> extents f = extents g ->
  fwrite f off d = Ok f' -> fwrite g off d' = Ok g' ->
  extents f' = extents g'.
Proof.
  intros Hlen He Hf Hg. unfold fwrite in *.
  destruct (off <? 0); [discriminate|].
  destruct d as [|b d], d' as [|b' d']; try discriminate.
  - injection Hf as <-. injection Hg as <-. exact He.
  - injection Hf as <-. injection Hg as <-. unfold extents in *.
    cbn [flog]. rewrite !fmap_cons, He. cbn [w_off w_len].
    do 2 f_equal. simpl in Hlen. lia.
Qed.

Lemma write_group_extents (p : Params) (lay : Layout) (f g f' g' : File)
    (x : BlockGroup) :
  extents f = extents g ->
  write_group p lay f x = Ok f' -> write_group p lay g x = Ok g' ->
  extents f' = extents g'.
Proof.
  unfold write_group. intros He Hf Hg.
  inv_bind Hf as f1 Hf1. inv_bind Hg as g1 Hg1.
  pose proof (fwrite_extents _ _ _ _ _ _ _ eq_refl He Hf1 Hg1) as E1.
  inv_bind Hf as f2 Hf2. inv_bind Hg as g2 Hg2.
  pose proof (fwrite_extents _ _ _ _ _ _ _ eq_refl E1 Hf2 Hg2) as E2.
  inv_bind Hf as f3 Hf3. inv_bind Hg as g3 Hg3.
  assert (extents f3 = extents g3) as E3.
  { destruct (id x =? root_group_idx lay).
    - inv_bind Hf3 as o Ho. inv_bind Hg3 as o' Ho'.
      inv_bind Hf3 as ino Hino. inv_bind Hg3 as ino' Hino'.
      assert (o' = o) as -> by congruence. assert (ino' = ino) as -> by congruence.
      apply (fwrite_extents _ _ _ _ _ _ _ eq_refl E2 Hf3 Hg3).
    - injection Hf3 as <-. injection Hg3 as <-. exact E2. }
  destruct (id x =? lf_group_idx lay).
  - inv_bind Hf as o Ho. inv_bind Hg as o' Ho'.
    inv_bind Hf as ino Hino. inv_bind Hg as ino' Hino'.
    assert (o' = o) as -> by congruence. assert (ino' = ino) as -> by congruence.
    apply (fwrite_extents _ _ _ _ _ _ _ eq_refl E3 Hf Hg).
  - injection Hf as <-. injection Hg as <-. exact E3.
Qed.

Lemma write_groups_extents (p : Params) (lay : Layout) (gs : list BlockGroup) :
  forall f g f' g',
  extents f = extents g ->
  foldM (write_group p lay) f gs = Ok f' -> foldM (write_group p lay) g gs = Ok g' ->
  extents f' = extents g'.
Proof.
  induction gs as [|x gs IH]; simpl; intros f g f' g' He Hf Hg.
  - injection Hf as <-. injection Hg as <-. exact He.
  - inv_bind Hf as f1 Hf1. inv_bind Hg as g1 Hg1.
    apply (IH f1 g1); [|assumption|assumption].
    apply (write_group_extents p lay f g f1 g1 x He Hf1 Hg1).
Qed.

Lemma mkfs_extents (p : Params) (t_m t_w t_m' t_w' : Z) (f f' : File) :
  mkfs p t_m t_w = Ok f -> mkfs p t_m' t_w' = Ok f' -> extents f = extents f'.
Proof.
  unfold mkfs. intros H H'.
  inv_bind H as geo Hgeo. inv_bind H' as geo' Hgeo'.
  assert (geo' = geo) as -> by congruence.
  inv_bind H as lay Hlay. inv_bind H' as lay' Hlay'.
  assert (lay' = lay) as -> by congruence.
  inv_bind H as sb Hsb. inv_bind H' as sb' Hsb'.
  apply make_sb_data_inv in Hsb as (Lsb & _).
  apply make_sb_data_inv in Hsb' as (Lsb' & _).
  unfold write_image in *.
  inv_bind H as f0 Hf0. inv_bind H' as f0' Hf0'.
  assert (f0' = f0) as -> by congruence.
  inv_bind H as f1 Hf1. inv_bind H' as f1' Hf1'.
  pose proof (fwrite_extents _ _ _ _ _ sb sb' (eq_trans Lsb (eq_sym Lsb')) eq_refl
                Hf1 Hf1') as E1.
  unfold write_rest in *.
  inv_bind H as gdt Hgdt. inv_bind H' as gdt' Hgdt'.
  assert (gdt' = gdt) as -> by congruence.
  inv_bind H as f2 Hf2. inv_bind H' as f2' Hf2'.
  pose proof (fwrite_extents _ _ _ _ _ _ _ eq_refl E1 Hf2 Hf2') as E2.
  inv_bind H as f3 Hf3. inv_bind H' as f3' Hf3'.
  pose proof (write_groups_extents p lay _ _ _ _ _ E2 Hf3 Hf3') as E3.
  inv_bind H as rb Hrb. inv_bind H' as rb' Hrb'.
  assert (rb' = rb) as -> by congruence.
  inv_bind H as f4 Hf4. inv_bind H' as f4' Hf4'.
  pose proof (fwrite_extents _ _ _ _ _ _ _ eq_refl E3 Hf4 Hf4') as E4.
  inv_bind H as lb Hlb. inv_bind H' as lb' Hlb'.
  assert (lb' = lb) as -> by congruence.
  apply (fwrite_extents _ _ _ _ _ _ _ eq_refl E4 H H').
Qed.

Lemma default_image_extents :
  extents_disjointb (extents default_image) = true /\
  forallb (fun a => (0 <=? fst a) && (0 <? snd a)
                    && (fst a + snd a <=? DISK_SIZE default_params))
          (extents default_image) = true /\
  length (extents default_image) = 22%nat.
Proof. split; [vm_compute; reflexivity|]. split; vm_compute; reflexivity. Qed.

(** X19.  With the constants of the source the writes never overlap.
    Whatever the clock reads, a run that finishes has made 22 writes
    (superblock, descriptor table, two bitmaps for each of the 8 groups,
    two inode records, two directory blocks); no two of them touch a common
    byte and each lies inside the first [DISK_SIZE] bytes, so the order of
    the writes does not matter for this image. *)
Theorem default_writes_disjoint (t_m t_w : Z) (f : File) :
  mkfs default_params t_m t_w = Ok f ->
  length (flog f) = 22%nat /\
  extents_disjoint (extents f) /\
  extents_inside (DISK_SIZE default_params) (extents f).
Proof.
  intros H.
  rewrite <- (mkfs_extents default_params 0 0 t_m t_w default_image f mkfs_default_0 H).
  destruct default_image_extents as (Hd & Hin & Hlen).
  split.
  { rewrite <- Hlen.
    rewrite (mkfs_extents default_params 0 0 t_m t_w default_image f mkfs_default_0 H).
    unfold extents. rewrite length_fmap. reflexivity. }
  split; [apply extents_disjointb_sound, Hd|].
  apply Forall_forall. intros a Ha. rewrite forallb_forall in Hin.
  apply list_elem_of_In, Hin in Ha.
  apply andb_true_iff in Ha as [Ha Hc]. apply andb_true_iff in Ha as [Ha Hb].
  apply Z.leb_le in Ha, Hc. apply Z.ltb_lt in Hb. lia.
Qed.

Lemma default_writes_disjoint_witness :
  length (flog later_image) = 22%nat /\
  extents_disjoint (extents later_image) /\
  extents_inside (DISK_SIZE default_params) (extents later_image).
Proof.
  apply (default_writes_disjoint 1700000000 1700000001 later_image).
  vm_compute. reflexivity.
Defined.

(** ** The block bitmaps and the data blocks in closed form *)

(** A scan of a bitmap whose set bits are exactly the first [m]. *)
Lemma scan_marked_below (p : Params) (gs gs' : list BlockGroup) (idx blk : Z)
    (g : BlockGroup) (m : Z) :
  getitem gs idx = Ok g -> 0 <= m ->
  marked_below (block_bitmap g) m ->
  alloc_data_block p gs idx = Ok (gs', blk) ->
  (BLOCKS_PER_GROUP p <= m /\ gs' = gs /\ blk = 0) \/
  (m < BLOCKS_PER_GROUP p /\
   exists g', block_taken g g' m /\ setitem gs idx g' = Ok gs' /\
              blk = id g * BLOCKS_PER_GROUP p + 1 + m /\
              marked_below (block_bitmap g') (m + 1)).
Proof.
  intros Hget Hm Hbelow H.
  unfold alloc_data_block in H. rewrite Hget, bind_Ok in H.
  inv_bind H as [g' b] Hscan. inv_bind H as gs1 Hset. injection H as <- <-.
  destruct (first_fit_range_outcomes p g g' b Hscan)
    as [(-> & -> & Hall)|(i & Hi & Hlow & Hfree & Htaken & ->)];
    [apply (setitem_getitem_same gs gs1 idx g Hget) in Hset as ->|].
  - left. split; [|split; reflexivity].
    destruct (Z.le_gt_cases (BLOCKS_PER_GROUP p) m) as [?|Hlt]; [assumption|].
    specialize (Hall m ltac:(lia)). rewrite (Hbelow m Hm), Z.ltb_irrefl in Hall.
    discriminate.
  - assert (i = m) as ->.
    { rewrite (Hbelow i ltac:(lia)) in Hfree. apply Z.ltb_ge in Hfree.
      destruct (Z.eq_dec i m) as [?|Hne]; [assumption|].
      specialize (Hlow m ltac:(lia)). rewrite (Hbelow m Hm), Z.ltb_irrefl in Hlow.
      discriminate. }
    right. split; [lia|]. exists g'. repeat split; try assumption.
    destruct (block_taken_spec p g g' m Hm Htaken Hfree) as (_ & Hbit & Hother & _).
    intros j Hj. destruct (Z.eq_dec j m) as [->|Hne].
    + rewrite Hbit. symmetry. apply Z.ltb_lt. lia.
    + rewrite (Hother j Hj Hne), (Hbelow j Hj).
      destruct (Z.ltb_spec j m), (Z.ltb_spec j (m + 1)); reflexivity || lia.
Qed.

Lemma level_inode_stable (p : Params) (L : Z -> Z) :
  inode_stable (fun k g => placed p k g /\
                           marked_below (block_bitmap g) (L (Z.of_nat k))).
Proof.
  apply same_blocks_inode_stable.
  intros k g g' Hsame [Hp Hb]. split.
  - destruct (placed_stable p) as [[Hmark Hdir] _].
    destruct Hsame as (Hid & Hbb & Hib & Hit & Hbm).
    destruct Hp as (P1 & P2 & P3 & P4 & P5).
    unfold placed. rewrite Hid, Hbb, Hib, Hit, Hbm. tauto.
  - destruct Hsame as (_ & _ & _ & _ & ->). exact Hb.
Qed.

(** A scan of a list in which the set bits of group [k] are exactly the
    first [L k]. *)
Lemma scan_levels (p : Params) (L : Z -> Z) (gs gs' : list BlockGroup) (idx blk : Z) :
  0 <= idx -> 0 <= L idx ->
  groups_inv (fun k g => placed p k g /\
                         marked_below (block_bitmap g) (L (Z.of_nat k))) gs ->
  alloc_data_block p gs idx = Ok (gs', blk) ->
  blk = (if L idx <? BLOCKS_PER_GROUP p
         then idx * BLOCKS_PER_GROUP p + 1 + L idx else 0) /\
  groups_inv (fun k g =>
                placed p k g /\
                marked_below (block_bitmap g)
                  (L (Z.of_nat k)
                   + (if (Z.of_nat k =? idx) && (L idx <? BLOCKS_PER_GROUP p)
                      then 1 else 0))) gs'.
Proof.
  intros Hidx HL Hinv H.
  assert (exists g, getitem gs idx = Ok g) as [g Hget].
  { unfold alloc_data_block in H. inv_bind H as g Hg. eauto. }
  pose proof Hget as Hlook. apply getitem_inv in Hlook as (n & Hn & Hg).
  apply norm_index_nonneg in Hn as [-> _]; [|assumption].
  destruct (Hinv _ g Hg) as [Hp Hb]. rewrite Z2Nat.id in Hb by assumption.
  destruct (scan_marked_below p gs gs' idx blk g (L idx) Hget HL Hb H)
    as [(Hfull & -> & ->)|(Hfree & g' & Htaken & Hset & -> & Hb')].
  - destruct (Z.ltb_spec (L idx) (BLOCKS_PER_GROUP p)); [lia|].
    split; [reflexivity|]. intros k x Hk. destruct (Hinv k x Hk) as [Hpx Hbx].
    split; [exact Hpx|]. rewrite andb_false_r, Z.add_0_r. exact Hbx.
  - destruct (Z.ltb_spec (L idx) (BLOCKS_PER_GROUP p)); [|lia].
    destruct Hp as (Hid & Hrest). rewrite Z2Nat.id in Hid by assumption.
    split; [rewrite Hid; reflexivity|].
    unfold setitem, norm_index in Hset.
    destruct (Z.leb_spec 0 idx); [|lia]. rewrite Hg in Hset. simpl in Hset.
    injection Hset as <-.
    intros k x Hk. destruct (decide (Z.to_nat idx = k)) as [<-|Hne].
    + apply list_lookup_insert_Some in Hk as [(_ & <- & _)|(? & _)]; [|contradiction].
      rewrite Z2Nat.id, Z.eqb_refl by assumption. simpl. split; [|exact Hb'].
      destruct (placed_stable p) as [_ Htake].
      apply (Htake _ g g' (L idx) HL Htaken).
      * rewrite (Hb (L idx) HL). apply Z.ltb_irrefl.
      * split; [rewrite Z2Nat.id by assumption; exact Hid|exact Hrest].
    + rewrite list_lookup_insert_ne in Hk by assumption.
      destruct (Hinv k x Hk) as [Hpx Hbx]. split; [exact Hpx|].
      destruct (Z.eqb_spec (Z.of_nat k) idx) as [E|_]; [lia|].
      simpl. rewrite Z.add_0_r. exact Hbx.
Qed.

Lemma metadata_blocks_nonneg (p : Params) (k : Z) : 0 <= metadata_blocks p k.
Proof.
  unfold metadata_blocks, reserved_blocks, table_blocks.
  destruct (k =? 0); lia.
Qed.

Lemma allocate_exact (p : Params) (geo : Geometry) (lay : Layout) :
  0 < INODES_PER_GROUP p ->
  allocate p geo = Ok lay ->
  root_data_block lay = expected_root_block p /\
  lf_group_idx lay = lf_group p /\
  lf_data_block lay = expected_lf_block p /\
  groups_inv (fun k g => marked_below (block_bitmap g) (final_level p (Z.of_nat k)))
             (groups lay).
Proof.
  intros Hipg H.
  destruct (allocate_trace p geo lay H)
    as (gs0 & gs1 & gs2 & gs3 & gs4 & gs5 & H0 & H1 & H2 & H3 & H4 & H5 & H6).
  destruct (metadata_pass p geo gs0 gs1 H0 H1) as [_ I1].
  assert (groups_inv (fun k g => placed p k g /\
                                 marked_below (block_bitmap g)
                                   (metadata_blocks p (Z.of_nat k))) gs1) as J1.
  { intros k g Hk. destruct (I1 k g Hk) as (Hp & _ & _ & _ & Hb). split; assumption. }
  pose proof (alloc_dir_inode_keeps _ _ _ _ _ _
                (level_inode_stable p (metadata_blocks p)) J1 H2) as J2.
  pose proof (reserve_inodes_keeps _ _ _ _
                (level_inode_stable p (metadata_blocks p)) J2 H3) as J3.
  destruct (scan_levels p (metadata_blocks p) gs3 gs4 0 _ ltac:(lia)
              (metadata_blocks_nonneg p 0) J3 H4) as [Hroot J4].
  destruct (alloc_dir_inode_idx p gs4 gs5 lf_inode_index (lf_group_idx lay) Hipg
              ltac:(unfold lf_inode_index; lia) H5) as [Hlfidx Hlf0].
  pose proof (alloc_dir_inode_keeps _ _ _ _ _ _
                (level_inode_stable p (level_after_root p)) J4 H5) as J5.
  assert (0 <= level_after_root p (lf_group_idx lay)) as Hlev.
  { unfold level_after_root.
    pose proof (metadata_blocks_nonneg p (lf_group_idx lay)).
    destruct (_ && _); lia. }
  destruct (scan_levels p (level_after_root p) gs5 (groups lay) (lf_group_idx lay) _
              Hlf0 Hlev J5 H6) as [Hlost J6].
  fold (lf_group p) in Hlfidx. rewrite Hlfidx in Hlost, J6.
  split.
  { rewrite Hroot. unfold expected_root_block, root_found.
    destruct (_ <? _); lia. }
  split; [exact Hlfidx|]. split; [exact Hlost|].
  intros k g Hk. apply (J6 k g Hk).
Qed.

(** X20.  The data blocks in closed form, for any constants with a positive
    number of inodes per group.  The root directory gets the first block
    behind the reserved blocks, the bitmaps and the inode table of group 0
    (block [1 + metadata_blocks], 261 for the constants of the source) when
    that block is still inside the group, and 0 otherwise; lost+found's
    inode lives in group [10 // INODES_PER_GROUP] and its block is the
    first one of that group behind the group's metadata and behind the root
    directory's block if that lies there (262 for the constants of the
    source), or 0 when the group is full. *)
Theorem data_block_addresses (p : Params) (geo : Geometry) (lay : Layout) :
  0 < INODES_PER_GROUP p ->
  allocate p geo = Ok lay ->
  root_data_block lay = expected_root_block p /\
  lf_group_idx lay = lf_group p /\
  lf_data_block lay = expected_lf_block p.
Proof.
  intros Hipg H.
  destruct (allocate_exact p geo lay Hipg H) as (Hr & Hn & Hl & _). tauto.
Qed.

Lemma data_block_addresses_witness :
  root_data_block default_layout = expected_root_block default_params /\
  lf_group_idx default_layout = lf_group default_params /\
  lf_data_block default_layout = expected_lf_block default_params.
Proof.
  apply (data_block_addresses default_params default_geometry default_layout).
  - reflexivity.
  - exact allocate_default.
Defined.

(** X21.  The block bitmaps in closed form.  After the allocation passes
    (with a positive number of inodes per group) the set bits of every
    block bitmap form a prefix: in group [k] exactly the first
    [final_level k] bits are set, one for each reserved block, bitmap and
    inode-table block of the group and one for each directory block a scan
    found there; every other bit of the bitmap block is clear. *)
Theorem block_bitmaps_exact (p : Params) (geo : Geometry) (lay : Layout) :
  0 < INODES_PER_GROUP p ->
  allocate p geo = Ok lay ->
  forall k g, groups lay !! k = Some g ->
  forall j, 0 <= j ->
    test_bit (block_bitmap g) j = (j <? final_level p (Z.of_nat k)).
Proof.
  intros Hipg H k g Hk.
  destruct (allocate_exact p geo lay Hipg H) as (_ & _ & _ & Hinv).
  exact (Hinv k g Hk).
Qed.

Lemma block_bitmaps_exact_witness :
  test_bit (block_bitmap (default_group_at 0)) 261
    = (261 <? final_level default_params (Z.of_nat 0)).
Proof.
  apply (block_bitmaps_exact default_params default_geometry default_layout
           eq_refl allocate_default 0%nat (default_group_at 0)).
  - vm_compute. reflexivity.
  - lia.
Defined.

(** ** The inode bitmaps in closed form *)

Lemma inode_exact_ext (p : Params) (M M' : Z -> Prop) (gs : list BlockGroup) :
  (forall x, M x <-> M' x) ->
  groups_inv (inode_marked_exactly p M) gs ->
  groups_inv (inode_marked_exactly p M') gs.
Proof.
  intros Hext Hinv k g Hk j Hj. rewrite (Hinv k g Hk j Hj), Hext. reflexivity.
Qed.

Lemma inode_exact_metadata (p : Params) (geo : Geometry) (gs0 gs : list BlockGroup) :
  make_groups p geo = Ok gs0 -> alloc_metadata p gs0 = Ok gs ->
  groups_inv (inode_marked_exactly p (fun _ => False)) gs.
Proof.
  intros H0 H1 k g' Hk j Hj.
  apply mapM_inv in H0. apply mapM_inv in H1.
  destruct (Forall2_lookup_r _ _ _ _ _ H1 Hk) as (g & Hg & Halloc).
  destruct (Forall2_lookup_r _ _ _ _ _ H0 Hg) as (i & _ & Hinit).
  apply BlockGroup_init_inv in Hinit as [_ ->].
  apply alloc_group_metadata_inv in Halloc as (n & _ & Hall);
    [|apply marked_below_replicate_0].
  simpl in Hall. destruct Hall as (_ & _ & _ & _ & _ & _ & _ & Hib & _).
  rewrite Hib, test_bit_replicate_0. split; [discriminate|tauto].
Qed.

Lemma inode_exact_mark (p : Params) (M : Z -> Prop) (gs gs' : list BlockGroup)
    (i : Z) :
  0 < INODES_PER_GROUP p -> 1 <= i ->
  groups_inv (inode_marked_exactly p M) gs ->
  update_group gs ((i - 1) / INODES_PER_GROUP p)
    (mark_inode ((i - 1) mod INODES_PER_GROUP p)) = Ok gs' ->
  groups_inv (inode_marked_exactly p (fun x => M x \/ x = i)) gs'.
Proof.
  intros Hipg Hi Hinv H.
  set (grp := (i - 1) / INODES_PER_GROUP p) in *.
  set (off := (i - 1) mod INODES_PER_GROUP p) in *.
  assert (0 <= grp) as Hgrp by (apply Z.div_pos; lia).
  assert (0 <= off < INODES_PER_GROUP p) as Hoff by (apply Z.mod_pos_bound; lia).
  assert (grp * INODES_PER_GROUP p + off + 1 = i) as Hsplit.
  { pose proof (Z.div_mod (i - 1) (INODES_PER_GROUP p) ltac:(lia)).
    unfold grp, off. lia. }
  apply update_group_inv in H as (n & g & g' & Hg & Hmark & -> & Hn).
  specialize (Hn Hgrp). subst n.
  apply mark_inode_inv in Hmark as (bm & Hbm & ->).
  intros k x Hk j Hj. destruct (decide (Z.to_nat grp = k)) as [<-|Hne].
  - apply list_lookup_insert_Some in Hk as [(_ & <- & _)|(? & _)]; [|contradiction].
    simpl. rewrite (ior_bit_test _ _ off j (proj1 Hoff) Hj Hbm), orb_true_iff.
    rewrite (Hinv _ g Hg j Hj), Z2Nat.id by assumption.
    destruct (Z.eqb_spec off j) as [<-|Hoj].
    + split; [intros _; split; [lia|right; lia]|intros _; right; reflexivity].
    + split.
      * intros [[? ?]|?]; [tauto|discriminate].
      * intros [? [?|?]]; [left; tauto|lia].
  - rewrite list_lookup_insert_ne in Hk by assumption.
    rewrite (Hinv k x Hk j Hj). split; [tauto|].
    intros [Hlt [HM|Heq]]; [tauto|]. exfalso. apply Hne.
    assert (Z.of_nat k = grp) as <-; [|apply Nat2Z.id].
    unfold grp. apply (Z.div_unique_pos _ _ _ j); lia.
Qed.

Lemma inode_exact_same_inodes (p : Params) (M : Z -> Prop) :
  (forall k g g', inode_bitmap g' = inode_bitmap g ->
                  inode_marked_exactly p M k g -> inode_marked_exactly p M k g').
Proof. intros k g g' Hib Hg j Hj. rewrite Hib. apply Hg, Hj. Qed.

Lemma inode_exact_dir_inode (p : Params) (M : Z -> Prop) (gs gs' : list BlockGroup)
    (i idx : Z) :
  0 < INODES_PER_GROUP p -> 1 <= i ->
  groups_inv (inode_marked_exactly p M) gs ->
  alloc_dir_inode p gs i = Ok (gs', idx) ->
  groups_inv (inode_marked_exactly p (fun x => M x \/ x = i)) gs'.
Proof.
  intros Hipg Hi Hinv H. unfold alloc_dir_inode, floordiv, pymod in H.
  destruct (Z.eqb_spec (INODES_PER_GROUP p) 0); [lia|]. simpl in H.
  inv_bind H as gs1 H1. inv_bind H as gs2 H2. injection H as <- _.
  revert H2. apply update_group_keeps.
  - intros k g g' _ HP [= <-]. revert HP. apply inode_exact_same_inodes. reflexivity.
  - apply (inode_exact_mark p M gs gs1 i Hipg Hi Hinv H1).
Qed.

Lemma inode_exact_reserve_loop (p : Params) (l : list Z) :
  0 < INODES_PER_GROUP p ->
  forall (M : Z -> Prop) (gs gs' : list BlockGroup),
  (forall i, i ∈ l -> 1 <= i) ->
  groups_inv (inode_marked_exactly p M) gs ->
  foldM (reserve_inode p) gs l = Ok gs' ->
  groups_inv (inode_marked_exactly p (fun x => M x \/ (x ∈ l /\ x <> 2))) gs'.
Proof.
  intros Hipg. induction l as [|i l IH]; intros M gs gs' Hpos Hinv H.
  - simpl in H. injection H as <-. revert Hinv. apply inode_exact_ext.
    intros x. split; [tauto|]. intros [?|[Hx _]]; [assumption|].
    apply elem_of_nil in Hx. contradiction.
  - simpl in H. inv_bind H as gs1 H1.
    assert (forall j, j ∈ l -> 1 <= j) as Hpos'
      by (intros j Hj; apply Hpos, list_elem_of_further, Hj).
    unfold reserve_inode in H1. destruct (Z.eqb_spec i 2) as [->|Hi2].
    + injection H1 as <-. pose proof (IH M gs gs' Hpos' Hinv H) as Hres.
      revert Hres. apply inode_exact_ext. intros x.
      rewrite elem_of_cons. split; [tauto|]. intros [?|[[Hx|?] ?]]; [tauto|subst x; tauto|tauto].
    + unfold floordiv, pymod in H1.
      destruct (Z.eqb_spec (INODES_PER_GROUP p) 0); [lia|]. simpl in H1.
      pose proof (inode_exact_mark p M gs gs1 i Hipg
                    (Hpos i (list_elem_of_here _ _)) Hinv H1) as Hinv1.
      pose proof (IH _ gs1 gs' Hpos' Hinv1 H) as Hres.
      revert Hres. apply inode_exact_ext. intros x.
      rewrite elem_of_cons. split.
      * intros [[?|Hx]|[? ?]]; [tauto|subst x; tauto|tauto].
      * intros [?|[[Hx|?] ?]]; [tauto|subst x; tauto|tauto].
Qed.

Lemma inode_exact_data_block (p : Params) (M : Z -> Prop) (gs gs' : list BlockGroup)
    (idx blk : Z) :
  groups_inv (inode_marked_exactly p M) gs ->
  alloc_data_block p gs idx = Ok (gs', blk) ->
  groups_inv (inode_marked_exactly p M) gs'.
Proof.
  intros Hinv H.
  apply alloc_data_block_cases in H as (n & g & Hg & _ & Hcases).
  destruct Hcases as [[-> _]|(g' & i & -> & Hi & Hfree & Htaken & _)];
    [exact Hinv|].
  destruct (block_taken_spec p g g' i (proj1 Hi) Htaken Hfree)
    as (_ & _ & _ & _ & _ & Hib & _).
  intros k x Hk. destruct (decide (n = k)) as [->|Hne].
  - apply list_lookup_insert_Some in Hk as [(_ & <- & _)|(? & _)]; [|contradiction].
    apply (inode_exact_same_inodes p M k g g' Hib (Hinv k g Hg)).
  - rewrite list_lookup_insert_ne in Hk by assumption. apply Hinv, Hk.
Qed.

(** X22.  The inode bitmaps in closed form.  After the allocation passes
    (with a positive number of inodes per group), bit [j] of the inode
    bitmap of group [k] is set exactly when [j] is below [INODES_PER_GROUP]
    and the inode it stands for, [k * INODES_PER_GROUP + j + 1], is one of
    1..11: the ten reserved inodes and lost+found, and nothing else. *)
Theorem inode_bitmaps_exact (p : Params) (geo : Geometry) (lay : Layout) :
  0 < INODES_PER_GROUP p ->
  allocate p geo = Ok lay ->
  forall k g, groups lay !! k = Some g ->
  forall j, 0 <= j ->
    (test_bit (inode_bitmap g) j = true <->
     j < INODES_PER_GROUP p /\
     1 <= Z.of_nat k * INODES_PER_GROUP p + j + 1 <= 11).
Proof.
  intros Hipg H.
  destruct (allocate_trace p geo lay H)
    as (gs0 & gs1 & gs2 & gs3 & gs4 & gs5 & H0 & H1 & H2 & H3 & H4 & H5 & H6).
  pose proof (inode_exact_metadata p geo gs0 gs1 H0 H1) as I1.
  pose proof (inode_exact_dir_inode p _ _ _ root_inode_index _ Hipg
                ltac:(unfold root_inode_index; lia) I1 H2) as I2.
  unfold reserve_inodes in H3.
  pose proof (inode_exact_reserve_loop p (range2 1 11) Hipg _ _ _
                ltac:(intros i Hi; rewrite range2_seqZ in Hi;
                      apply elem_of_seqZ in Hi; lia) I2 H3) as I3.
  pose proof (inode_exact_data_block p _ _ _ _ _ I3 H4) as I4.
  pose proof (inode_exact_dir_inode p _ _ _ lf_inode_index _ Hipg
                ltac:(unfold lf_inode_index; lia) I4 H5) as I5.
  pose proof (inode_exact_data_block p _ _ _ _ _ I5 H6) as I6.
  intros k g Hk j Hj. rewrite (I6 k g Hk j Hj).
  unfold root_inode_index, lf_inode_index.
  rewrite range2_seqZ, elem_of_seqZ. split.
  - intros [Hlt Hm]. split; [exact Hlt|]. lia.
  - intros [Hlt Hm]. split; [exact Hlt|]. lia.
Qed.

Lemma inode_bitmaps_exact_witness :
  test_bit (inode_bitmap (default_group_at 0)) 10 = true <->
  10 < INODES_PER_GROUP default_params /\
  1 <= Z.of_nat 0 * INODES_PER_GROUP default_params + 10 + 1 <= 11.
Proof.
  apply (inode_bitmaps_exact default_params default_geometry default_layout
           eq_refl allocate_default 0%nat (default_group_at 0)).
  - vm_compute. reflexivity.
  - lia.
Defined.

(** * The allocation passes within a run *)

(** ** The metadata loop *)

Lemma mapM_ok {A B : Type} (f : A -> result B) (l : list A) :
  Forall (fun x => exists y, f x = Ok y) l -> exists l', mapM f l = Ok l'.
Proof.
  induction 1 as [|x l [y Hy] _ [l' Hl']]; simpl.
  - eauto.
  - rewrite Hy, Hl'. simpl. eauto.
Qed.

(** The groups the run creates, by index. *)
Lemma make_groups_lookup (p : Params) (geo : Geometry) (gs0 : list BlockGroup)
    (k : nat) (g : BlockGroup) :
  make_groups p geo = Ok gs0 -> gs0 !! k = Some g ->
  BlockGroup_init p (Z.of_nat k) = Ok g.
Proof.
  intros H0 Hk. apply mapM_inv in H0.
  destruct (Forall2_lookup_r _ _ _ _ _ H0 Hk) as (i & Hi & Hinit).
  apply lookup_range in Hi as ->. exact Hinit.
Qed.

Lemma metadata_kept_refl (g : BlockGroup) : metadata_kept g g.
Proof. unfold metadata_kept. tauto. Qed.

(** The passes after the metadata loop keep what it has placed. *)
Lemma metadata_kept_stable (p : Params) (gs1 : list BlockGroup) :
  pass_stable (fun k g => exists g1, gs1 !! k = Some g1 /\ metadata_kept g1 g).
Proof.
  apply same_blocks_stable.
  - intros k g g' (Hid & Hb & Hi & Ht & Hbm) (g1 & Hg1 & K1 & K2 & K3 & K4 & K5).
    exists g1. split; [exact Hg1|]. unfold metadata_kept.
    rewrite Hid, Hb, Hi, Ht, Hbm. tauto.
  - intros k g g' i Hi Htaken Hfree (g1 & Hg1 & K1 & K2 & K3 & K4 & K5).
    destruct (block_taken_spec p g g' i Hi Htaken Hfree)
      as (_ & Hbit & Hother & _ & Hid & _ & _ & _ & Hb & Hib & Ht).
    exists g1. split; [exact Hg1|]. unfold metadata_kept.
    rewrite Hid, Hb, Hib, Ht.
    split; [exact K1|]. split; [exact K2|]. split; [exact K3|].
    split; [exact K4|]. intros j Hj Hset.
    destruct (Z.eq_dec j i) as [->|Hne]; [exact Hbit|].
    rewrite Hother by lia. apply K5; assumption.
Qed.

(** C3.  The metadata loop of a run (lines 122-169), for all constants that
    satisfy what the specification asks of them: the inode table is a whole
    number of blocks, and the metadata of a group fits in its one-block
    bitmap.  The run creates [GROUP_COUNT] groups and the loop over them
    does not raise.  For every group index [k], iteration [k] is as
    [metadata_of_group] says: in group 0 bits 0 and 1 are set and the free
    count is reduced by 2 before any metadata is allocated, and allocation
    goes on from block 3; in every other group it starts at
    [k * BLOCKS_PER_GROUP + 1]; then one block for the block bitmap, the
    next one for the inode bitmap, the next
    [ceil (INODES_PER_GROUP * INODE_SIZE / BLOCK_SIZE)] for the inode table;
    exactly the bits of these blocks are set and the free count has dropped
    by one per block.  The rest of the run starts from these very groups,
    and in the layout it ends with every group still has the identity, the
    three addresses and all the set bits the loop gave it. *)
Theorem metadata_allocation (p : Params) (geo : Geometry) :
  0 < BLOCK_SIZE p ->
  0 <= INODES_PER_GROUP p * INODE_SIZE p ->
  (BLOCK_SIZE p | INODES_PER_GROUP p * INODE_SIZE p) ->
  2 + 1 + 1 + table_blocks_ceil p <= 8 * BLOCK_SIZE p ->
  exists gs0 gs1,
    make_groups p geo = Ok gs0 /\
    alloc_metadata p gs0 = Ok gs1 /\
    length gs0 = Z.to_nat (GROUP_COUNT geo) /\
    length gs1 = Z.to_nat (GROUP_COUNT geo) /\
    (forall k, (k < Z.to_nat (GROUP_COUNT geo))%nat ->
       exists g g', gs0 !! k = Some g /\ gs1 !! k = Some g' /\
                    metadata_of_group p (Z.of_nat k) g g') /\
    before_root_scan p geo
      = (let* (gs, root_idx) := alloc_dir_inode p gs1 root_inode_index in
         let* gs := reserve_inodes p gs in
         Ok (gs, root_idx)) /\
    forall lay, allocate p geo = Ok lay ->
      length (groups lay) = length gs1 /\
      forall k g1, gs1 !! k = Some g1 ->
        exists g, groups lay !! k = Some g /\ metadata_kept g1 g.
Proof.
  intros Hbs Hnn Hdiv Hfit.
  pose proof (make_groups_ok p geo ltac:(lia)) as H0.
  remember (fresh_group p <$> range (GROUP_COUNT geo)) as gs0 eqn:Egs0.
  assert (forall k g, gs0 !! k = Some g ->
            exists g', metadata_of_group p (Z.of_nat k) g g') as Hstep.
  { intros k g Hk.
    pose proof (make_groups_lookup p geo gs0 k g H0 Hk) as Hinit.
    destruct (group_metadata_step p (Z.of_nat k) g Hinit Hbs Hnn Hdiv)
      as (g0 & g' & S1 & S2 & S3 & S4 & S5 & S6 & S7 & S8 & S9 & S10 & S11).
    { unfold table_blocks_ceil in Hfit. destruct (Z.of_nat k =? 0); lia. }
    exists g'. unfold metadata_of_group, table_blocks_ceil.
    split; [exact Hinit|]. split; [exact S5|].
    split; [exists g0; repeat split; assumption|].
    split; [exact S2|]. split.
    { apply BlockGroup_init_inv in Hinit as [_ Hg].
      apply alloc_group_metadata_inv in S5 as (n & _ & Hall).
      - simpl in Hall. destruct Hall as (_ & _ & _ & _ & _ & _ & Hid & _).
        rewrite Hid, Hg. reflexivity.
      - rewrite Hg. apply marked_below_replicate_0. }
    repeat split; assumption. }
  destruct (mapM_ok (alloc_group_metadata p) gs0) as [gs1 H1].
  { apply Forall_lookup. intros k g Hk.
    destruct (Hstep k g Hk) as (g' & _ & Hg' & _). exists g'. exact Hg'. }
  change (alloc_metadata p gs0 = Ok gs1) in H1.
  assert (length gs0 = Z.to_nat (GROUP_COUNT geo)) as Hlen0.
  { apply mapM_length in H0. rewrite H0, range_seqZ, length_seqZ. reflexivity. }
  assert (length gs1 = Z.to_nat (GROUP_COUNT geo)) as Hlen1.
  { apply mapM_length in H1. rewrite H1. exact Hlen0. }
  exists gs0, gs1.
  split; [exact H0|]. split; [exact H1|]. split; [exact Hlen0|].
  split; [exact Hlen1|]. split; [|split].
  - intros k Hk.
    destruct (lookup_lt_is_Some_2 gs0 k) as [g Hg]; [lia|].
    destruct (Hstep k g Hg) as (g' & Hmeta).
    exists g, g'. split; [exact Hg|]. split; [|exact Hmeta].
    pose proof (mapM_inv _ _ _ H1) as HF.
    destruct (Forall2_lookup_l _ _ _ _ _ HF Hg) as (g'' & Hg'' & Halloc).
    destruct Hmeta as (_ & Halloc' & _). congruence.
  - unfold before_root_scan. rewrite H0, bind_Ok, H1, bind_Ok. reflexivity.
  - intros lay Hlay.
    destruct (allocate_trace p geo lay Hlay)
      as (gs0' & gs1' & gs2 & gs3 & gs4 & gs5 & T0 & T1 & T2 & T3 & T4 & T5 & T6).
    rewrite H0 in T0. injection T0 as <-.
    rewrite H1 in T1. injection T1 as <-.
    assert (length (groups lay) = length gs1) as Hlen.
    { destruct (allocate_length p geo lay Hlay) as [Hl _]. lia. }
    split; [exact Hlen|].
    pose proof (metadata_kept_stable p gs1) as Hst.
    assert (groups_inv
              (fun k g => exists g1, gs1 !! k = Some g1 /\ metadata_kept g1 g) gs1)
      as J1.
    { intros k g Hk. exists g. split; [exact Hk|apply metadata_kept_refl]. }
    pose proof (alloc_dir_inode_keeps _ _ _ _ _ _ (proj1 Hst) J1 T2) as J2.
    pose proof (reserve_inodes_keeps _ _ _ _ (proj1 Hst) J2 T3) as J3.
    pose proof (alloc_data_block_keeps _ _ _ _ _ _ Hst J3 T4) as J4.
    pose proof (alloc_dir_inode_keeps _ _ _ _ _ _ (proj1 Hst) J4 T5) as J5.
    pose proof (alloc_data_block_keeps _ _ _ _ _ _ Hst J5 T6) as J6.
    intros k g1 Hg1.
    destruct (lookup_lt_is_Some_2 (groups lay) k) as [g Hg].
    { rewrite Hlen. apply lookup_lt_Some in Hg1. exact Hg1. }
    exists g. split; [exact Hg|].
    destruct (J6 k g Hg) as (g1' & Hg1' & Hkept). congruence.
Qed.

Lemma metadata_allocation_witness :
  exists gs0 gs1,
    make_groups default_params default_geometry = Ok gs0 /\
    alloc_metadata default_params gs0 = Ok gs1 /\
    length gs0 = Z.to_nat (GROUP_COUNT default_geometry) /\
    length gs1 = Z.to_nat (GROUP_COUNT default_geometry) /\
    (forall k, (k < Z.to_nat (GROUP_COUNT default_geometry))%nat ->
       exists g g', gs0 !! k = Some g /\ gs1 !! k = Some g' /\
                    metadata_of_group default_params (Z.of_nat k) g g') /\
    before_root_scan default_params default_geometry
      = (let* (gs, root_idx) := alloc_dir_inode default_params gs1 root_inode_index in
         let* gs := reserve_inodes default_params gs in
         Ok (gs, root_idx)) /\
    forall lay, allocate default_params default_geometry = Ok lay ->
      length (groups lay) = length gs1 /\
      forall k g1, gs1 !! k = Some g1 ->
        exists g, groups lay !! k = Some g /\ metadata_kept g1 g.
Proof.
  apply (metadata_allocation default_params default_geometry).
  - reflexivity.
  - vm_compute. discriminate.
  - exists 256. reflexivity.
  - vm_compute. discriminate.
Defined.

(** ** Conservation of the counts *)

(** C9, as the code has it.  After the allocation passes the free-block
    counts and the set bits of the block bitmaps add up to one
    [BLOCKS_PER_GROUP] per group.  [GROUP_COUNT] is a ceiling, so this is
    at least the total block count and less than one group more; it is the
    total block count exactly when [BLOCKS_PER_GROUP] divides it (as with
    the constants of the source: 65536).  The free-inode counts and the set
    bits of the inode bitmaps add up to the total inode count. *)
Theorem free_count_conservation (p : Params) (geo : Geometry) (lay : Layout) :
  0 < INODES_PER_GROUP p ->
  0 < BLOCKS_PER_GROUP p ->
  derive_geometry p = Ok geo ->
  allocate p geo = Ok lay ->
  total_free_blocks (groups lay) + used_blocks (groups lay)
    = GROUP_COUNT geo * BLOCKS_PER_GROUP p /\
  BLOCK_COUNT geo <= GROUP_COUNT geo * BLOCKS_PER_GROUP p
    < BLOCK_COUNT geo + BLOCKS_PER_GROUP p /\
  (total_free_blocks (groups lay) + used_blocks (groups lay) = BLOCK_COUNT geo
   <-> (BLOCKS_PER_GROUP p | BLOCK_COUNT geo)) /\
  total_free_inodes (groups lay) + used_inodes (groups lay) = INODE_COUNT geo.
Proof.
  intros Hipg Hbpg Hgeo H.
  destruct (allocate_length p geo lay H) as [Hlen Hgc].
  assert (Forall (group_consistent p) (groups lay)) as Hcons.
  { apply Forall_lookup. intros k g Hk.
    apply (alloc_inv_allocate p geo lay Hipg H k g Hk). }
  destruct (consistent_sums p (groups lay) Hcons) as [Hb Hi].
  rewrite Hlen, Z2Nat.id in Hb, Hi by lia.
  unfold derive_geometry, floordiv in Hgeo.
  destruct (BLOCK_SIZE p =? 0); [discriminate|]. simpl in Hgeo.
  destruct (Z.eqb_spec (BLOCKS_PER_GROUP p) 0); [lia|]. simpl in Hgeo.
  injection Hgeo as <-. simpl in *.
  pose proof (ceil_div_bounds (DISK_SIZE p / BLOCK_SIZE p) (BLOCKS_PER_GROUP p) Hbpg)
    as Hceil.
  split; [exact Hb|]. split; [lia|]. split; [|lia].
  rewrite Hb. split.
  - intros Heq. exists ((DISK_SIZE p / BLOCK_SIZE p + BLOCKS_PER_GROUP p - 1)
                        / BLOCKS_PER_GROUP p). lia.
  - intros Hdiv. rewrite ceil_div_exact by assumption.
    destruct Hdiv as [q Hq]. rewrite Hq, Z.div_mul by lia. reflexivity.
Qed.

Lemma free_count_conservation_witness :
  total_free_blocks (groups default_layout) + used_blocks (groups default_layout)
    = GROUP_COUNT default_geometry * BLOCKS_PER_GROUP default_params /\
  BLOCK_COUNT default_geometry
    <= GROUP_COUNT default_geometry * BLOCKS_PER_GROUP default_params
    < BLOCK_COUNT default_geometry + BLOCKS_PER_GROUP default_params /\
  (total_free_blocks (groups default_layout) + used_blocks (groups default_layout)
     = BLOCK_COUNT default_geometry
   <-> (BLOCKS_PER_GROUP default_params | BLOCK_COUNT default_geometry)) /\
  total_free_inodes (groups default_layout) + used_inodes (groups default_layout)
    = INODE_COUNT default_geometry.
Proof.
  apply (free_count_conservation default_params default_geometry default_layout).
  - reflexivity.
  - reflexivity.
  - reflexivity.
  - vm_compute. reflexivity.
Defined.

(** C9 fails on the code as the claim words it.  A disk of 4 MiB with the
    other constants of the source satisfies what the specification asks of
    the parameters; it has 4096 blocks, in one group of 8192.  After the
    allocation passes the free count is 7930 and 262 bits are set: 8192
    together, twice the total block count. *)
Lemma free_count_exceeds_block_count :
  derive_geometry half_group_params = Ok half_group_geometry /\
  DISK_SIZE half_group_params mod BLOCK_SIZE half_group_params = 0 /\
  (INODES_PER_GROUP half_group_params * INODE_SIZE half_group_params)
    mod BLOCK_SIZE half_group_params = 0 /\
  11 <= INODE_COUNT half_group_geometry /\
  allocate half_group_params half_group_geometry = Ok half_group_layout /\
  BLOCK_COUNT half_group_geometry = 4096 /\
  total_free_blocks (groups half_group_layout) = 7930 /\
  used_blocks (groups half_group_layout) = 262 /\
  total_free_blocks (groups half_group_layout) + used_blocks (groups half_group_layout)
    <> BLOCK_COUNT half_group_geometry.
Proof.
  split; [reflexivity|]. split; [reflexivity|]. split; [reflexivity|].
  split; [vm_compute; discriminate|]. split; [vm_compute; reflexivity|].
  split; [reflexivity|]. split; [vm_compute; reflexivity|].
  split; [vm_compute; reflexivity|]. vm_compute. discriminate.
Qed.

(** ** The scans for the data blocks *)

Lemma getitem_after_setitem {A : Type} (l l' : list A) (i : Z) (x y : A) :
  getitem l i = Ok y -> setitem l i x = Ok l' -> getitem l' i = Ok x.
Proof.
  intros Hg Hs. apply getitem_inv in Hg as (n & Hn & Hy).
  unfold setitem in Hs. rewrite Hn, bind_Ok in Hs. injection Hs as <-.
  assert (<[n := x]> l !! n = Some x) as Hx.
  { apply list_lookup_insert_Some. left. repeat split.
    apply lookup_lt_Some in Hy. exact Hy. }
  assert (norm_index (<[n := x]> l) i = Ok n) as Hn'.
  { unfold norm_index in *. rewrite length_insert.
    destruct (0 <=? i); [|exact Hn].
    destruct (l !! Z.to_nat i); [|discriminate]. injection Hn as <-.
    rewrite Hx. reflexivity. }
  unfold getitem. rewrite Hn', bind_Ok, Hx. reflexivity.
Qed.

(** The group whose inode a directory takes: the floor division of lines
    172 and 199; the list still has that group afterwards. *)
Lemma alloc_dir_inode_group (p : Params) (gs gs' : list BlockGroup) (i idx : Z) :
  alloc_dir_inode p gs i = Ok (gs', idx) ->
  INODES_PER_GROUP p <> 0 /\ idx = (i - 1) / INODES_PER_GROUP p /\
  exists g, getitem gs' idx = Ok g.
Proof.
  unfold alloc_dir_inode, floordiv. intros H.
  destruct (Z.eqb_spec (INODES_PER_GROUP p) 0) as [|Hne]; [discriminate|].
  rewrite bind_Ok in H.
  inv_bind H as off Hoff. inv_bind H as gs1 H1. inv_bind H as gs2 H2.
  injection H as <- <-. split; [exact Hne|]. split; [reflexivity|].
  unfold update_group in H2. inv_bind H2 as g Hg. inv_bind H2 as g' Hg'.
  exists g'. apply (getitem_after_setitem _ _ _ _ _ Hg H2).
Qed.

Lemma root_group_zero (n : Z) : n <> 0 -> (1 / n = 0 <-> 2 <= n).
Proof.
  intros Hn. split.
  - intros H0. pose proof (Z.div_mod 1 n Hn) as Hdm. rewrite H0 in Hdm.
    destruct (Z.lt_trichotomy n 0) as [Hneg|[?|Hpos]]; [|lia|].
    + pose proof (Z.mod_neg_bound 1 n Hneg). lia.
    + pose proof (Z.mod_pos_bound 1 n Hpos). lia.
  - intros H2. apply Z.div_small. lia.
Qed.

(** A scan over bits that all lie inside the bitmap does not raise. *)
Lemma first_fit_total (p : Params) (g : BlockGroup) (blk : Z) (scan : list Z) :
  is_bytearray (block_bitmap g) ->
  Forall (fun i => 0 <= i /\ i / 8 < Z.of_nat (length (block_bitmap g))) scan ->
  exists r, first_fit p g blk scan = Ok r.
Proof.
  intros Hbm. induction 1 as [|i scan [Hi Hlt] _ IH]; simpl; [eauto|].
  assert (0 <= i / 8) as Hq by (apply Z.div_pos; lia).
  destruct (lookup_lt_is_Some_2 (block_bitmap g) (Z.to_nat (i / 8))) as [b Hb];
    [lia|].
  rewrite (getitem_lookup _ _ b Hq Hb), bind_Ok.
  destruct (Z.land b (Z.shiftl 1 (i mod 8)) =? 0); [|exact IH].
  destruct (ior_bit_succeeds _ i Hbm Hi Hlt) as (bm & -> & _).
  rewrite bind_Ok. eauto.
Qed.

(** The scan of a group whose bitmap is a bytearray of one block does not
    raise when the block has a bit for every block of a group. *)
Lemma alloc_data_block_total (p : Params) (gs : list BlockGroup) (idx : Z)
    (g : BlockGroup) :
  getitem gs idx = Ok g -> bitmaps_wf p g ->
  BLOCKS_PER_GROUP p <= 8 * BLOCK_SIZE p ->
  exists gs' blk, alloc_data_block p gs idx = Ok (gs', blk).
Proof.
  intros Hget (Hlen & _ & Hbm & _) Hfit. unfold alloc_data_block.
  rewrite Hget, bind_Ok.
  destruct (first_fit_total p g 0 (range (BLOCKS_PER_GROUP p)) Hbm) as [[g' b] Hscan].
  { apply Forall_forall. intros i Hi. rewrite range_seqZ in Hi.
    apply elem_of_seqZ in Hi. split; [lia|].
    rewrite Hlen. apply Z.div_lt_upper_bound; lia. }
  rewrite Hscan, bind_Ok.
  destruct (getitem_setitem_ok gs idx g g' Hget) as [gs' Hset].
  rewrite Hset, bind_Ok. eauto.
Qed.

(** What a scan that returns has done. *)
Lemma alloc_data_block_step (p : Params) (gs gs' : list BlockGroup) (idx blk : Z) :
  groups_inv (fun k g => id g = Z.of_nat k) gs ->
  alloc_data_block p gs idx = Ok (gs', blk) ->
  exists n, norm_index gs idx = Ok n /\ first_fit_step p gs gs' n blk.
Proof.
  intros Hid H. unfold alloc_data_block in H. inv_bind H as g Hg.
  inv_bind H as [g' b] Hscan. inv_bind H as gs1 Hset. injection H as <- <-.
  apply getitem_inv in Hg as (n & Hn & Hg).
  unfold setitem in Hset. rewrite Hn, bind_Ok in Hset. injection Hset as <-.
  exists n. split; [exact Hn|]. exists g. split; [exact Hg|].
  split; [apply (Hid n g Hg)|].
  destruct (first_fit_range_outcomes p g g' b Hscan)
    as [(-> & -> & Hall)|(i & Hi & Hlow & Hfree & Htaken & ->)].
  - left. split; [apply list_insert_id; exact Hg|]. split; [reflexivity|exact Hall].
  - right. exists i, g'.
    destruct (block_taken_spec p g g' i (proj1 Hi) Htaken Hfree)
      as (Hfr & Hbit & Hother & _ & Hid' & Hib & Hfi & Hud & Hb & Hibb & Ht).
    split; [exact Hi|]. split; [exact Hlow|]. split; [exact Hfree|].
    split; [reflexivity|]. split; [exact Hbit|]. split; [exact Hother|].
    split; [exact Hfr|]. split; [unfold same_but_blocks; tauto|].
    rewrite (Hid n g Hg). reflexivity.
Qed.

Lemma before_root_scan_trace (p : Params) (geo : Geometry) (gs3 : list BlockGroup)
    (ridx : Z) :
  before_root_scan p geo = Ok (gs3, ridx) ->
  exists gs0 gs1 gs2,
    make_groups p geo = Ok gs0 /\
    alloc_metadata p gs0 = Ok gs1 /\
    alloc_dir_inode p gs1 root_inode_index = Ok (gs2, ridx) /\
    reserve_inodes p gs2 = Ok gs3.
Proof.
  unfold before_root_scan. intros H.
  inv_bind H as gs0 H0. inv_bind H as gs1 H1. inv_bind H as [gs2 ridx'] H2.
  inv_bind H as gs3' H3. injection H as -> ->.
  exists gs0, gs1, gs2. repeat split; assumption.
Qed.

Lemma before_lf_scan_trace (p : Params) (geo : Geometry) (gs5 : list BlockGroup)
    (ridx rblk lidx : Z) :
  before_lf_scan p geo = Ok (gs5, ridx, rblk, lidx) ->
  exists gs3 gs4,
    before_root_scan p geo = Ok (gs3, ridx) /\
    alloc_data_block p gs3 0 = Ok (gs4, rblk) /\
    alloc_dir_inode p gs4 lf_inode_index = Ok (gs5, lidx).
Proof.
  unfold before_lf_scan. intros H.
  inv_bind H as [gs3 ridx'] H3. inv_bind H as [gs4 rblk'] H4.
  inv_bind H as [gs5' lidx'] H5. injection H as -> -> -> ->.
  exists gs3, gs4. repeat split; assumption.
Qed.

Lemma metadata_pass_wf (p : Params) (geo : Geometry) (gs0 gs1 : list BlockGroup) :
  make_groups p geo = Ok gs0 -> alloc_metadata p gs0 = Ok gs1 ->
  groups_inv (fun _ g => bitmaps_wf p g) gs1.
Proof.
  intros H0 H1 k g' Hk. apply mapM_inv in H0. apply mapM_inv in H1.
  destruct (Forall2_lookup_r _ _ _ _ _ H1 Hk) as (g & Hg & Halloc).
  destruct (Forall2_lookup_r _ _ _ _ _ H0 Hg) as (i & _ & Hinit).
  apply BlockGroup_init_inv in Hinit as [HBS ->].
  apply (alloc_group_metadata_wf p _ _ Halloc).
  unfold bitmaps_wf. simpl. rewrite length_replicate.
  repeat split; apply is_bytearray_replicate_0.
Qed.

(** The groups when the scan for the root directory's block starts. *)
Lemma before_root_scan_inv (p : Params) (geo : Geometry) (gs3 : list BlockGroup)
    (ridx : Z) :
  before_root_scan p geo = Ok (gs3, ridx) ->
  groups_inv (placed p) gs3 /\ groups_inv (fun _ g => bitmaps_wf p g) gs3 /\
  exists g, getitem gs3 0 = Ok g.
Proof.
  intros H.
  destruct (before_root_scan_trace p geo gs3 ridx H)
    as (gs0 & gs1 & gs2 & H0 & H1 & H2 & H3).
  destruct (metadata_pass p geo gs0 gs1 H0 H1) as [_ I1].
  assert (groups_inv (placed p) gs1) as P1
    by (intros k g Hk; apply (I1 k g Hk)).
  pose proof (metadata_pass_wf p geo gs0 gs1 H0 H1) as W1.
  pose proof (placed_stable p) as [Hp _].
  pose proof (bitmaps_wf_stable p) as [Hw _].
  split; [|split].
  - apply (reserve_inodes_keeps _ _ _ _ Hp
             (alloc_dir_inode_keeps _ _ _ _ _ _ Hp P1 H2) H3).
  - apply (reserve_inodes_keeps _ _ _ _ Hw
             (alloc_dir_inode_keeps _ _ _ _ _ _ Hw W1 H2) H3).
  - destruct (alloc_dir_inode_group p gs1 gs2 _ ridx H2) as (_ & _ & g & Hg).
    apply getitem_inv in Hg as (n & _ & Hg). apply lookup_lt_Some in Hg.
    apply reserve_inodes_length in H3.
    destruct (lookup_lt_is_Some_2 gs3 0) as [g3 Hg3]; [lia|].
    exists g3. apply getitem_lookup; [lia|exact Hg3].
Qed.

(** The groups when the scan for lost+found's block starts. *)
Lemma before_lf_scan_inv (p : Params) (geo : Geometry) (gs5 : list BlockGroup)
    (ridx rblk lidx : Z) :
  before_lf_scan p geo = Ok (gs5, ridx, rblk, lidx) ->
  groups_inv (placed p) gs5 /\ groups_inv (fun _ g => bitmaps_wf p g) gs5 /\
  exists g, getitem gs5 lidx = Ok g.
Proof.
  intros H.
  destruct (before_lf_scan_trace p geo gs5 ridx rblk lidx H)
    as (gs3 & gs4 & H3 & H4 & H5).
  destruct (before_root_scan_inv p geo gs3 ridx H3) as (P3 & W3 & _).
  pose proof (placed_stable p) as Hp.
  pose proof (bitmaps_wf_stable p) as Hw.
  split; [|split].
  - apply (alloc_dir_inode_keeps _ _ _ _ _ _ (proj1 Hp)
             (alloc_data_block_keeps _ _ _ _ _ _ Hp P3 H4) H5).
  - apply (alloc_dir_inode_keeps _ _ _ _ _ _ (proj1 Hw)
             (alloc_data_block_keeps _ _ _ _ _ _ Hw W3 H4) H5).
  - destruct (alloc_dir_inode_group p gs4 gs5 _ lidx H5) as (_ & _ & Hg). exact Hg.
Qed.

Lemma placed_id (p : Params) (gs : list BlockGroup) :
  groups_inv (placed p) gs -> groups_inv (fun k g => id g = Z.of_nat k) gs.
Proof. intros H k g Hk. apply (H k g Hk). Qed.

(** The run is the state before the last scan followed by that scan. *)
Lemma allocate_from_lf_scan (p : Params) (geo : Geometry) (gs5 gs6 : list BlockGroup)
    (ridx rblk lidx lblk : Z) :
  before_lf_scan p geo = Ok (gs5, ridx, rblk, lidx) ->
  alloc_data_block p gs5 lidx = Ok (gs6, lblk) ->
  allocate p geo = Ok {| groups := gs6;
                         root_group_idx := ridx;
                         root_data_block := rblk;
                         lf_group_idx := lidx;
                         lf_data_block := lblk |}.
Proof.
  intros H5 H6. unfold allocate. rewrite H5, bind_Ok, H6, bind_Ok. reflexivity.
Qed.

(** C4, as the code has it.  The two scans of a run (lines 188-196 and
    206-213).  The scan for the root directory's block runs on [groups[0]],
    whatever the group of the root inode, which is group
    [1 // INODES_PER_GROUP]: group 0 exactly when a group holds at least two
    inodes.  The scan for lost+found's block runs on the group of inode 11,
    [10 // INODES_PER_GROUP].  Each scan is a [first_fit_step] on the groups
    as the passes before it left them: it goes from bit 0 upward and takes
    the first unset bit below [BLOCKS_PER_GROUP], sets it, takes one off the
    group's free-block count and records the group's index times
    [BLOCKS_PER_GROUP] plus 1 plus the bit; when every one of these bits is
    set it changes nothing and records 0.  The layout of the run holds the
    two addresses recorded.  When the bitmap block has a bit for every
    block of a group, neither scan raises: once the passes before a scan
    have ended, the scan returns, and after the second one so does the
    allocation. *)
Theorem first_fit_allocation (p : Params) (geo : Geometry) :
  (forall lay, allocate p geo = Ok lay ->
     root_group_idx lay = (root_inode_index - 1) / INODES_PER_GROUP p /\
     lf_group_idx lay = (lf_inode_index - 1) / INODES_PER_GROUP p /\
     (root_group_idx lay = 0 <-> 2 <= INODES_PER_GROUP p) /\
     exists gs3 gs4 gs5 n,
       before_root_scan p geo = Ok (gs3, root_group_idx lay) /\
       alloc_data_block p gs3 0 = Ok (gs4, root_data_block lay) /\
       first_fit_step p gs3 gs4 0 (root_data_block lay) /\
       before_lf_scan p geo
         = Ok (gs5, root_group_idx lay, root_data_block lay, lf_group_idx lay) /\
       alloc_data_block p gs5 (lf_group_idx lay)
         = Ok (groups lay, lf_data_block lay) /\
       norm_index gs5 (lf_group_idx lay) = Ok n /\
       (0 < INODES_PER_GROUP p -> n = Z.to_nat (lf_group_idx lay)) /\
       first_fit_step p gs5 (groups lay) n (lf_data_block lay)) /\
  (BLOCKS_PER_GROUP p <= 8 * BLOCK_SIZE p ->
   forall gs3 ridx, before_root_scan p geo = Ok (gs3, ridx) ->
     exists gs4 rblk,
       alloc_data_block p gs3 0 = Ok (gs4, rblk) /\
       forall gs5 lidx, alloc_dir_inode p gs4 lf_inode_index = Ok (gs5, lidx) ->
         exists gs6 lblk,
           alloc_data_block p gs5 lidx = Ok (gs6, lblk) /\
           allocate p geo = Ok {| groups := gs6;
                                  root_group_idx := ridx;
                                  root_data_block := rblk;
                                  lf_group_idx := lidx;
                                  lf_data_block := lblk |}).
Proof.
  split.
  - intros lay H.
    destruct (allocate_trace p geo lay H)
      as (gs0 & gs1 & gs2 & gs3 & gs4 & gs5 & H0 & H1 & H2 & H3 & H4 & H5 & H6).
    assert (before_root_scan p geo = Ok (gs3, root_group_idx lay)) as B3.
    { unfold before_root_scan.
      rewrite H0, bind_Ok, H1, bind_Ok, H2, bind_Ok, H3, bind_Ok. reflexivity. }
    assert (before_lf_scan p geo
            = Ok (gs5, root_group_idx lay, root_data_block lay, lf_group_idx lay))
      as B5.
    { unfold before_lf_scan. rewrite B3, bind_Ok, H4, bind_Ok, H5, bind_Ok.
      reflexivity. }
    destruct (alloc_dir_inode_group p gs1 gs2 _ _ H2) as (Hne & Hr & _).
    destruct (alloc_dir_inode_group p gs4 gs5 _ _ H5) as (_ & Hl & _).
    destruct (before_root_scan_inv p geo gs3 _ B3) as (P3 & _ & _).
    destruct (before_lf_scan_inv p geo gs5 _ _ _ B5) as (P5 & _ & _).
    destruct (alloc_data_block_step p gs3 gs4 0 _ (placed_id p gs3 P3) H4)
      as (n0 & Hn0 & S0).
    apply norm_index_nonneg in Hn0 as [-> _]; [|lia].
    destruct (alloc_data_block_step p gs5 (groups lay) _ _ (placed_id p gs5 P5) H6)
      as (n & Hn & S1).
    split; [exact Hr|]. split; [exact Hl|]. split.
    { rewrite Hr. apply root_group_zero, Hne. }
    exists gs3, gs4, gs5, n. repeat split; try assumption.
    intros Hipg. apply (norm_index_nonneg _ _ _) in Hn as [-> _]; [reflexivity|].
    rewrite Hl. apply Z.div_pos; [unfold lf_inode_index|]; lia.
  - intros Hfit gs3 ridx B3.
    destruct (before_root_scan_inv p geo gs3 ridx B3) as (_ & W3 & g3 & Hg3).
    destruct (alloc_data_block_total p gs3 0 g3 Hg3) as (gs4 & rblk & H4);
      [|exact Hfit|].
    { apply getitem_inv in Hg3 as (n & _ & Hn). apply (W3 n g3 Hn). }
    exists gs4, rblk. split; [exact H4|]. intros gs5 lidx H5.
    assert (before_lf_scan p geo = Ok (gs5, ridx, rblk, lidx)) as B5.
    { unfold before_lf_scan. rewrite B3, bind_Ok, H4, bind_Ok, H5, bind_Ok.
      reflexivity. }
    destruct (before_lf_scan_inv p geo gs5 _ _ _ B5) as (_ & W5 & g5 & Hg5).
    destruct (alloc_data_block_total p gs5 lidx g5 Hg5) as (gs6 & lblk & H6);
      [|exact Hfit|].
    { apply getitem_inv in Hg5 as (n & _ & Hn). apply (W5 n g5 Hn). }
    exists gs6, lblk. split; [exact H6|].
    apply (allocate_from_lf_scan p geo gs5 gs6 _ _ _ _ B5 H6).
Qed.

Lemma first_fit_allocation_witness :
  (root_group_idx default_layout
     = (root_inode_index - 1) / INODES_PER_GROUP default_params /\
   lf_group_idx default_layout
     = (lf_inode_index - 1) / INODES_PER_GROUP default_params /\
   (root_group_idx default_layout = 0 <-> 2 <= INODES_PER_GROUP default_params) /\
   exists gs3 gs4 gs5 n,
     before_root_scan default_params default_geometry
       = Ok (gs3, root_group_idx default_layout) /\
     alloc_data_block default_params gs3 0 = Ok (gs4, root_data_block default_layout) /\
     first_fit_step default_params gs3 gs4 0 (root_data_block default_layout) /\
     before_lf_scan default_params default_geometry
       = Ok (gs5, root_group_idx default_layout, root_data_block default_layout,
             lf_group_idx default_layout) /\
     alloc_data_block default_params gs5 (lf_group_idx default_layout)
       = Ok (groups default_layout, lf_data_block default_layout) /\
     norm_index gs5 (lf_group_idx default_layout) = Ok n /\
     (0 < INODES_PER_GROUP default_params -> n = Z.to_nat (lf_group_idx default_layout)) /\
     first_fit_step default_params gs5 (groups default_layout) n
       (lf_data_block default_layout)) /\
  exists gs4 rblk,
    alloc_data_block default_params groups_before_root_scan 0 = Ok (gs4, rblk) /\
    forall gs5 lidx,
      alloc_dir_inode default_params gs4 lf_inode_index = Ok (gs5, lidx) ->
      exists gs6 lblk,
        alloc_data_block default_params gs5 lidx = Ok (gs6, lblk) /\
        allocate default_params default_geometry
          = Ok {| groups := gs6;
                  root_group_idx := 0;
                  root_data_block := rblk;
                  lf_group_idx := lidx;
                  lf_data_block := lblk |}.
Proof.
  destruct (first_fit_allocation default_params default_geometry) as [Hrun Htotal].
  split.
  - apply (Hrun default_layout). exact allocate_default.
  - apply (Htotal ltac:(vm_compute; discriminate) groups_before_root_scan 0).
    exact before_root_scan_default.
Defined.

(** C4 fails on the code as the claim words it.  With one inode per group
    (and the inode filling a block, so that the constants satisfy what the
    specification asks of them) the root inode, inode 2, is the inode of
    group 1, and yet the root directory's data block is block 6, in group
    0: the scan of line 190 runs on [groups[0]].  Bit 5 of the bitmap of
    group 0 is set for it, and group 1 has only the three bits of its
    metadata set. *)
Lemma root_block_outside_root_group :
  derive_geometry one_inode_params = Ok one_inode_geometry /\
  DISK_SIZE one_inode_params mod BLOCK_SIZE one_inode_params = 0 /\
  (INODES_PER_GROUP one_inode_params * INODE_SIZE one_inode_params)
    mod BLOCK_SIZE one_inode_params = 0 /\
  11 <= INODE_COUNT one_inode_geometry /\
  allocate one_inode_params one_inode_geometry = Ok one_inode_layout /\
  root_group_idx one_inode_layout = 1 /\
  root_data_block one_inode_layout = 6 /\
  root_data_block one_inode_layout
    < root_group_idx one_inode_layout * BLOCKS_PER_GROUP one_inode_params + 1 /\
  exists g0 g1,
    groups one_inode_layout !! 0%nat = Some g0 /\
    groups one_inode_layout !! 1%nat = Some g1 /\
    test_bit (block_bitmap g0) 5 = true /\
    count_set (block_bitmap g0) = 6 /\
    free_blocks_count g0 = 8192 - 6 /\
    count_set (block_bitmap g1) = 3 /\
    free_blocks_count g1 = 8192 - 3.
Proof.
  split; [reflexivity|]. split; [reflexivity|]. split; [reflexivity|].
  split; [vm_compute; discriminate|]. split; [vm_compute; reflexivity|].
  split; [vm_compute; reflexivity|]. split; [vm_compute; reflexivity|].
  split; [vm_compute; reflexivity|].
  exists (default empty_group (groups one_inode_layout !! 0%nat)),
         (default empty_group (groups one_inode_layout !! 1%nat)).
  split; [vm_compute; reflexivity|]. split; [vm_compute; reflexivity|].
  split; [vm_compute; reflexivity|]. split; [vm_compute; reflexivity|].
  split; [vm_compute; reflexivity|]. split; [vm_compute; reflexivity|].
  vm_compute. reflexivity.
Qed.

(** ** A scan that finds no unset bit *)




Lemma overfull_run :
  derive_geometry overfull_params = Ok overfull_geometry /\
  before_root_scan overfull_params overfull_geometry = Ok (overfull_groups, 0) /\
  getitem overfull_groups 0 = Ok overfull_group0 /\
  length (block_bitmap overfull_group0) = 1024%nat /\
  mkfs overfull_params 0 0 = Err IndexError.
Proof.
  split; [reflexivity|]. split; [vm_compute; reflexivity|].
  split; [vm_compute; reflexivity|]. split; [vm_compute; reflexivity|].
  vm_compute. reflexivity.
Qed.

